(** * luatemplate: the template compiler and its render context

    A shallow embedding of [reader.c] (escape tables, the directive scanner
    [reader], the include orchestrator [process_file]) and of
    [luatemplate.c] (the render context, [render_file], [render_clear] and
    the two Lua dispatch routines [render_block] and [render_template]).

    Conventions of the embedding:
    - a C string is a [string]; [deref p] is [*p] and reads NUL at the end
      (for the text of a mapped file, see [process_file]);
    - [int] variables holding enum constants are [Z], as in the C code;
    - the two [struct buffer]s of [reader] are strings that only grow at the
      end ([buf_addstring], [buf_addchar]);
    - the build is the default one: [LT_DEBUG] is not defined, so the line
      map is absent.

    Line numbers are those of the two source files: the one that holds
    [luatemplate.h] followed by [luatemplate.c], and [reader.c]. *)

From Stdlib Require Import ZArith Ascii String List Lia Bool.
From stdpp Require Import gmap strings list.

Local Open Scope Z_scope.
Local Set Warnings "-register-all,-clear-no-such-hyp".

(** ** Characters *)

Definition NUL : ascii := "000"%char.
Definition LF : ascii := "010"%char.
Definition CR : ascii := "013"%char.
Definition DQUOTE : ascii := "034"%char.
Definition SQUOTE : ascii := "039"%char.
Definition BACKSLASH : ascii := "092"%char.

Definition nl : string := String LF EmptyString.

(** [isspace] in the C locale. *)
Definition isspace (c : ascii) : bool :=
  match nat_of_ascii c with
  | 32%nat | 9%nat | 10%nat | 11%nat | 12%nat | 13%nat => true
  | _ => false
  end.

(** ** Escape tables ([reader.c], lines 57-146) *)

Module Escape.

Definition e_none : Z := 0.
Definition e_html : Z := 1.
Definition e_xml : Z := 2.
Definition e_latex : Z := 3.
Definition e_url : Z := 4.

(** [struct lt_escape_entity]; a NULL [escape] is [None]. *)
Record lt_escape_entity := Entity { ent_c : ascii; ent_escape : option string }.

Definition html_escape : list lt_escape_entity :=
  [ Entity "&" (Some "&amp;");
    Entity "<" (Some "&lt;");
    Entity ">" (Some "&gt;");
    Entity DQUOTE (Some "&#034;");
    Entity SQUOTE (Some "&#039;");
    Entity NUL None ].

Definition xml_escape : list lt_escape_entity :=
  [ Entity "&" (Some "&amp;");
    Entity "<" (Some "&lt;");
    Entity ">" (Some "&gt;");
    Entity DQUOTE (Some "&quot;");
    Entity SQUOTE (Some "&apos;");
    Entity NUL None ].

Definition latex_escape : list lt_escape_entity :=
  [ Entity "&" (Some "\&");
    Entity "$" (Some "\$");
    Entity BACKSLASH (Some "$\backslash$");
    Entity "_" (Some "\_");
    Entity "<" (Some "$<$");
    Entity ">" (Some "$>$");
    Entity "%" (Some "\%");
    Entity "#" (Some "\#");
    Entity "^" (Some "$^$");
    Entity NUL None ].

Definition url_escape : list lt_escape_entity :=
  [ Entity " " (Some "%20");
    Entity "<" (Some "%3C");
    Entity ">" (Some "%3E");
    Entity "#" (Some "%23");
    Entity "%" (Some "%25");
    Entity "{" (Some "%7B");
    Entity "}" (Some "%7D");
    Entity "|" (Some "%7C");
    Entity BACKSLASH (Some "%5C");
    Entity "^" (Some "%5E");
    Entity "~" (Some "%7E");
    Entity "[" (Some "%5B");
    Entity "]" (Some "%5D");
    Entity "`" (Some "%60");
    Entity ";" (Some "%3B");
    Entity "/" (Some "%2F");
    Entity "?" (Some "%3F");
    Entity ":" (Some "%3A");
    Entity "@" (Some "%40");
    Entity "=" (Some "%3D");
    Entity "&" (Some "%26");
    Entity "$" (Some "%24");
    Entity NUL None ].

(** The loop [for (; esc->escape != NULL; esc++) if (esc->c == c) break;]
    followed by [return esc->escape].  Every table ends with the sentinel,
    so the walk never leaves the array. *)
Fixpoint scan_table (esc : list lt_escape_entity) (c : ascii) : option string :=
  match esc with
  | [] => None
  | e :: rest =>
      match ent_escape e with
      | None => None
      | Some s => if Ascii.eqb (ent_c e) c then Some s else scan_table rest c
      end
  end.

Definition lt_escape (escape : Z) (c : ascii) : option string :=
  if escape =? e_html then scan_table html_escape c
  else if escape =? e_xml then scan_table xml_escape c
  else if escape =? e_url then scan_table url_escape c
  else if escape =? e_latex then scan_table latex_escape c
  else None.

(** *** The tables as the specification words them *)

Definition hex_digit (n : nat) : ascii :=
  if (n <? 10)%nat then ascii_of_nat (48 + n) else ascii_of_nat (55 + n).

(** [%XX]: a percent sign and the two upper-case hexadecimal digits of the
    character code. *)
Definition percent_XX (c : ascii) : string :=
  String "%" (String (hex_digit (nat_of_ascii c / 16))
             (String (hex_digit (nat_of_ascii c mod 16)) EmptyString)).

Definition url_reserved : string := "<>#%{}|\^~[]`;/?:@=&$".

Fixpoint mem_char (c : ascii) (s : string) : bool :=
  match s with
  | EmptyString => false
  | String d s' => Ascii.eqb c d || mem_char c s'
  end.

Definition spec_html (c : ascii) : option string :=
  if Ascii.eqb c "&" then Some "&amp;"
  else if Ascii.eqb c "<" then Some "&lt;"
  else if Ascii.eqb c ">" then Some "&gt;"
  else if Ascii.eqb c DQUOTE then Some "&#034;"
  else if Ascii.eqb c SQUOTE then Some "&#039;"
  else None.

Definition spec_xml (c : ascii) : option string :=
  if Ascii.eqb c DQUOTE then Some "&quot;"
  else if Ascii.eqb c SQUOTE then Some "&apos;"
  else spec_html c.

Definition spec_latex (c : ascii) : option string :=
  if Ascii.eqb c "&" then Some "\&"
  else if Ascii.eqb c "$" then Some "\$"
  else if Ascii.eqb c BACKSLASH then Some "$\backslash$"
  else if Ascii.eqb c "_" then Some "\_"
  else if Ascii.eqb c "<" then Some "$<$"
  else if Ascii.eqb c ">" then Some "$>$"
  else if Ascii.eqb c "%" then Some "\%"
  else if Ascii.eqb c "#" then Some "\#"
  else if Ascii.eqb c "^" then Some "$^$"
  else None.

Definition spec_url (c : ascii) : option string :=
  if Ascii.eqb c " " || mem_char c url_reserved then Some (percent_XX c) else None.

End Escape.

(** ** The directive scanner ([reader.c], lines 408-768) *)

Module Reader.
Import Escape.

Inductive lt_states :=
  | s_startup | s_initial | s_output | s_code
  | s_expression | s_instruction | s_terminate | s_error.

(** [MAXPATHLEN] comes from the system's [sys/param.h]; 4096 is its value on
    Linux, the platform of the makefile. *)
Definition MAXPATHLEN : Z := 4096.

(** *** Pointer primitives *)

(** [*p]: the text is NUL-terminated. *)
Definition deref (p : string) : ascii :=
  match p with EmptyString => NUL | String c _ => c end.

Definition at_end (p : string) : bool := Ascii.eqb (deref p) NUL.

(** [p += n], for the places where the code has checked that [n] characters
    are there. *)
Fixpoint advance (n : nat) (p : string) : string :=
  match n, p with
  | O, _ => p
  | S m, String _ p' => advance m p'
  | S _, EmptyString => EmptyString
  end.

(** [!strncmp(p, lit, strlen(lit))] for a literal without NUL. *)
Definition starts (lit p : string) : bool := String.prefix lit p.

(** [while (isspace(p[0])) p++;] *)
Fixpoint skip_spaces (p : string) : string :=
  match p with
  | EmptyString => EmptyString
  | String c p' => if isspace c then skip_spaces p' else p
  end.

(** [while (p[0] && strncmp(p, CLOSE, 2)) p++;], [CLOSE] being the two
    characters that end a directive. *)
Fixpoint find_close (p : string) : string :=
  match p with
  | EmptyString => EmptyString
  | String c p' =>
      if Ascii.eqb c NUL then p
      else if starts "%>" p then p
      else find_close p'
  end.

(** The quoted-name loop
    [while (p[0] && p[0] != DQUOTE && p[0] != SQUOTE && n < sizeof fnam)
       fnam[n++] = *p++;]
    The Boolean tells whether the loop ended with the array filled to its
    last byte, which leaves it without terminator. *)
Fixpoint scan_quoted (p : string) (n : Z) : string * string * bool :=
  match p with
  | EmptyString => (EmptyString, p, negb (n <? MAXPATHLEN))
  | String c p' =>
      if Ascii.eqb c NUL || Ascii.eqb c DQUOTE || Ascii.eqb c SQUOTE
         || negb (n <? MAXPATHLEN)
      then (EmptyString, p, negb (n <? MAXPATHLEN))
      else let '(nm, rest, full) := scan_quoted p' (n + 1) in
           (String c nm, rest, full)
  end.

(** The bare-name loop
    [while (p[0] && !isspace(p[0]) && !(p[0] == '%' && p[1] == '>')
        && n < sizeof fnam) fnam[n++] = *p++;] *)
Fixpoint scan_bare (p : string) (n : Z) : string * string * bool :=
  match p with
  | EmptyString => (EmptyString, p, negb (n <? MAXPATHLEN))
  | String c p' =>
      if Ascii.eqb c NUL || isspace c
         || (Ascii.eqb c "%" && Ascii.eqb (deref p') ">")
         || negb (n <? MAXPATHLEN)
      then (EmptyString, p, negb (n <? MAXPATHLEN))
      else let '(nm, rest, full) := scan_bare p' (n + 1) in
           (String c nm, rest, full)
  end.

(** The name argument of [include], [block] and [extends] (the same lines
    three times in the C code): white space, then a quoted or a bare name. *)
Definition read_name (p : string) : string * string * bool :=
  let p1 := skip_spaces p in
  if Ascii.eqb (deref p1) DQUOTE || Ascii.eqb (deref p1) SQUOTE
  then scan_quoted (advance 1 p1) 0
  else scan_bare p1 0.

(** [while (p[0] && !isspace(p[0])) buf_addchar(b, *p++);] *)
Fixpoint take_format (p : string) : string * string :=
  match p with
  | EmptyString => (EmptyString, p)
  | String c p' =>
      if Ascii.eqb c NUL || isspace c then (EmptyString, p)
      else let '(f, rest) := take_format p' in (String c f, rest)
  end.

(** *** The local variables of [reader] *)

Inductive which_buf := b_body | b_blocks.

Record reader_st := ReaderSt {
  r_p : string;
  r_state : lt_states;
  r_escape : Z;
  r_extends : bool;
  r_block : bool;
  r_output : bool;
  r_cb : nat;
  r_body : string;
  r_blocks : string;
  r_b : which_buf;
  r_includes : list string;
  (** the array [fnam]: [None] until a name has been written into it *)
  r_fnam : option string;
  (** set when the C code reads or writes out of bounds, or reads [fnam]
      before anything was written into it *)
  r_overrun : bool
}.

Definition set_p (v : string) (s : reader_st) : reader_st :=
  ReaderSt v (r_state s) (r_escape s) (r_extends s) (r_block s) (r_output s)
    (r_cb s) (r_body s) (r_blocks s) (r_b s) (r_includes s) (r_fnam s) (r_overrun s).
Definition set_state (v : lt_states) (s : reader_st) : reader_st :=
  ReaderSt (r_p s) v (r_escape s) (r_extends s) (r_block s) (r_output s)
    (r_cb s) (r_body s) (r_blocks s) (r_b s) (r_includes s) (r_fnam s) (r_overrun s).
Definition set_escape (v : Z) (s : reader_st) : reader_st :=
  ReaderSt (r_p s) (r_state s) v (r_extends s) (r_block s) (r_output s)
    (r_cb s) (r_body s) (r_blocks s) (r_b s) (r_includes s) (r_fnam s) (r_overrun s).
Definition set_extends (v : bool) (s : reader_st) : reader_st :=
  ReaderSt (r_p s) (r_state s) (r_escape s) v (r_block s) (r_output s)
    (r_cb s) (r_body s) (r_blocks s) (r_b s) (r_includes s) (r_fnam s) (r_overrun s).
Definition set_block (v : bool) (s : reader_st) : reader_st :=
  ReaderSt (r_p s) (r_state s) (r_escape s) (r_extends s) v (r_output s)
    (r_cb s) (r_body s) (r_blocks s) (r_b s) (r_includes s) (r_fnam s) (r_overrun s).
Definition set_output (v : bool) (s : reader_st) : reader_st :=
  ReaderSt (r_p s) (r_state s) (r_escape s) (r_extends s) (r_block s) v
    (r_cb s) (r_body s) (r_blocks s) (r_b s) (r_includes s) (r_fnam s) (r_overrun s).
Definition set_cb (v : nat) (s : reader_st) : reader_st :=
  ReaderSt (r_p s) (r_state s) (r_escape s) (r_extends s) (r_block s) (r_output s)
    v (r_body s) (r_blocks s) (r_b s) (r_includes s) (r_fnam s) (r_overrun s).
Definition set_body (v : string) (s : reader_st) : reader_st :=
  ReaderSt (r_p s) (r_state s) (r_escape s) (r_extends s) (r_block s) (r_output s)
    (r_cb s) v (r_blocks s) (r_b s) (r_includes s) (r_fnam s) (r_overrun s).
Definition set_blocks (v : string) (s : reader_st) : reader_st :=
  ReaderSt (r_p s) (r_state s) (r_escape s) (r_extends s) (r_block s) (r_output s)
    (r_cb s) (r_body s) v (r_b s) (r_includes s) (r_fnam s) (r_overrun s).
Definition set_b (v : which_buf) (s : reader_st) : reader_st :=
  ReaderSt (r_p s) (r_state s) (r_escape s) (r_extends s) (r_block s) (r_output s)
    (r_cb s) (r_body s) (r_blocks s) v (r_includes s) (r_fnam s) (r_overrun s).
Definition set_includes (v : list string) (s : reader_st) : reader_st :=
  ReaderSt (r_p s) (r_state s) (r_escape s) (r_extends s) (r_block s) (r_output s)
    (r_cb s) (r_body s) (r_blocks s) (r_b s) v (r_fnam s) (r_overrun s).
Definition set_fnam (v : string) (s : reader_st) : reader_st :=
  ReaderSt (r_p s) (r_state s) (r_escape s) (r_extends s) (r_block s) (r_output s)
    (r_cb s) (r_body s) (r_blocks s) (r_b s) (r_includes s) (Some v) (r_overrun s).
Definition set_overrun (v : bool) (s : reader_st) : reader_st :=
  ReaderSt (r_p s) (r_state s) (r_escape s) (r_extends s) (r_block s) (r_output s)
    (r_cb s) (r_body s) (r_blocks s) (r_b s) (r_includes s) (r_fnam s) v.

(** Modelled from the spec: [buffer.h] ([buf_init], [buf_addstring],
    [buf_addchar], [buf_push]) is not among the sources; the scanner
    produces two code buffers that are streamed into, so [buf_addstring(b, s)]
    and [buf_addchar(b, c)] append to the buffer [b] points to. *)
Definition buf_addstring (s : string) (st : reader_st) : reader_st :=
  match r_b st with
  | b_body => set_body (r_body st +:+ s) st
  | b_blocks => set_blocks (r_blocks st +:+ s) st
  end.

Definition buf_addchar (c : ascii) (st : reader_st) : reader_st :=
  buf_addstring (String c EmptyString) st.

(** [buf_addchar(b, *p++)].  In [case s_code], reached by falling through
    from [case s_output], [*p] can be the terminator: the pointer then
    leaves the text. *)
Definition copy_char (st : reader_st) : reader_st :=
  let st1 := buf_addchar (deref (r_p st)) st in
  match r_p st with
  | EmptyString => set_overrun true st1
  | String _ p' => set_p p' st1
  end.

(** [SLIST_FOREACH(include, includes, next) if (!strcmp(...)) exists = 1],
    then [SLIST_INSERT_HEAD] when the name is new. *)
Definition record_include (name : string) (st : reader_st) : reader_st :=
  if bool_decide (name ∈ r_includes st) then st
  else set_includes (name :: r_includes st) st.

(** The string in [fnam], and the state after reading the array: it is a
    local array without initialiser, so a read before the first name has
    been written into it is a read of indeterminate bytes. *)
Definition fnam_of (st : reader_st) : string :=
  match r_fnam st with Some nm => nm | None => EmptyString end.

Definition read_fnam (st : reader_st) : reader_st :=
  match r_fnam st with Some _ => st | None => set_overrun true st end.

(** [bzero(fnam, ...); n = 0; p += k;] and the name loops. *)
Definition parse_name (k : nat) (st : reader_st) : reader_st :=
  let '(nm, rest, full) := read_name (advance k (r_p st)) in
  let st1 := set_p rest (set_fnam nm st) in
  if full then set_overrun true st1 else st1.

(** *** One pass through the [switch] *)

(** [case s_initial], up to its fall-through. *)
Definition step_initial (st : reader_st) : reader_st :=
  let st1 :=
    if negb (starts "<%" (r_p st))
       && (negb (r_extends st) || (r_extends st && r_block st))
    then set_output true (buf_addstring "print([[" st)
    else st in
  set_state s_output st1.

(** [case s_code]. *)
Definition step_code (st : reader_st) : reader_st :=
  if negb (starts "%>" (r_p st)) then copy_char st
  else set_p (advance 2 (r_p st)) (set_state s_initial (buf_addstring nl st)).

(** [case s_expression]: at the closing delimiter the pending [cb]
    parentheses are closed. *)
Fixpoint close_braces (cb : nat) (st : reader_st) : reader_st :=
  match cb with
  | O => st
  | S n => close_braces n (buf_addchar ")" st)
  end.

Definition step_expression (st : reader_st) : reader_st :=
  if negb (starts "%>" (r_p st)) then copy_char st
  else
    let st1 := set_state s_initial st in
    let st2 := set_cb 0 (close_braces (r_cb st1) st1) in
    set_p (advance 2 (r_p st)) (buf_addstring (")" +:+ nl) st2).

(** The optional mode tag right after [=]. *)
Definition mode_tag (p : string) (escape : Z) : string * Z :=
  if starts "html" p then (advance 4 p, e_html)
  else if starts "xml" p then (advance 3 p, e_xml)
  else if starts "latex" p then (advance 5 p, e_latex)
  else if starts "url" p then (advance 3 p, e_url)
  else if starts "none" p then (advance 4 p, e_none)
  else (p, escape).

(** [switch (escape_temp)]: the opening of the print call. *)
Definition open_print (escape_temp : Z) (st : reader_st) : reader_st :=
  if escape_temp =? e_html then
    set_cb (r_cb st + 1) (buf_addstring "print(escape_html(" st)
  else if escape_temp =? e_xml then
    set_cb (r_cb st + 1) (buf_addstring "print(escape_xml(" st)
  else if escape_temp =? e_url then
    set_cb (r_cb st + 1) (buf_addstring "print(escape_url(" st)
  else if escape_temp =? e_latex then
    set_cb (r_cb st + 1) (buf_addstring "print(escape_latex(" st)
  else buf_addstring "print(" st.

(** [case s_output], with its fall-through into [case s_code]. *)
Definition step_output (st : reader_st) : reader_st :=
  if negb (starts "<%" (r_p st)) then copy_char st
  else
    let st1 :=
      if r_output st then set_output false (buf_addstring ("]])" +:+ nl) st)
      else st in
    let p1 := advance 2 (r_p st) in
    if Ascii.eqb (deref p1) "=" then
      let '(p2, escape_temp) := mode_tag (advance 1 p1) (r_escape st1) in
      let st2 := open_print escape_temp (set_state s_expression st1) in
      let '(st3, p3) :=
        if Ascii.eqb (deref p2) "%" then
          let '(f, rest) := take_format p2 in
          let s := buf_addstring ("string.format([[" +:+ f +:+ "]], ") st2 in
          (set_cb (r_cb s + 1) s, rest)
        else (st2, p2) in
      set_p (skip_spaces p3) st3
    else if Ascii.eqb (deref p1) "!" then
      set_p (skip_spaces (advance 1 p1)) (set_state s_instruction st1)
    else
      step_code (set_p (skip_spaces p1) (set_state s_code st1)).

(** [case s_instruction]. *)
Definition step_instruction (template : string) (st : reader_st) : reader_st :=
  let p := r_p st in
  let st1 :=
    if starts "include" p then
      let s1 := parse_name 7 st in
      let s2 := buf_addstring
                  ("render_template(_ENV, '" +:+ fnam_of s1 +:+ "')" +:+ nl) s1 in
      record_include (fnam_of s1) s2
    else if starts "escape" p then
      let p1 := skip_spaces (advance 6 p) in
      if starts "none" p1 then set_p (advance 4 p1) (set_escape e_none st)
      else if starts "html" p1 then set_p (advance 4 p1) (set_escape e_html st)
      else if starts "latex" p1 then set_p (advance 5 p1) (set_escape e_latex st)
      else if starts "url" p1 then set_p (advance 3 p1) (set_escape e_url st)
      else set_p p1 st
    else if starts "block" p then
      let s1 := set_b b_blocks (parse_name 5 st) in
      let s2 :=
        if negb (r_extends s1) then
          buf_addstring ("if template['" +:+ template +:+ "'].blk['"
                         +:+ fnam_of s1 +:+ "'] == nil then" +:+ nl) s1
        else s1 in
      let s3 := buf_addstring ("template['" +:+ template +:+ "'].blk['"
                               +:+ fnam_of s2 +:+ "'] = function (_ENV)" +:+ nl) s2 in
      set_block true s3
    else if starts "endblock" p then
      let s1 := set_p (advance 8 p) st in
      let s2 := if negb (r_extends s1) then buf_addstring ("end" +:+ nl) s1 else s1 in
      let s3 := set_b b_body (buf_addstring ("end" +:+ nl) s2) in
      let s4 :=
        if negb (r_extends s3) then
          buf_addstring ("render_block(_ENV, _t, '" +:+ fnam_of s3 +:+ "')" +:+ nl)
            (read_fnam s3)
        else s3 in
      set_block false s4
    else if starts "extends" p then
      let s1 := if negb (r_extends st) then buf_addstring ("end" +:+ nl) st else st in
      let s2 := parse_name 7 s1 in
      let s3 := buf_addstring ("template['" +:+ template +:+ "'].main = nil" +:+ nl) s2 in
      let s4 := buf_addstring ("template['" +:+ template +:+ "'].extends = '"
                               +:+ fnam_of s3 +:+ "'" +:+ nl) s3 in
      record_include (fnam_of s4) (set_extends true s4)
    else st in
  let p2 := find_close (r_p st1) in
  let p3 := if at_end p2 then p2 else advance 2 p2 in
  set_state s_initial (set_p p3 st1).

(** The body of [while ( *p ) { switch (state) ... }].  The states without a
    [case] leave everything as it is. *)
Definition reader_step (template : string) (st : reader_st) : reader_st :=
  match r_state st with
  | s_initial => step_output (step_initial st)
  | s_output => step_output st
  | s_code => step_code st
  | s_expression => step_expression st
  | s_instruction => step_instruction template st
  | _ => st
  end.

(** The loop; every pass consumes input, so [fuel] above the length of the
    text is never used up (lemma [reader_loop_total] below). *)
Fixpoint reader_loop (fuel : nat) (template : string) (st : reader_st)
  : option reader_st :=
  match fuel with
  | O => None
  | S fuel' =>
      if at_end (r_p st) then Some st
      else reader_loop fuel' template (reader_step template st)
  end.

(** The lines after the loop: close the pending literal and the main
    routine, and set [state] to [s_terminate] or [s_error].  Nothing reads
    [state] afterwards: [reader] ends without a [return]. *)
Definition reader_finish (st : reader_st) : reader_st :=
  if at_end (r_p st) then
    let st1 :=
      match r_state st with
      | s_output =>
          if negb (r_extends st) then buf_addstring ("]])" +:+ nl) st else st
      | _ => st
      end in
    let st2 :=
      match r_state st1 with
      | s_output | s_initial => set_state s_terminate st1
      | _ => set_state s_error st1
      end in
    if negb (r_extends st2) then buf_addstring ("end" +:+ nl) st2 else st2
  else st.

Definition reader_init (p template : string) : reader_st :=
  {| r_p := p;
     r_state := s_initial;
     r_escape := e_none;
     r_extends := false;
     r_block := false;
     r_output := false;
     r_cb := 0;
     r_body := "_ENV = ..." +:+ nl +:+ "template['" +:+ template
               +:+ "'] = { blk = {} }" +:+ nl +:+ "template['" +:+ template
               +:+ "'].main = function(_ENV, _t)" +:+ nl;
     r_blocks := "_ENV = ..." +:+ nl;
     r_b := b_body;
     r_includes := [];
     r_fnam := None;
     r_overrun := false |}.

(** [reader(L, p, s, includes, template, print)]: the two buffers it pushes
    ([r_blocks] first, [r_body] on top), the include list and, for reference,
    the final value of its local [state]. *)
Definition reader (p template : string) : option reader_st :=
  reader_finish <$> reader_loop (S (String.length p)) template (reader_init p template).

End Reader.

(** ** The execution engine

    [process_file] hands the two buffers to [luaL_loadbuffer] and [lua_pcall].
    Lua is not part of the repository.  This module is a model of it for the
    statements the generator emits: calls whose arguments are long-bracket
    strings, quoted strings, names and calls, and the fixed assignments to the
    [template] table.  On any other text the model gives [PUnknown]: it says
    nothing about what Lua does there.

    [process_file] and [render_file] below take the loader as an argument
    [ld]; what is proved of them for every [ld] holds whatever Lua makes of
    the generated text.  [load] is the loader of this module, used where a
    chunk is followed through. *)

Module Lua.
Import Reader.

Inductive expr :=
  | ELong (s : string)
  | EStr (s : string)
  | EName (x : string)
  | ECall (f : string) (args : list expr).

(** A statement of a routine body: a call, or any other statement, which the
    model holds as text and does not follow. *)
Inductive stmt :=
  | SCall (f : string) (args : list expr)
  | SRaw (code : string).

(** A statement of a chunk.  [n] is the key into [template].  The guard
    [if template[n].blk[b] == nil then ... end] holds one block definition,
    which is how the generator emits it. *)
Inductive cstmt :=
  | CNew (n : string)
  | CMain (n : string) (body : list stmt)
  | CMainNil (n : string)
  | CExtends (n p : string)
  | CBlock (n b : string) (body : list stmt)
  | CIfNoBlock (n b : string) (n' b' : string) (body : list stmt).

Inductive parse (A : Type) :=
  | POk (a : A) (rest : string)
  | PSyntax
  | PUnknown.
Arguments POk {A} a rest.
Arguments PSyntax {A}.
Arguments PUnknown {A}.

Definition pbind {A B} (m : parse A) (k : A -> string -> parse B) : parse B :=
  match m with
  | POk a rest => k a rest
  | PSyntax => PSyntax
  | PUnknown => PUnknown
  end.

(** *** Lexical level *)

Definition is_digit (c : ascii) : bool :=
  let n := nat_of_ascii c in (48 <=? n)%nat && (n <=? 57)%nat.

Definition is_name_start (c : ascii) : bool :=
  let n := nat_of_ascii c in
  ((65 <=? n)%nat && (n <=? 90)%nat) || ((97 <=? n)%nat && (n <=? 122)%nat)
  || Ascii.eqb c "_".

Definition is_name_char (c : ascii) : bool := is_name_start c || is_digit c.

Definition keywords : list string :=
  [ "and"; "break"; "do"; "else"; "elseif"; "end"; "false"; "for";
    "function"; "goto"; "if"; "in"; "local"; "nil"; "not"; "or"; "repeat";
    "return"; "then"; "true"; "until"; "while" ].

Definition is_keyword (x : string) : bool := bool_decide (x ∈ keywords).

Fixpoint read_ident (s : string) : string * string :=
  match s with
  | EmptyString => (EmptyString, s)
  | String c s' =>
      if is_name_char c then let '(x, rest) := read_ident s' in (String c x, rest)
      else (EmptyString, s)
  end.

(** [strip lit s]: the text after the literal [lit], when [s] starts with it. *)
Fixpoint strip (lit s : string) : option string :=
  match lit, s with
  | EmptyString, _ => Some s
  | String a lit', String b s' => if Ascii.eqb a b then strip lit' s' else None
  | String _ _, EmptyString => None
  end.

(** A word literal ([nil], [then]) must not run into a longer name. *)
Definition strip_word (lit s : string) : option string :=
  match strip lit s with
  | Some rest => if is_name_char (deref rest) then None else Some rest
  | None => None
  end.

(** The text of a long-bracket string after its opening brackets: up to the
    first pair of closing brackets, every line break read as one LF
    ([pending] is the second character of a two-character line break). *)
Fixpoint long_body (pending : option ascii) (s : string) : option (string * string) :=
  match s with
  | EmptyString => None
  | String c s' =>
      let normal :=
        if Ascii.eqb c "]" && Ascii.eqb (deref s') "]" then
          Some (EmptyString, advance 1 s')
        else if Ascii.eqb c LF then
          match long_body (Some CR) s' with
          | Some (t, rest) => Some (String LF t, rest)
          | None => None
          end
        else if Ascii.eqb c CR then
          match long_body (Some LF) s' with
          | Some (t, rest) => Some (String LF t, rest)
          | None => None
          end
        else
          match long_body None s' with
          | Some (t, rest) => Some (String c t, rest)
          | None => None
          end in
      match pending with
      | Some d => if Ascii.eqb c d then long_body None s' else normal
      | None => normal
      end
  end.

(** A long string: a line break right after the opening brackets is not part
    of it. *)
Definition long_string (s : string) : option (string * string) :=
  match s with
  | String c s' =>
      if Ascii.eqb c LF then long_body (Some CR) s'
      else if Ascii.eqb c CR then long_body (Some LF) s'
      else long_body None s
  | EmptyString => None
  end.

(** The text of a quoted string after its opening quote.  Escapes and line
    breaks are outside the model. *)
Fixpoint quoted (s : string) : option (string * string) :=
  match s with
  | EmptyString => None
  | String c s' =>
      if Ascii.eqb c SQUOTE then Some (EmptyString, s')
      else if Ascii.eqb c BACKSLASH || Ascii.eqb c LF || Ascii.eqb c CR then None
      else match quoted s' with
           | Some (t, rest) => Some (String c t, rest)
           | None => None
           end
  end.

Definition of_option {A} (o : option (A * string)) : parse A :=
  match o with Some (a, rest) => POk a rest | None => PUnknown end.

(** *** Expressions and argument lists *)

Fixpoint parse_expr (fuel : nat) (s : string) : parse expr :=
  match fuel with
  | O => PUnknown
  | S fuel' =>
      let s := skip_spaces s in
      match strip "[[" s with
      | Some s1 => pbind (of_option (long_string s1)) (fun t rest => POk (ELong t) rest)
      | None =>
          if Ascii.eqb (deref s) SQUOTE then
            pbind (of_option (quoted (advance 1 s))) (fun t rest => POk (EStr t) rest)
          else if is_name_start (deref s) then
            let '(x, rest) := read_ident s in
            if is_keyword x then PUnknown
            else
              let r := skip_spaces rest in
              if Ascii.eqb (deref r) "(" then
                pbind (parse_args fuel' (advance 1 r))
                      (fun args rest' => POk (ECall x args) rest')
              else POk (EName x) rest
          else PUnknown
      end
  end
(** after the opening parenthesis *)
with parse_args (fuel : nat) (s : string) : parse (list expr) :=
  match fuel with
  | O => PUnknown
  | S fuel' =>
      let s := skip_spaces s in
      if Ascii.eqb (deref s) ")" then POk [] (advance 1 s)
      else pbind (parse_expr fuel' s)
                 (fun e rest => pbind (parse_more fuel' rest)
                                      (fun es rest' => POk (e :: es) rest'))
  end
(** after an argument: a comma, the closing parenthesis, or, definitely an
    error, a second name *)
with parse_more (fuel : nat) (s : string) : parse (list expr) :=
  match fuel with
  | O => PUnknown
  | S fuel' =>
      let s := skip_spaces s in
      if Ascii.eqb (deref s) ")" then POk [] (advance 1 s)
      else if Ascii.eqb (deref s) "," then
        pbind (parse_expr fuel' (advance 1 s))
              (fun e rest => pbind (parse_more fuel' rest)
                                   (fun es rest' => POk (e :: es) rest'))
      else if is_name_start (deref s) then
        if is_keyword (fst (read_ident s)) then PUnknown else PSyntax
      else PUnknown
  end.

(** *** Routine bodies: call statements up to the closing [end] *)

Fixpoint parse_body (fuel : nat) (s : string) : parse (list stmt) :=
  match fuel with
  | O => PUnknown
  | S fuel' =>
      let s := skip_spaces s in
      if is_name_start (deref s) then
        let '(x, rest) := read_ident s in
        if String.eqb x "end" then POk [] rest
        else if is_keyword x then PUnknown
        else
          let r := skip_spaces rest in
          if Ascii.eqb (deref r) "(" then
            pbind (parse_args fuel (advance 1 r))
                  (fun args rest1 =>
                     pbind (parse_body fuel' rest1)
                           (fun body rest2 => POk (SCall x args :: body) rest2))
          else PUnknown
      else PUnknown
  end.

(** *** Chunks *)

Definition expect {A} (lit : string) (s : string) (k : string -> parse A) : parse A :=
  match strip lit s with Some rest => k rest | None => PUnknown end.

(** The statements that begin with [template['n']]. *)
Definition parse_template_stmt (fuel : nat) (s : string) : parse cstmt :=
  pbind (of_option (quoted s)) (fun n r =>
    match strip "] = { blk = {} }" r with
    | Some r1 => POk (CNew n) r1
    | None =>
    match strip "].main = function(_ENV, _t)" r with
    | Some r1 => pbind (parse_body fuel r1) (fun body r2 => POk (CMain n body) r2)
    | None =>
    match strip_word "].main = nil" r with
    | Some r1 => POk (CMainNil n) r1
    | None =>
    match strip "].extends = '" r with
    | Some r1 => pbind (of_option (quoted r1)) (fun p r2 => POk (CExtends n p) r2)
    | None =>
    match strip "].blk['" r with
    | Some r1 =>
        pbind (of_option (quoted r1)) (fun b r2 =>
          expect "] = function (_ENV)" r2 (fun r3 =>
            pbind (parse_body fuel r3) (fun body r4 => POk (CBlock n b body) r4)))
    | None => PUnknown
    end end end end end).

(** The guarded block definition, after [if template[']. *)
Definition parse_guard (fuel : nat) (s : string) : parse cstmt :=
  pbind (of_option (quoted s)) (fun n r1 =>
    expect "].blk['" r1 (fun r2 =>
      pbind (of_option (quoted r2)) (fun b r3 =>
        match strip_word "] == nil then" r3 with
        | None => PUnknown
        | Some r4 =>
            expect "template['" (skip_spaces r4) (fun r5 =>
              pbind (of_option (quoted r5)) (fun n' r6 =>
                expect "].blk['" r6 (fun r7 =>
                  pbind (of_option (quoted r7)) (fun b' r8 =>
                    expect "] = function (_ENV)" r8 (fun r9 =>
                      pbind (parse_body fuel r9) (fun body r10 =>
                        match strip_word "end" (skip_spaces r10) with
                        | Some r11 => POk (CIfNoBlock n b n' b' body) r11
                        | None => PUnknown
                        end))))))
        end))).

(** The statements of a chunk, up to the end of the text. *)
Fixpoint parse_cstmts (fuel : nat) (s : string) : parse (list cstmt) :=
  match fuel with
  | O => PUnknown
  | S fuel' =>
      let s := skip_spaces s in
      match s with
      | EmptyString => POk [] EmptyString
      | _ =>
        match strip "template['" s with
        | Some r =>
            pbind (parse_template_stmt fuel r) (fun c r1 =>
              pbind (parse_cstmts fuel' r1) (fun cs r2 => POk (c :: cs) r2))
        | None =>
        match strip "if template['" s with
        | Some r =>
            pbind (parse_guard fuel r) (fun c r1 =>
              pbind (parse_cstmts fuel' r1) (fun cs r2 => POk (c :: cs) r2))
        | None => PUnknown
        end end
      end
  end.

Inductive load_result :=
  | Loaded (c : list cstmt)
  | LoadSyntaxError
  | LoadUnknown.

(** [luaL_loadbuffer] on the statements above: every generated chunk begins
    by rebinding [_ENV] to its argument. *)
Definition load (code : string) : load_result :=
  match strip "_ENV = ..." code with
  | Some rest =>
      match parse_cstmts (S (String.length code)) rest with
      | POk c _ => Loaded c
      | PSyntax => LoadSyntaxError
      | PUnknown => LoadUnknown
      end
  | None => LoadUnknown
  end.

End Lua.

(** ** The template registry and the routines stored in it *)

Module Registry.
Import Reader Lua.

(** An entry of the [template] table: [{ blk = {}, main = ..., extends = ...,
    mtime = ... }].  A routine is the body of the compiled function. *)
Record template := Template {
  mtime : option Z;
  main : option (list stmt);
  blk : gmap string (list stmt);
  extends : option string
}.

Definition new_template : template := Template None None ∅ None.
Definition with_mtime (m : option Z) (t : template) : template :=
  Template m (main t) (blk t) (extends t).
Definition with_main (m : option (list stmt)) (t : template) : template :=
  Template (mtime t) m (blk t) (extends t).
Definition with_blk (b : string) (body : list stmt) (t : template) : template :=
  Template (mtime t) (main t) (<[b := body]> (blk t)) (extends t).
Definition with_extends (p : string) (t : template) : template :=
  Template (mtime t) (main t) (blk t) (Some p).

(** *** Running a chunk: [lua_pcall] of a loaded buffer on the container

    The Boolean is [false] when the chunk raised an error (indexing an entry
    that is not there); the statements before it have taken effect. *)
Definition exec_cstmt (c : cstmt) (reg : gmap string template)
  : gmap string template * bool :=
  match c with
  | CNew n => (<[n := new_template]> reg, true)
  | CMain n body =>
      match reg !! n with
      | Some t => (<[n := with_main (Some body) t]> reg, true)
      | None => (reg, false)
      end
  | CMainNil n =>
      match reg !! n with
      | Some t => (<[n := with_main None t]> reg, true)
      | None => (reg, false)
      end
  | CExtends n p =>
      match reg !! n with
      | Some t => (<[n := with_extends p t]> reg, true)
      | None => (reg, false)
      end
  | CBlock n b body =>
      match reg !! n with
      | Some t => (<[n := with_blk b body t]> reg, true)
      | None => (reg, false)
      end
  | CIfNoBlock n b n' b' body =>
      match reg !! n with
      | Some t =>
          match blk t !! b with
          | Some _ => (reg, true)
          | None =>
              match reg !! n' with
              | Some t' => (<[n' := with_blk b' body t']> reg, true)
              | None => (reg, false)
              end
          end
      | None => (reg, false)
      end
  end.

Fixpoint exec_chunk (cs : list cstmt) (reg : gmap string template)
  : gmap string template * bool :=
  match cs with
  | [] => (reg, true)
  | c :: cs' =>
      match exec_cstmt c reg with
      | (reg', true) => exec_chunk cs' reg'
      | failed => failed
      end
  end.

(** *** Values and the render environment *)

(** The values a routine of the fragment can meet: strings of the host's
    data, the environment table itself, and the helpers that
    [render_template] installs ([VPrint] is the container's [print]). *)
Inductive value :=
  | VNil
  | VStr (s : string)
  | VEnv
  | VPrint
  | VString
  | VRenderBlock
  | VRenderTemplate.

(** The output sink: [io.write], or the function the host passed. *)
Inductive sink := io_write | host_sink.

Inductive lua_error :=
  | CallNil (name : string)
  | CallNonFunction (name : string)
  | IndexNil
  | BadArgument.

Inductive outcome :=
  | Done
  | RuntimeError (e : lua_error)
  | OutOfFuel
  | Unmodelled.

(** The environment is one table, shared by every routine of a render; [out]
    lists what the sink has received. *)
Record rstate := RState { env : gmap string value; out : list value }.

(** A name in a routine: the parameters [_ENV] and [_t] ([t] is [None] in a
    block routine, which has no [_t]), else a field of the environment. *)
Definition lookup_name (t : option value) (e : gmap string value) (x : string) : value :=
  if String.eqb x "_ENV" then VEnv
  else match t with
       | Some v => if String.eqb x "_t" then v else default VNil (e !! x)
       | None => default VNil (e !! x)
       end.

Fixpoint eval (t : option value) (e : gmap string value) (x : expr)
  : value + outcome :=
  match x with
  | ELong s => inl (VStr s)
  | EStr s => inl (VStr s)
  | EName n => inl (lookup_name t e n)
  | ECall f args =>
      let fix eval_list (xs : list expr) : list value + outcome :=
        match xs with
        | [] => inl []
        | x :: xs' =>
            match eval t e x with
            | inl v => match eval_list xs' with
                       | inl vs => inl (v :: vs)
                       | inr o => inr o
                       end
            | inr o => inr o
            end
        end in
      match eval_list args with
      | inr o => inr o
      | inl _ =>
          match lookup_name t e f with
          | VNil => inr (RuntimeError (CallNil f))
          | VStr _ | VEnv | VString => inr (RuntimeError (CallNonFunction f))
          | VPrint | VRenderBlock | VRenderTemplate => inr Unmodelled
          end
      end
  end.

Fixpoint eval_args (t : option value) (e : gmap string value) (xs : list expr)
  : list value + outcome :=
  match xs with
  | [] => inl []
  | x :: xs' =>
      match eval t e x with
      | inl v => match eval_args t e xs' with
                 | inl vs => inl (v :: vs)
                 | inr o => inr o
                 end
      | inr o => inr o
      end
  end.

Definition is_str (v : value) : bool :=
  match v with VStr _ => true | _ => false end.

(** A call of the container's [print]. *)
Definition do_print (sk : sink) (vs : list value) (st : rstate) : rstate * outcome :=
  match sk with
  | io_write =>
      if forallb is_str vs then (RState (env st) (out st ++ vs), Done)
      else (st, RuntimeError BadArgument)
  | host_sink =>
      match vs with
      | [v] => (RState (env st) (out st ++ [v]), Done)
      | _ => (st, Unmodelled)
      end
  end.

Inductive walk (A : Type) :=
  | WFound (a : A)
  | WNone
  | WIndexNil
  | WFuel.
Arguments WFound {A} a.
Arguments WNone {A}.
Arguments WIndexNil {A}.
Arguments WFuel {A}.

(** *** [render_block] ([luatemplate.c], lines 112-119)
<<
	local env, t, b = ...
	while t ~= nil and template[t].blk[b] == nil do
		t = template[t].extends
	end
	if t ~= nil and template[t].blk[b] ~= nil then
		template[t].blk[b](env)
	end
>>
*)
Definition blk_lookup (t : template) (b : value) : option (list stmt) :=
  match b with VStr k => blk t !! k | _ => None end.

Fixpoint block_walk (fuel : nat) (reg : gmap string template)
    (t : string) (b : value) : walk (list stmt) :=
  match reg !! t with
  | None => WIndexNil
  | Some tpl =>
      match blk_lookup tpl b with
      | Some body => WFound body
      | None =>
          match extends tpl with
          | None => WNone
          | Some p =>
              match fuel with
              | O => WFuel
              | S fuel' => block_walk fuel' reg p b
              end
          end
      end
  end.

Section Dispatch.
(** [call body t st] runs a routine: with [_t] bound to [v] when [t] is
    [Some v] (a main routine), without [_t] when it is [None] (a block). *)
Variable call : list stmt -> option value -> rstate -> rstate * outcome.
Variable fuel : nat.
Variable reg : gmap string template.
Variable sk : sink.

Definition render_block (e t b : value) (st : rstate) : rstate * outcome :=
  match t with
  | VNil => (st, Done)
  | VStr n =>
      match block_walk fuel reg n b with
      | WFound body =>
          match e with
          | VEnv => call body None st
          | _ => (st, Unmodelled)
          end
      | WNone => (st, Done)
      | WIndexNil => (st, RuntimeError IndexNil)
      | WFuel => (st, OutOfFuel)
      end
  | _ => (st, RuntimeError IndexNil)
  end.

(** *** [render_template] ([luatemplate.c], lines 121-132)
<<
	local env, n = ...
	local tn = n

	while template[n].extends ~= nil do
		n = template[n].extends
	end
	env.print = print
	env.string = string
	env.render_block = render_block
	env.render_template = render_template
	template[n].main(env, tn)
>>
*)
Fixpoint root_walk (k : nat) (n : string) : walk string :=
  match reg !! n with
  | None => WIndexNil
  | Some tpl =>
      match extends tpl with
      | None => WFound n
      | Some p =>
          match k with
          | O => WFuel
          | S k' => root_walk k' p
          end
      end
  end.

Definition install_helpers (e : gmap string value) : gmap string value :=
  <["render_template" := VRenderTemplate]>
    (<["render_block" := VRenderBlock]>
       (<["string" := VString]> (<["print" := VPrint]> e))).

Definition render_template (e n : value) (st : rstate) : rstate * outcome :=
  match n with
  | VStr tn =>
      match root_walk fuel tn with
      | WFound root =>
          match e with
          | VEnv =>
              let st1 := RState (install_helpers (env st)) (out st) in
              match reg !! root ≫= main with
              | Some body => call body (Some (VStr tn)) st1
              | None => (st1, RuntimeError (CallNil "main"))
              end
          | VString => (st, Unmodelled)
          | _ => (st, RuntimeError IndexNil)
          end
      | WNone => (st, Done)
      | WIndexNil => (st, RuntimeError IndexNil)
      | WFuel => (st, OutOfFuel)
      end
  | _ => (st, RuntimeError IndexNil)
  end.

(** A statement of a routine. *)
Definition exec_stmt (t : option value) (s : stmt) (st : rstate) : rstate * outcome :=
  match s with
  | SRaw _ => (st, Unmodelled)
  | SCall f args =>
      match eval_args t (env st) args with
      | inr o => (st, o)
      | inl vs =>
          match lookup_name t (env st) f with
          | VPrint => do_print sk vs st
          | VRenderBlock =>
              render_block (nth 0 vs VNil) (nth 1 vs VNil) (nth 2 vs VNil) st
          | VRenderTemplate => render_template (nth 0 vs VNil) (nth 1 vs VNil) st
          | VNil => (st, RuntimeError (CallNil f))
          | VStr _ | VEnv | VString => (st, RuntimeError (CallNonFunction f))
          end
      end
  end.

Fixpoint exec_body (t : option value) (body : list stmt) (st : rstate)
  : rstate * outcome :=
  match body with
  | [] => (st, Done)
  | s :: rest =>
      match exec_stmt t s st with
      | (st', Done) => exec_body t rest st'
      | stopped => stopped
      end
  end.
End Dispatch.

(** Calling a routine; [fuel] bounds the nesting of calls and the length of
    the walks along [extends]. *)
Fixpoint invoke (fuel : nat) (reg : gmap string template) (sk : sink)
    (body : list stmt) (t : option value) (st : rstate) : rstate * outcome :=
  match fuel with
  | O => (st, OutOfFuel)
  | S fuel' => exec_body (invoke fuel' reg sk) fuel' reg sk t body st
  end.

End Registry.

(** ** The orchestrator and the render context *)

Module Context.
Import Reader Lua Registry.

(** *** Files: what [stat], [open] and [mmap] see *)

Record file := File { st_mtime : Z; readable : bool; contents : string }.

(** [stat] of [custom/fnam], then of [fnam] (names are taken to fit
    [PATH_MAX]). *)
Definition resolve (fs : gmap string file) (fnam : string) : option file :=
  match fs !! ("custom/" +:+ fnam) with
  | Some f => Some f
  | None => fs !! fnam
  end.

(** *** [process_file] ([reader.c], lines 264-406)

    The file is mapped with [mmap] and read as a C string: a mapping of
    length 0 is refused ([can't mmap]), and the text ends at its first NUL.
    The mapping holds [st_size] bytes and no terminator of its own: [mmap]
    maps whole pages and fills the last one with zeros past the end of the
    file, so the scan meets a NUL when the file holds one or when its size
    is not a multiple of the page size.  Page sizes on Linux, the platform
    of the makefile, are multiples of 4096: for a file without NUL whose
    size is a multiple of 4096 the scan can run past the mapping, and the
    call is [NotModelled].
    The argument [print] only adds output on [stdout] and is left out. *)

Definition PAGESIZE : N := 4096.

Definition mapping_ends (text : string) : bool :=
  Escape.mem_char NUL text
  || negb (N.of_nat (String.length text) mod PAGESIZE =? 0)%N.

Inductive perror :=
  | CantStat (fnam : string)
  | CantOpen (fnam : string)
  | CantMmap (fnam : string)
  | LoadError
  | Recursion (fnam : string).

Inductive presult :=
  | Compiled
  | Failed (e : perror)
  | NoFuel
  | NotModelled.

(** What [process_file] works on: the list [ihead] of the context and the
    [template] table of the container on top of the Lua stack. *)
Record pstate := PState { ps_ihead : list string; ps_template : gmap string template }.

Inductive buffers_result := BuffersRun | BuffersRejected | BuffersUnknown.

(** Lines 321-360: load and call the buffer on top of the stack (the main
    body), then the one below it (the blocks).  [errval] is overwritten by
    the second load; when the first load fails, the second one is given the
    error message of the first and fails as well, so [errval] is non-zero as
    soon as one of the buffers is rejected.  A chunk that raises while it
    runs leaves the C stack out of step: that case is left to
    [BuffersUnknown].  [ld] is the engine's [luaL_loadbuffer]; [Lua.load] is
    the model of it on the statements the generator emits. *)
Definition run_buffers (ld : string -> load_result) (r : reader_st)
    (reg : gmap string template) : gmap string template * buffers_result :=
  match ld (r_body r) with
  | Loaded c1 =>
      match exec_chunk c1 reg with
      | (reg1, true) =>
          match ld (r_blocks r) with
          | Loaded c2 =>
              match exec_chunk c2 reg1 with
              | (reg2, true) => (reg2, BuffersRun)
              | (reg2, false) => (reg2, BuffersUnknown)
              end
          | LoadSyntaxError => (reg1, BuffersRejected)
          | LoadUnknown => (reg1, BuffersUnknown)
          end
      | (reg1, false) => (reg1, BuffersUnknown)
      end
  | LoadSyntaxError => (reg, BuffersRejected)
  | LoadUnknown => (reg, BuffersUnknown)
  end.

Section Includes.
(** The recursive call [process_file(L, include->fnam, ihead, print)]. *)
Variable recurse : string -> pstate -> pstate * presult.

(** Lines 384-403: [SLIST_FOREACH(include, &includes, next)]. *)
Fixpoint walk_includes (includes : list string) (st : pstate) : pstate * presult :=
  match includes with
  | [] => (st, Compiled)
  | include :: rest =>
      if bool_decide (include ∈ ps_ihead st) then (st, Failed (Recursion include))
      else
        match ps_template st !! include with
        | Some _ => walk_includes rest st
        | None =>
            match recurse include st with
            | (st', Compiled) => walk_includes rest st'
            | stopped => stopped
            end
        end
  end.
End Includes.

Fixpoint process_file (ld : string -> load_result) (fuel : nat)
    (fs : gmap string file) (fnam : string) (st : pstate) : pstate * presult :=
  match fuel with
  | O => (st, NoFuel)
  | S fuel' =>
      match resolve fs fnam with
      | None => (st, Failed (CantStat fnam))
      | Some f =>
          if negb (readable f) then (st, Failed (CantOpen fnam))
          else if (String.length (contents f) =? 0)%nat then (st, Failed (CantMmap fnam))
          else
            let ih := fnam :: ps_ihead st in
            if negb (mapping_ends (contents f)) then
              (PState ih (ps_template st), NotModelled)
            else
            match reader (contents f) fnam with
            | None => (PState ih (ps_template st), NotModelled)
            | Some r =>
                if r_overrun r then (PState ih (ps_template st), NotModelled)
                else
                  match run_buffers ld r (ps_template st) with
                  | (reg, BuffersUnknown) => (PState ih reg, NotModelled)
                  | (reg, BuffersRejected) => (PState ih reg, Failed LoadError)
                  | (reg, BuffersRun) =>
                      match walk_includes (process_file ld fuel' fs)
                              (r_includes r) (PState ih reg) with
                      | (st', Compiled) =>
                          (PState (tail (ps_ihead st')) (ps_template st'), Compiled)
                      | stopped => stopped
                      end
                  end
            end
      end
  end.

(** *** The context ([luatemplate.c]) *)

(** The container ([lua_setuservalue] in [template_context]): the [template]
    table and [print]; its [string], [render_block] and [render_template]
    never change. *)
Record container := Container {
  c_template : gmap string template;
  c_print : option sink
}.

(** [struct render_context] and the user value of the userdata. *)
Record render_context := RenderContext {
  ihead : list string;
  debug : bool;
  uservalue : option container
}.

(** [template_context] *)
Definition template_context : render_context :=
  RenderContext [] false (Some (Container ∅ None)).

(** [render_debug] *)
Definition render_debug (flag : bool) (ctx : render_context) : render_context :=
  RenderContext (ihead ctx) flag (uservalue ctx).

(** [render_clear]: [lua_pushnil(L); lua_setuservalue(L, -2);] *)
Definition render_clear (ctx : render_context) : render_context :=
  RenderContext (ihead ctx) (debug ctx) None.

(** The metatable built by [luaopen_template]: the array [render_methods]
    and the three fields set after it. *)
Inductive metavalue :=
  | CFunction (name : string)
  | MetatableItself
  | Literal (s : string).

Definition render_methods : list (string * metavalue) :=
  [ ("renderFile", CFunction "render_file");
    ("debug", CFunction "render_debug") ].

Definition metatable : list (string * metavalue) :=
  render_methods ++
  [ ("__gc", CFunction "render_clear");
    ("__index", MetatableItself);
    ("__metatable", Literal "must not access this metatable") ].

Fixpoint rawget (key : string) (t : list (string * metavalue)) : option metavalue :=
  match t with
  | [] => None
  | (k, v) :: rest => if String.eqb k key then Some v else rawget key rest
  end.

(** [ctx.key] for a context userdata: [__index] is the metatable itself. *)
Definition context_index (key : string) : option metavalue := rawget key metatable.

(** *** [render_file] ([luatemplate.c], lines 175-255) *)

Inductive render_error :=
  | StatFailed (fnam : string)
  | NoContainer
  | MtimeNotInteger
  | ProcessingFailed (e : perror)
  | NotRegistered
  | RenderFailed (e : lua_error).

Inductive rresult :=
  | Rendered
  | Raised (e : render_error)
  | RenderNoFuel
  | RenderNotModelled.

Record render_outcome := RenderOutcome {
  ro_ctx : render_context;
  ro_env : gmap string value;
  ro_out : list value;
  ro_result : rresult
}.

(** What [renderFile] hands back, from the state a routine ended in. *)
Definition finish (ctx : render_context) (r : rstate * outcome) : render_outcome :=
  match r with
  | (st, Done) => RenderOutcome ctx (env st) (out st) Rendered
  | (st, RuntimeError e) => RenderOutcome ctx (env st) (out st) (Raised (RenderFailed e))
  | (st, OutOfFuel) => RenderOutcome ctx (env st) (out st) RenderNoFuel
  | (st, Unmodelled) => RenderOutcome ctx (env st) (out st) RenderNotModelled
  end.

(** Lines 235-254: the protected call of [render_template] on the data and
    the requested name. *)
Definition call_render_template (fuel : nat) (ctx : render_context)
    (reg : gmap string template) (sk : sink) (fnam : string)
    (data : gmap string value) : render_outcome :=
  finish ctx (render_template (invoke fuel reg sk) fuel reg VEnv (VStr fnam)
                (RState data [])).

Definition context_with (ctx : render_context) (ih : list string)
    (reg : gmap string template) (sk : sink) : render_context :=
  RenderContext ih (debug ctx) (Some (Container reg (Some sk))).

(** Lines 189-233: up to the point where the entry of [fnam] is in the
    registry with a current [mtime]. *)
Inductive prepared :=
  | Ready (ctx : render_context) (reg : gmap string template) (sk : sink)
  | Stopped (ctx : render_context) (r : rresult).

Definition prepare (ld : string -> load_result) (fuel : nat)
    (fs : gmap string file) (ctx : render_context) (fnam : string)
    (with_sink : bool) : prepared :=
  match fs !! fnam with
  | None => Stopped ctx (Raised (StatFailed fnam))
  | Some sb =>
      match uservalue ctx with
      | None => Stopped ctx (Raised NoContainer)
      | Some c =>
          let sk := if with_sink then host_sink else io_write in
          (* lines 206-218: check mtime *)
          let checked : option (gmap string template) :=
            match c_template c !! fnam with
            | None => Some (c_template c)
            | Some t =>
                match mtime t with
                | None => None
                | Some m =>
                    if m =? st_mtime sb then Some (c_template c)
                    else Some (delete fnam (c_template c))
                end
            end in
          match checked with
          | None =>
              Stopped (context_with ctx (ihead ctx) (c_template c) sk)
                (Raised MtimeNotInteger)
          | Some reg =>
              match reg !! fnam with
              | Some _ => Ready (context_with ctx (ihead ctx) reg sk) reg sk
              | None =>
                  (* lines 220-231 *)
                  match process_file ld fuel fs fnam (PState (ihead ctx) reg) with
                  | (ps, Compiled) =>
                      match ps_template ps !! fnam with
                      | None =>
                          Stopped (context_with ctx (ps_ihead ps) (ps_template ps) sk)
                            (Raised NotRegistered)
                      | Some t =>
                          let reg1 := <[fnam := with_mtime (Some (st_mtime sb)) t]>
                                        (ps_template ps) in
                          Ready (context_with ctx (ps_ihead ps) reg1 sk) reg1 sk
                      end
                  | (ps, Failed e) =>
                      Stopped (context_with ctx (ps_ihead ps) (ps_template ps) sk)
                        (Raised (ProcessingFailed e))
                  | (ps, NoFuel) =>
                      Stopped (context_with ctx (ps_ihead ps) (ps_template ps) sk)
                        RenderNoFuel
                  | (ps, NotModelled) =>
                      Stopped (context_with ctx (ps_ihead ps) (ps_template ps) sk)
                        RenderNotModelled
                  end
              end
          end
      end
  end.

(** [ctx:renderFile(fnam, data [, sink])]; [with_sink] tells whether the
    fourth argument is there, [ld] is the engine's loader. *)
Definition render_file (ld : string -> load_result) (fuel : nat)
    (fs : gmap string file) (ctx : render_context) (fnam : string)
    (data : gmap string value) (with_sink : bool) : render_outcome :=
  match prepare ld fuel fs ctx fnam with_sink with
  | Ready ctx' reg sk => call_render_template fuel ctx' reg sk fnam data
  | Stopped ctx' r => RenderOutcome ctx' data [] r
  end.

End Context.

(** ** Notions used by the statements below *)

Module Properties.
Import Reader Lua Registry Context.

(** *** Registries and output *)

(** The text written to the sink. *)
Fixpoint output_text (vs : list value) : string :=
  match vs with
  | [] => EmptyString
  | VStr s :: rest => s +:+ output_text rest
  | _ :: rest => output_text rest
  end.

(** The [template] table of a context (empty once the container is gone). *)
Definition registry_of (ctx : render_context) : gmap string template :=
  match uservalue ctx with
  | Some c => c_template c
  | None => ∅
  end.

(** [chain reg t rest]: the registry links [t] through [extends] to the names
    of [rest], one after the other, and the last one extends nothing. *)
Fixpoint chain (reg : gmap string template) (t : string) (rest : list string) : Prop :=
  match rest with
  | [] => exists tpl, reg !! t = Some tpl /\ extends tpl = None
  | p :: rest' =>
      exists tpl, reg !! t = Some tpl /\ extends tpl = Some p /\ chain reg p rest'
  end.



(** The context with the entry of [fnam] taken out of the registry. *)
Definition evict (fnam : string) (ctx : render_context) : render_context :=
  RenderContext (ihead ctx) (debug ctx)
    (match uservalue ctx with
     | Some c => Some (Container (delete fnam (c_template c)) (c_print c))
     | None => None
     end).

(** *** The scanner's loop *)

(** The states that have a [case] in the [switch]. *)
Definition live (s : lt_states) : bool :=
  match s with
  | s_initial | s_output | s_code | s_expression | s_instruction => true
  | _ => false
  end.

(** The two lines that end [case s_instruction]. *)
Definition after_close (p : string) : string :=
  let p2 := find_close p in if at_end p2 then p2 else advance 2 p2.

(** *** Literal text *)

(** No directive opens in the text. *)
Fixpoint directive_free (s : string) : bool :=
  match s with
  | EmptyString => true
  | String _ s' => negb (starts "<%" s) && directive_free s'
  end.

Definition no_char (c : ascii) (s : string) : bool := negb (Escape.mem_char c s).

(** No closing bracket is followed by a closing bracket or by the end of the
    text: inside long brackets the text ends where the generator ends it. *)
Fixpoint bracket_safe (s : string) : bool :=
  match s with
  | EmptyString => true
  | String c s' =>
      negb (Ascii.eqb c "]"
            && match s' with
               | EmptyString => true
               | String d _ => Ascii.eqb d "]"
               end)
      && bracket_safe s'
  end.

(** A text that the generated print statement gives back unchanged: not
    empty, without directive, NUL or carriage return, not beginning with a
    line feed, and safe inside long brackets. *)
Definition plain_text (s : string) : bool :=
  negb (String.length s =? 0)%nat && directive_free s && no_char NUL s
  && no_char CR s && negb (Ascii.eqb (deref s) LF) && bracket_safe s.

(** A template name that can stand between single quotes as it is. *)
Definition plain_name (f : string) : bool :=
  no_char SQUOTE f && no_char BACKSLASH f && no_char LF f && no_char CR f.

(** The main buffer [reader] makes of a text without directive. *)
Definition generated_body (f text : string) : string :=
  "_ENV = ..." +:+ nl +:+ "template['" +:+ f +:+ "'] = { blk = {} }" +:+ nl
  +:+ "template['" +:+ f +:+ "'].main = function(_ENV, _t)" +:+ nl
  +:+ "print([[" +:+ text +:+ "]])" +:+ nl +:+ "end" +:+ nl.

(** *** The dependency graph of a set of files *)

(** The names [reader] records for the file of [f]. *)
Definition deps (fs : gmap string file) (f : string) : list string :=
  match resolve fs f with
  | Some file =>
      match reader (contents file) f with
      | Some r => r_includes r
      | None => []
      end
  | None => []
  end.









(** *** Example files and contexts *)

(** The base and child templates of the block example. *)
Definition fs_greeting : gmap string file :=
  <["base" := File 1 true "<%! block greeting %>Hi<%! endblock %>"]>
  (<["child" := File 2 true
       "<%! extends base %><%! block greeting %>Hello<%! endblock %>"]> ∅).

(** The registry after compiling [child] and, with it, [base]. *)
Definition greeting_registry : gmap string template :=
  ps_template (fst (process_file load 8 fs_greeting "child" (PState [] ∅))).



(** The expression with the [html] tag, after a space and right after the
    equals sign, and the data it is rendered with. *)
Definition fs_html : gmap string file :=
  <["spaced" := File 1 true "<%= html name %>"]>
  (<["tight" := File 1 true "<%=html name %>"]> ∅).

Definition data_name : gmap string value := <["name" := VStr "<b>"]> ∅.

(** Templates that end inside an instruction, and the literal template
    the second of them names. *)
Definition fs_unterminated : gmap string file :=
  <["open" := File 1 true "Hello<%!"]>
  (<["include" := File 1 true "<%! include Hello"]>
  (<["Hello" := File 1 true "Hello"]> ∅)).

(** A context that has rendered [dep] from a first version of its file, and
    the files after [dep] has changed and [top], which includes it, exists. *)
Definition fs_old : gmap string file := <["dep" := File 1 true "old"]> ∅.

Definition fs_new : gmap string file :=
  <["dep" := File 2 true "new"]> (<["top" := File 5 true "<%! include dep %>"]> ∅).

Definition ctx_cached : render_context :=
  ro_ctx (render_file load 8 fs_old template_context "dep" ∅ true).

(** The file of [dep] cut down to nothing after that render. *)
Definition fs_truncated : gmap string file :=
  <["dep" := File 2 true EmptyString]> ∅.

(** A template with two includes, none of which exists. *)
Definition fs_two : gmap string file :=
  <["top" := File 1 true "<%! include x %><%! include y %>"]> ∅.

(** A text that starts with a line feed, and one with closing brackets. *)
Definition fs_literal : gmap string file :=
  <["newline" := File 1 true (String LF "X")]>
  (<["brackets" := File 1 true "a]]b"]> ∅).

(** *** The escape tables read backwards *)

(** The character a table substitutes by [s]. *)
Fixpoint unscan_table (esc : list Escape.lt_escape_entity) (s : string) : option ascii :=
  match esc with
  | [] => None
  | e :: rest =>
      match Escape.ent_escape e with
      | None => None
      | Some t => if String.eqb t s then Some (Escape.ent_c e) else unscan_table rest s
      end
  end.

(** The substitutions of a table, up to its sentinel. *)
Fixpoint substitutions (esc : list Escape.lt_escape_entity) : list string :=
  match esc with
  | [] => []
  | e :: rest =>
      match Escape.ent_escape e with
      | None => []
      | Some t => t :: substitutions rest
      end
  end.

(** The table [lt_escape] selects for a mode. *)
Definition table_of (escape : Z) : list Escape.lt_escape_entity :=
  if escape =? Escape.e_html then Escape.html_escape
  else if escape =? Escape.e_xml then Escape.xml_escape
  else if escape =? Escape.e_url then Escape.url_escape
  else if escape =? Escape.e_latex then Escape.latex_escape
  else [].

(** The characters that delimit markup and attribute values. *)
Definition markup_free (s : string) : bool :=
  negb (Escape.mem_char "<" s) && negb (Escape.mem_char ">" s)
  && negb (Escape.mem_char DQUOTE s) && negb (Escape.mem_char SQUOTE s).
(** *** What the scanner keeps *)

(** [grows s s']: each buffer of [s'] is the one of [s] with text added at
    its end. *)
Definition grows (s s' : reader_st) : Prop :=
  (exists a, r_body s' = r_body s +:+ a) /\ (exists b, r_blocks s' = r_blocks s +:+ b).

(** The modes the [escape] instruction can select. *)
Definition ambient_mode (e : Z) : Prop :=
  e = Escape.e_none \/ e = Escape.e_html \/ e = Escape.e_latex \/ e = Escape.e_url.
(** *** The steps of [render_file] *)

(** Lines 220-231 of [luatemplate.c]: [process_file] on the registry [reg0],
    which has no entry for [fnam], and the stamp of the new entry with the
    modification time [m]. *)
Definition compile_entry (ld : string -> load_result) (fuel : nat)
    (fs : gmap string file) (ctx : render_context) (fnam : string) (m : Z)
    (sk : sink) (reg0 : gmap string template) : prepared :=
  match process_file ld fuel fs fnam (PState (ihead ctx) reg0) with
  | (ps, Compiled) =>
      match ps_template ps !! fnam with
      | None =>
          Stopped (context_with ctx (ps_ihead ps) (ps_template ps) sk)
            (Raised NotRegistered)
      | Some t =>
          let reg1 := <[fnam := with_mtime (Some m) t]> (ps_template ps) in
          Ready (context_with ctx (ps_ihead ps) reg1 sk) reg1 sk
      end
  | (ps, Failed e) =>
      Stopped (context_with ctx (ps_ihead ps) (ps_template ps) sk)
        (Raised (ProcessingFailed e))
  | (ps, NoFuel) =>
      Stopped (context_with ctx (ps_ihead ps) (ps_template ps) sk) RenderNoFuel
  | (ps, NotModelled) =>
      Stopped (context_with ctx (ps_ihead ps) (ps_template ps) sk) RenderNotModelled
  end.

(** The context a prepared render goes on with. *)
Definition prepared_ctx (p : prepared) : render_context :=
  match p with Ready ctx' _ _ => ctx' | Stopped ctx' _ => ctx' end.

(** The errors [process_file] returns before it has pushed [f] on the stack. *)
Definition early_failure (f : string) (res : presult) : Prop :=
  res = NoFuel \/ res = Failed (CantStat f) \/ res = Failed (CantOpen f)
  \/ res = Failed (CantMmap f).

(** A file that does not load, and a template that includes it. *)
Definition fs_broken : gmap string file :=
  <["bad" := File 1 true "a]]b"]> (<["top" := File 1 true "<%! include bad %>"]> ∅).

(** *** Runs of the scanner *)

(** [scans f st r]: the loop, started in [st], ends in [r]. *)
Definition scans (f : string) (st r : reader_st) : Prop :=
  exists fuel, reader_loop fuel f st = Some r.

(** The closing delimiter does not occur in the text. *)
Fixpoint close_free (s : string) : bool :=
  match s with
  | EmptyString => true
  | String c s' => negb (Ascii.eqb c "%" && Ascii.eqb (deref s') ">") && close_free s'
  end.

(** What [case s_output] does to a pending literal when a directive opens. *)
Definition close_literal (st : reader_st) : reader_st :=
  if r_output st then set_output false (buf_addstring ("]])" +:+ nl) st) else st.

(** [n] closing parentheses. *)
Fixpoint parens (n : nat) : string :=
  match n with
  | O => EmptyString
  | S n' => String ")" (parens n')
  end.

(** The first lines of the main buffer. *)
Definition prologue (f : string) : string :=
  "_ENV = ..." +:+ nl +:+ "template['" +:+ f +:+ "'] = { blk = {} }" +:+ nl
  +:+ "template['" +:+ f +:+ "'].main = function(_ENV, _t)" +:+ nl.

(** The word of a mode in the tag of an expression, and the call the
    scanner opens for it. *)
Definition tag_word (m : Z) : string :=
  if m =? Escape.e_html then "html"
  else if m =? Escape.e_xml then "xml"
  else if m =? Escape.e_latex then "latex"
  else if m =? Escape.e_url then "url"
  else "none".

Definition open_text (m : Z) : string :=
  if m =? Escape.e_html then "print(escape_html("
  else if m =? Escape.e_xml then "print(escape_xml("
  else if m =? Escape.e_latex then "print(escape_latex("
  else if m =? Escape.e_url then "print(escape_url("
  else "print(".

Definition close_text (m : Z) : string :=
  if (m =? Escape.e_html) || (m =? Escape.e_xml) || (m =? Escape.e_latex)
     || (m =? Escape.e_url)
  then "))" +:+ nl else ")" +:+ nl.

(** *** Names and texts that pass through the generated code unchanged *)

(** A character of a name written without quotes. *)
Definition name_char (c : ascii) : bool :=
  negb (isspace c) && negb (Ascii.eqb c NUL) && negb (Ascii.eqb c "%")
  && negb (Ascii.eqb c DQUOTE) && negb (Ascii.eqb c SQUOTE)
  && negb (Ascii.eqb c BACKSLASH).

Fixpoint name_chars (x : string) : bool :=
  match x with
  | EmptyString => true
  | String c x' => name_char c && name_chars x'
  end.

(** A name as templates write it after [include], [block] and [extends]:
    not empty, shorter than [MAXPATHLEN], without white space, quote,
    backslash, percent sign or NUL. *)
Definition simple_name (x : string) : bool :=
  negb (String.length x =? 0)%nat && name_chars x
  && (Z.of_nat (String.length x) <? MAXPATHLEN).


(** *** Templates without blocks, piece by piece *)

(** The pieces of a template outside its block structure: literal text, a
    code directive, an expression with or without the tag of a mode, an
    expression with a format, an [include] and an [escape] instruction. *)
Inductive item :=
  | ILit (t : string)
  | ICode (c : string)
  | IExpr (tag : option Z) (e : string)
  | IFormat (tag : option Z) (fmt e : string)
  | IInclude (x : string)
  | IEscape (m : Z).

(** The word of a mode in the [escape] instruction. *)
Definition escape_word (m : Z) : string :=
  if m =? Escape.e_html then "html"
  else if m =? Escape.e_latex then "latex"
  else if m =? Escape.e_url then "url"
  else "none".

(** The text of a piece, as a template spells it. *)
Definition item_text (i : item) : string :=
  match i with
  | ILit t => t
  | ICode c => "<%" +:+ c +:+ "%>"
  | IExpr (Some m) e => "<%=" +:+ tag_word m +:+ e +:+ "%>"
  | IExpr None e => "<%=" +:+ e +:+ "%>"
  | IFormat (Some m) fmt e => "<%=" +:+ tag_word m +:+ fmt +:+ e +:+ "%>"
  | IFormat None fmt e => "<%=" +:+ fmt +:+ e +:+ "%>"
  | IInclude x => "<%! include " +:+ x +:+ " %>"
  | IEscape m => "<%! escape " +:+ escape_word m +:+ " %>"
  end.

Fixpoint template_text (items : list item) : string :=
  match items with
  | [] => EmptyString
  | i :: rest => item_text i +:+ template_text rest
  end.

(** A format: a percent sign and what follows it up to the next white
    space. *)
Fixpoint format_chars (fmt : string) : bool :=
  match fmt with
  | EmptyString => true
  | String c fmt' => negb (Ascii.eqb c NUL || isspace c) && format_chars fmt'
  end.

Definition is_mode (m : Z) : Prop :=
  m = Escape.e_html \/ m = Escape.e_xml \/ m = Escape.e_latex \/ m = Escape.e_url
  \/ m = Escape.e_none.

(** The pieces the statements below are about. *)
Definition item_ok (i : item) : Prop :=
  match i with
  | ILit t =>
      t <> EmptyString /\ directive_free t = true /\ no_char NUL t = true
  | ICode c =>
      no_char NUL c = true /\ close_free c = true /\
      Ascii.eqb (deref c) "=" = false /\ Ascii.eqb (deref c) "!" = false
  | IExpr (Some m) e =>
      is_mode m /\ no_char NUL e = true /\ close_free e = true /\
      e <> EmptyString /\ Ascii.eqb (deref e) "%" = false
  | IExpr None e =>
      no_char NUL e = true /\ close_free e = true /\ isspace (deref e) = true
  | IFormat tag fmt e =>
      match tag with Some m => is_mode m | None => True end /\
      deref fmt = "%"%char /\ format_chars fmt = true /\
      no_char NUL e = true /\ close_free e = true /\ isspace (deref e) = true
  | IInclude x => simple_name x = true
  | IEscape m => ambient_mode m
  end.

Definition is_lit (i : item) : bool :=
  match i with ILit _ => true | _ => false end.

(** Every piece is as above and no literal follows a literal. *)
Fixpoint items_ok (items : list item) : Prop :=
  match items with
  | [] => True
  | i :: rest =>
      item_ok i /\ items_ok rest /\
      (is_lit i = true -> match rest with j :: _ => is_lit j = false | [] => True end)
  end.

(** The statements the scanner makes of the pieces, [amb] being the ambient
    escape mode. *)
Fixpoint item_code (amb : Z) (items : list item) : string :=
  match items with
  | [] => EmptyString
  | ILit t :: rest => "print([[" +:+ t +:+ "]])" +:+ nl +:+ item_code amb rest
  | ICode c :: rest => skip_spaces c +:+ nl +:+ item_code amb rest
  | IExpr (Some m) e :: rest =>
      open_text m +:+ skip_spaces e +:+ close_text m +:+ item_code amb rest
  | IExpr None e :: rest =>
      open_text amb +:+ skip_spaces e +:+ close_text amb +:+ item_code amb rest
  | IFormat tag fmt e :: rest =>
      let m := match tag with Some m => m | None => amb end in
      open_text m +:+ "string.format([[" +:+ fmt +:+ "]], " +:+ skip_spaces e +:+ ")"
      +:+ close_text m +:+ item_code amb rest
  | IInclude x :: rest =>
      "render_template(_ENV, '" +:+ x +:+ "')" +:+ nl +:+ item_code amb rest
  | IEscape m :: rest => item_code m rest
  end.

(** The dependency list after the pieces, each new name put first. *)
Fixpoint item_includes (items : list item) (inc : list string) : list string :=
  match items with
  | [] => inc
  | IInclude x :: rest =>
      item_includes rest (if bool_decide (x ∈ inc) then inc else x :: inc)
  | _ :: rest => item_includes rest inc
  end.

(** The ambient escape mode and the name last read, after the pieces. *)
Fixpoint item_amb (amb : Z) (items : list item) : Z :=
  match items with
  | [] => amb
  | IEscape m :: rest => item_amb m rest
  | _ :: rest => item_amb amb rest
  end.

Fixpoint item_fnam (items : list item) (fn : string) : string :=
  match items with
  | [] => fn
  | IInclude x :: rest => item_fnam rest x
  | _ :: rest => item_fnam rest fn
  end.

(** The same for the array [fnam], which holds nothing before the first
    name is read. *)
Fixpoint item_name (items : list item) (fn : option string) : option string :=
  match items with
  | [] => fn
  | IInclude x :: rest => item_name rest (Some x)
  | _ :: rest => item_name rest fn
  end.

(** The buffer in use with the literal that is still open closed. *)
Definition closed (bd : string) (o : bool) : string :=
  if o then bd +:+ "]])" +:+ nl else bd.

(** Literal text is printed outside an extending template, and inside its
    blocks. *)
Definition prints (x bl : bool) : bool := negb x || (x && bl).

(** The state of the scanner between two pieces: [b] is the buffer in use,
    [cur] its text and [other] the text of the other buffer; no parenthesis
    is left to close. *)
Definition at_item (p : string) (s : lt_states) (e : Z) (x bl o : bool)
    (b : which_buf) (cur other : string) (inc : list string) (fn : option string)
    (ov : bool) : reader_st :=
  ReaderSt p s e x bl o 0
    (match b with b_body => cur | b_blocks => other end)
    (match b with b_body => other | b_blocks => cur end)
    b inc fn ov.


(** *** Blocks *)

(** The lines the scanner writes into the block buffer before and after the
    statements of a block, and the call it puts into the main routine; [x]
    tells whether the template extends another one. *)
Definition block_head (f : string) (x : bool) (name : string) : string :=
  (if x then EmptyString
   else "if template['" +:+ f +:+ "'].blk['" +:+ name +:+ "'] == nil then" +:+ nl)
  +:+ "template['" +:+ f +:+ "'].blk['" +:+ name +:+ "'] = function (_ENV)" +:+ nl.

Definition block_tail (x : bool) : string :=
  if x then "end" +:+ nl else "end" +:+ nl +:+ "end" +:+ nl.

Definition block_call (x : bool) (name : string) : string :=
  if x then EmptyString else "render_block(_ENV, _t, '" +:+ name +:+ "')" +:+ nl.

(** A template with blocks: runs of pieces outside the blocks, and blocks
    whose bodies are runs of pieces. *)
Inductive part :=
  | Flat (items : list item)
  | Blk (name : string) (inner : list item).

Definition block_text (name : string) (inner : list item) : string :=
  "<%! block " +:+ name +:+ " %>" +:+ template_text inner +:+ "<%! endblock %>".

Fixpoint parts_text (ps : list part) : string :=
  match ps with
  | [] => EmptyString
  | Flat items :: rest => template_text items +:+ parts_text rest
  | Blk name inner :: rest => block_text name inner +:+ parts_text rest
  end.

Definition is_flat (p : part) : bool :=
  match p with Flat _ => true | Blk _ _ => false end.

(** The runs are made of the pieces above, the names of the blocks are
    simple, and a block or the end follows every run outside the blocks. *)
Fixpoint parts_ok (ps : list part) : Prop :=
  match ps with
  | [] => True
  | Flat items :: rest =>
      items_ok items /\ parts_ok rest /\
      match rest with q :: _ => is_flat q = false | [] => True end
  | Blk name inner :: rest =>
      simple_name name = true /\ items_ok inner /\ parts_ok rest
  end.

(** What a template that extends nothing puts into its main routine: the
    statements of the pieces outside the blocks and, for each block, a call
    of [render_block] with the name the scanner read last. *)
Fixpoint parts_main (amb : Z) (ps : list part) : string :=
  match ps with
  | [] => EmptyString
  | Flat items :: rest => item_code amb items +:+ parts_main (item_amb amb items) rest
  | Blk name inner :: rest =>
      block_call false (item_fnam inner name) +:+ parts_main (item_amb amb inner) rest
  end.

(** The definitions of the blocks, in the order of the template. *)
Fixpoint parts_blocks (f : string) (x : bool) (amb : Z) (ps : list part) : string :=
  match ps with
  | [] => EmptyString
  | Flat items :: rest => parts_blocks f x (item_amb amb items) rest
  | Blk name inner :: rest =>
      block_head f x name +:+ item_code amb inner +:+ block_tail x
      +:+ parts_blocks f x (item_amb amb inner) rest
  end.

Fixpoint parts_includes (ps : list part) (inc : list string) : list string :=
  match ps with
  | [] => inc
  | Flat items :: rest => parts_includes rest (item_includes items inc)
  | Blk _ inner :: rest => parts_includes rest (item_includes inner inc)
  end.

(** In a template that extends another one the text outside the blocks is
    taken as it stands. *)
Fixpoint parts_raw (ps : list part) : string :=
  match ps with
  | [] => EmptyString
  | Flat items :: rest => template_text items +:+ parts_raw rest
  | Blk _ _ :: rest => parts_raw rest
  end.

Definition raw_part (p : part) : Prop :=
  match p with
  | Flat items => exists t, items = [ILit t]
  | Blk _ _ => True
  end.


(** *** The order of the dependencies *)

(** The names of the [include] instructions of a run of pieces, in the
    order of the template. *)
Fixpoint include_names (items : list item) : list string :=
  match items with
  | [] => []
  | IInclude x :: rest => x :: include_names rest
  | _ :: rest => include_names rest
  end.

(** Two templates that include [a], which exists, and [b], which does not,
    in the two orders. *)
Definition fs_order : gmap string file :=
  <["first" := File 1 true "<%! include a %><%! include b %>"]>
  (<["second" := File 1 true "<%! include b %><%! include a %>"]>
  (<["a" := File 1 true "A"]> ∅)).

End Properties.

(** * Theorems *)

Module Theorems.
Import Escape Reader Lua Registry Context Properties.

(** C3. For each of the modes html, xml, latex and url and every character,
    [lt_escape] returns the substitution the tables of the specification give
    for that character, and no substitution for a character the table does
    not list. *)
Theorem lt_escape_matches_tables (c : ascii) :
  lt_escape e_html c = spec_html c /\
  lt_escape e_xml c = spec_xml c /\
  lt_escape e_latex c = spec_latex c /\
  lt_escape e_url c = spec_url c.
Proof.
  destruct c as [[] [] [] [] [] [] [] []]; vm_compute; repeat split.
Qed.





(** C4 (the code does not do this).  The mode tag is only seen when it
    follows the equals sign at once.  With a space the scanner emits
    [print(html name )], which the engine rejects, and [renderFile] raises
    [processing failed].  Without the space it emits
    [print(escape_html(name ))]; [render_template] binds [print], [string],
    [render_block] and [render_template] in the environment but no
    [escape_html], so the call raises and nothing reaches the sink. *)
Theorem html_expression_not_rendered :
  (let r := render_file load 8 fs_html template_context "spaced" data_name true in
   (r_body <$> reader "<%= html name %>" "spaced") =
     Some ("_ENV = ..." +:+ nl +:+ "template['spaced'] = { blk = {} }" +:+ nl +:+
           "template['spaced'].main = function(_ENV, _t)" +:+ nl +:+
           "print(html name )" +:+ nl +:+ "end" +:+ nl) /\
   ro_result r = Raised (ProcessingFailed LoadError) /\ ro_out r = []) /\
  (let r := render_file load 8 fs_html template_context "tight" data_name true in
   (r_body <$> reader "<%=html name %>" "tight") =
     Some ("_ENV = ..." +:+ nl +:+ "template['tight'] = { blk = {} }" +:+ nl +:+
           "template['tight'].main = function(_ENV, _t)" +:+ nl +:+
           "print(escape_html(name ))" +:+ nl +:+ "end" +:+ nl) /\
   ro_result r = Raised (RenderFailed (CallNil "escape_html")) /\ ro_out r = [] /\
   install_helpers data_name !! "escape_html" = None).
Proof.
  vm_compute. repeat split; reflexivity.
Qed.

(** C7 (the code does not do this).  At the end of the text inside an
    unterminated directive, [reader] sets its local [state] to [s_error] and
    returns: nothing reads [state].  The buffers are well formed, so
    [process_file] returns 0 and the template renders.  An unterminated
    instruction that names its argument even ends in [s_terminate]. *)
Theorem unterminated_directive_compiles :
  (r_state <$> reader "Hello<%!" "open") = Some s_error /\
  snd (process_file load 8 fs_unterminated "open" (PState [] ∅)) = Compiled /\
  (let r := render_file load 8 fs_unterminated template_context "open" ∅ true in
   ro_result r = Rendered /\ ro_out r = [VStr "Hello"]) /\
  (r_state <$> reader "<%! include Hello" "include") = Some s_terminate /\
  (let r := render_file load 8 fs_unterminated template_context "include" ∅ true in
   ro_result r = Rendered /\ ro_out r = [VStr "Hello"]).
Proof.
  vm_compute. repeat split; reflexivity.
Qed.

(** ** The context: cached entries, the finalizer *)

Lemma ro_ctx_finish ctx r : ro_ctx (finish ctx r) = ctx.
Proof. destruct r as [st []]; reflexivity. Qed.

Lemma last_cons {A} (rest : list A) :
  forall p d, List.last (p :: rest) d = List.last rest p.
Proof.
  induction rest as [|q rest IH]; intros p d; [reflexivity|].
  change (List.last (q :: rest) d = List.last (q :: rest) p).
  rewrite !IH. reflexivity.
Qed.

Lemma root_walk_chain reg rest :
  forall t fuel,
    chain reg t rest -> (length rest <= fuel)%nat ->
    root_walk reg fuel t = WFound (List.last rest t).
Proof.
  induction rest as [|p rest IH]; intros t fuel Hc Hf; simpl in Hc.
  - destruct Hc as (tpl & Ht & He).
    destruct fuel; simpl; rewrite Ht, He; reflexivity.
  - destruct Hc as (tpl & Ht & He & Hc).
    destruct fuel as [|fuel]; [simpl in Hf; lia|].
    simpl in Hf. assert (Hf' : (length rest <= fuel)%nat) by lia.
    cbn [root_walk]. rewrite Ht, He. rewrite (IH p fuel Hc Hf').
    rewrite last_cons. reflexivity.
Qed.

(** C5. Once [renderFile] has the entry of the requested path [fnam] in the
    registry, it walks the [extends] chain from [fnam] to the root, the
    template that extends nothing, and calls the [main] routine of that root
    with the render environment (the data plus the helpers) and with [fnam],
    the path asked for, not the path of the root; a [render_block] statement
    of that routine therefore dispatches from [fnam]. *)
Theorem render_file_invokes_root_main :
  forall ld fuel fs ctx fnam data ws ctx' reg sk rest body,
    prepare ld fuel fs ctx fnam ws = Ready ctx' reg sk ->
    chain reg fnam rest ->
    reg !! List.last rest fnam ≫= main = Some body ->
    (length rest <= fuel)%nat ->
    render_file ld fuel fs ctx fnam data ws =
    finish ctx' (invoke fuel reg sk body (Some (VStr fnam))
                   (RState (install_helpers data) [])) /\
    forall call k b written,
      exec_stmt call k reg sk (Some (VStr fnam))
        (SCall "render_block" [EName "_ENV"; EName "_t"; EStr b])
        (RState (install_helpers data) written) =
      render_block call k reg VEnv (VStr fnam) (VStr b)
        (RState (install_helpers data) written).
Proof.
  intros ld fuel fs ctx fnam data ws ctx' reg sk rest body Hp Hc Hm Hf. split.
  - unfold render_file. rewrite Hp.
    unfold call_render_template, render_template.
    rewrite (root_walk_chain reg rest fnam fuel Hc Hf).
    cbn [env out]. rewrite Hm. reflexivity.
  - intros call k b written.
    cbn [exec_stmt eval_args eval env]. unfold lookup_name.
    change (String.eqb "_ENV" "_ENV") with true.
    change (String.eqb "_t" "_ENV") with false.
    change (String.eqb "_t" "_t") with true.
    change (String.eqb "render_block" "_ENV") with false.
    change (String.eqb "render_block" "_t") with false. cbv iota.
    unfold install_helpers.
    rewrite lookup_insert_ne by discriminate. rewrite lookup_insert_eq.
    reflexivity.
Qed.

Lemma render_file_invokes_root_main_witness :
  exists ctx' reg,
    prepare load 8 fs_greeting template_context "child" true = Ready ctx' reg host_sink /\
    chain reg "child" ["base"] /\
    render_file load 8 fs_greeting template_context "child" ∅ true =
    finish ctx' (invoke 8 reg host_sink
                   [SCall "render_block" [EName "_ENV"; EName "_t"; EStr "greeting"]]
                   (Some (VStr "child")) (RState (install_helpers ∅) [])).
Proof.
  eexists. eexists.
  assert (Hp : prepare load 8 fs_greeting template_context "child" true =
               Ready _ _ host_sink) by (vm_compute; reflexivity).
  split; [exact Hp|].
  assert (Hc : chain (<["child" := with_mtime (Some 2)
                          (Template None None
                             {["greeting" := [SCall "print" [ELong "Hello"]]]}
                             (Some "base"))]> greeting_registry)
                 "child" ["base"]).
  { vm_compute. eexists. split; [reflexivity|]. split; [reflexivity|].
    eexists. split; reflexivity. }
  split; [vm_compute; vm_compute in Hc; exact Hc|].
  eapply (fun H1 H2 H3 H4 =>
            proj1 ((render_file_invokes_root_main load) 8 fs_greeting template_context "child"
                     ∅ true _ _ host_sink ["base"] _ H1 H2 H3 H4)).
  - exact Hp.
  - vm_compute; vm_compute in Hc; exact Hc.
  - vm_compute. reflexivity.
  - simpl. lia.
Defined.
Ltac case_key key :=
  match goal with
  | |- context [String.eqb ?s key] => destruct (String.eqb_spec s key) as [<-|?]
  end.

(** C9, as the code has it: [render_clear] is the finalizer ([__gc]) of a
    context and no method; the methods are [renderFile] and [debug].  It
    drops the whole container of the context, the registry with it, and a
    [renderFile] on the context after it raises an error, without output and
    without compiling. *)
Theorem render_clear_is_the_finalizer :
  (forall key, context_index key = Some (CFunction "render_clear") <-> key = "__gc") /\
  (forall key, is_Some (rawget key render_methods) <-> key = "renderFile" \/ key = "debug") /\
  (forall ctx, uservalue (render_clear ctx) = None) /\
  (forall ld fuel fs ctx fnam data ws,
      let r := render_file ld fuel fs (render_clear ctx) fnam data ws in
      (ro_result r = Raised NoContainer \/ ro_result r = Raised (StatFailed fnam)) /\
      ro_out r = [] /\ ro_ctx r = render_clear ctx).
Proof.
  split; [|split; [|split]].
  - intros key. unfold context_index, metatable, render_methods.
    cbn [app rawget].
    repeat (case_key key; [split; intros H; (discriminate H || reflexivity)|]).
    split; [discriminate | congruence].
  - intros key. unfold render_methods. cbn [rawget].
    repeat (case_key key; [split; eauto|]).
    split; [intros [? ?]; discriminate | intros [?|?]; congruence].
  - reflexivity.
  - intros ld fuel fs ctx fnam data ws. unfold render_file, prepare. simpl.
    destruct (fs !! fnam); simpl; auto.
Qed.

Lemma render_clear_is_the_finalizer_witness :
  context_index "__gc" = Some (CFunction "render_clear").
Proof.
  exact (proj2 (proj1 render_clear_is_the_finalizer "__gc") eq_refl).
Defined.

(** C9 as the specification words it fails: the context has no [clear], and
    after [render_clear] the same render raises instead of reproducing the
    output. *)
Lemma clear_not_a_method_and_render_fails_after_it :
  context_index "clear" = None /\
  (let r1 := render_file load 8 fs_greeting template_context "base" ∅ true in
   let r2 := render_file load 8 fs_greeting (render_clear (ro_ctx r1)) "base" ∅ true in
   ro_out r1 = [VStr "Hi"] /\ ro_result r2 = Raised NoContainer /\ ro_out r2 = []).
Proof.
  vm_compute. repeat split; reflexivity.
Qed.

(** ** Compiling never sets [mtime] *)














(** ** Dependencies *)

(** C6 as the specification words it fails: a cached dependency whose file
    has changed is skipped, not recompiled, and the dependencies are taken
    last discovered first. *)
Lemma stale_dependency_is_skipped :
  (mtime <$> registry_of ctx_cached !! "dep") = Some (Some 1) /\
  (st_mtime <$> fs_new !! "dep") = Some 2 /\
  (let r := render_file load 8 fs_new ctx_cached "top" ∅ true in
   ro_result r = Rendered /\ ro_out r = [VStr "old"] /\
   registry_of (ro_ctx r) !! "dep" = registry_of ctx_cached !! "dep") /\
  (r_includes <$> reader "<%! include x %><%! include y %>" "top") = Some ["y"; "x"] /\
  snd (process_file load 8 fs_two "top" (PState [] ∅)) = Failed (CantStat "y").
Proof.
  vm_compute. repeat split; reflexivity.
Qed.

(** ** The dependency walk: depth and cycles *)

Lemma strip_app lit : forall s, strip lit (lit +:+ s) = Some s.
Proof.
  induction lit as [|a lit IH]; intros s; simpl; [destruct s; reflexivity|].
  rewrite Ascii.eqb_refl. apply IH.
Qed.
















(** ** Literal text *)

Lemma app_cons (c : ascii) (a b : string) : String c a +:+ b = String c (a +:+ b).
Proof. reflexivity. Qed.

Lemma app_nil (b : string) : EmptyString +:+ b = b.
Proof. reflexivity. Qed.

Lemma append_assoc (a b c : string) : (a +:+ b) +:+ c = a +:+ (b +:+ c).
Proof.
  induction a as [|x a IH]; [reflexivity|].
  rewrite !app_cons. f_equal. exact IH.
Qed.

Lemma append_nil_r (a : string) : a +:+ EmptyString = a.
Proof.
  induction a as [|x a IH]; [reflexivity|].
  rewrite app_cons. f_equal. exact IH.
Qed.

Lemma reader_loop_literal f :
  forall p st fuel,
    directive_free p = true -> no_char NUL p = true ->
    r_p st = p -> r_state st = s_output -> r_b st = b_body ->
    (String.length p < fuel)%nat ->
    reader_loop fuel f st = Some (set_p EmptyString (set_body (r_body st +:+ p) st)).
Proof.
  induction p as [|c p IH]; intros st fuel Hdf Hnul Hp Hs Hb Hfuel;
    (destruct fuel as [|fuel]; [simpl in Hfuel; lia|]);
    destruct st as [p0 s0 e x bl o cb bd bk b inc fn ov];
    simpl in Hp, Hs, Hb; subst p0 s0 b.
  - simpl. rewrite append_nil_r. reflexivity.
  - cbn [directive_free] in Hdf. apply andb_prop in Hdf as [Hopen Hdf].
    apply negb_true_iff in Hopen.
    unfold no_char in Hnul. cbn [Escape.mem_char] in Hnul.
    apply negb_true_iff in Hnul. apply orb_false_elim in Hnul as [Hc Hnul].
    cbn [reader_loop r_p]. unfold at_end. cbn [deref]. rewrite Ascii.eqb_sym, Hc.
    unfold reader_step. cbn [r_state]. unfold step_output. cbn [r_p].
    rewrite Hopen. cbn [negb]. unfold copy_char, buf_addchar, buf_addstring.
    cbn [r_p r_b deref set_body r_body set_p r_state r_escape r_extends r_block
         r_output r_cb r_blocks r_includes r_fnam r_overrun].
    rewrite (IH _ fuel Hdf); try reflexivity.
    + cbn [r_body]. unfold set_p, set_body. cbn. rewrite append_assoc. reflexivity.
    + unfold no_char. rewrite Hnul. reflexivity.
    + simpl in Hfuel. cbn [r_p]. lia.
Qed.

Ltac reader_fields :=
  cbn [r_p r_state r_escape r_extends r_block r_output r_cb r_body r_blocks
       r_b r_includes r_fnam r_overrun].

Lemma reader_first_step f c t :
  starts "<%" (String c t) = false ->
  reader_step f (reader_init (String c t) f) =
  set_p t (set_body (r_body (reader_init (String c t) f) +:+ "print([["
                     +:+ String c EmptyString)
             (set_output true (set_state s_output (reader_init (String c t) f)))).
Proof.
  intros Hopen. unfold reader_step, reader_init. reader_fields.
  unfold step_initial. reader_fields. rewrite Hopen. cbn [negb andb orb].
  unfold buf_addstring, set_output, set_state, set_body. reader_fields.
  unfold step_output. reader_fields. rewrite Hopen. cbn [negb].
  unfold copy_char, buf_addchar, buf_addstring, set_p, set_body. reader_fields.
  cbn [deref]. rewrite append_assoc. reflexivity.
Qed.

Lemma reader_literal f text :
  (String.length text =? 0)%nat = false ->
  directive_free text = true -> no_char NUL text = true ->
  exists st,
    reader text f = Some st /\
    r_body st = generated_body f text /\
    r_blocks st = "_ENV = ..." +:+ nl /\
    r_includes st = [] /\ r_overrun st = false /\ r_state st = s_terminate.
Proof.
  intros Hlen Hdf Hnul.
  destruct text as [|c t]; [discriminate|].
  cbn [directive_free] in Hdf. apply andb_prop in Hdf as [Hopen Hdf].
  apply negb_true_iff in Hopen.
  unfold no_char in Hnul. cbn [Escape.mem_char] in Hnul.
  apply negb_true_iff in Hnul. apply orb_false_elim in Hnul as [Hc Hnul].
  unfold reader. cbn [reader_loop].
  replace (at_end (r_p (reader_init (String c t) f))) with false
    by (unfold at_end, reader_init; reader_fields; cbn [deref];
        rewrite Ascii.eqb_sym, Hc; reflexivity).
  rewrite (reader_first_step f c t Hopen).
  change (String.length (String c t)) with (S (String.length t)).
  rewrite (reader_loop_literal f t _ (S (String.length t)) Hdf).
  - cbn [fmap option_fmap option_map]. eexists. split; [reflexivity|].
    split; [|repeat split; reflexivity].
    transitivity
      ((((r_body (reader_init (String c t) f) +:+ "print([[" +:+ String c EmptyString) +:+ t)
         +:+ "]])" +:+ nl) +:+ "end" +:+ nl); [reflexivity|].
    unfold reader_init, generated_body. cbn [r_body].
    rewrite !append_assoc. rewrite !app_cons, !app_nil. reflexivity.
  - unfold no_char. rewrite Hnul. reflexivity.
  - reflexivity.
  - reflexivity.
  - reflexivity.
  - lia.
Qed.

Lemma quoted_plain f rest :
  plain_name f = true -> quoted (f +:+ String SQUOTE rest) = Some (f, rest).
Proof.
  unfold plain_name, no_char. intros H.
  apply andb_prop in H as [H Hcr]. apply andb_prop in H as [H Hlf].
  apply andb_prop in H as [Hsq Hbs].
  apply negb_true_iff in Hsq, Hbs, Hlf, Hcr.
  induction f as [|c f IH].
  - rewrite app_nil. cbn [quoted]. rewrite Ascii.eqb_refl. reflexivity.
  - cbn [Escape.mem_char] in Hsq, Hbs, Hlf, Hcr.
    apply orb_false_elim in Hsq as [Hsq1 Hsq].
    apply orb_false_elim in Hbs as [Hbs1 Hbs].
    apply orb_false_elim in Hlf as [Hlf1 Hlf].
    apply orb_false_elim in Hcr as [Hcr1 Hcr].
    rewrite app_cons. cbn [quoted].
    rewrite (Ascii.eqb_sym c SQUOTE), Hsq1.
    rewrite (Ascii.eqb_sym c BACKSLASH), Hbs1.
    rewrite (Ascii.eqb_sym c LF), Hlf1.
    rewrite (Ascii.eqb_sym c CR), Hcr1.
    cbn [orb]. rewrite (IH Hsq Hbs Hlf Hcr). reflexivity.
Qed.

Lemma long_body_plain rest :
  forall text pending,
    pending = None \/ pending = Some CR ->
    no_char CR text = true -> bracket_safe text = true ->
    long_body pending (text +:+ String "]" (String "]" rest)) = Some (text, rest).
Proof.
  induction text as [|c t IH]; intros pending Hp Hcr Hsafe.
  - rewrite app_nil. destruct Hp as [->| ->]; reflexivity.
  - unfold no_char in Hcr. cbn [Escape.mem_char] in Hcr.
    apply negb_true_iff in Hcr. apply orb_false_elim in Hcr as [Hc Hcr].
    rewrite Ascii.eqb_sym in Hc.
    cbn [bracket_safe] in Hsafe. apply andb_prop in Hsafe as [Hb Hsafe].
    apply negb_true_iff in Hb.
    assert (Hcr' : no_char CR t = true) by (unfold no_char; rewrite Hcr; reflexivity).
    assert (Hclose : Ascii.eqb c "]"
                     && Ascii.eqb (deref (t +:+ String "]" (String "]" rest))) "]"
                     = false).
    { destruct (Ascii.eqb c "]"); [|reflexivity]. cbn [andb] in Hb |- *.
      destruct t as [|d t']; [discriminate|].
      rewrite app_cons. cbn [deref]. exact Hb. }
    rewrite app_cons. cbn [long_body]. rewrite Hclose, Hc.
    assert (Hnormal :
              (if Ascii.eqb c LF
               then match long_body (Some CR) (t +:+ String "]" (String "]" rest)) with
                    | Some (t0, rest0) => Some (String LF t0, rest0)
                    | None => None
                    end
               else match long_body None (t +:+ String "]" (String "]" rest)) with
                    | Some (t0, rest0) => Some (String c t0, rest0)
                    | None => None
                    end) = Some (String c t, rest)).
    { destruct (Ascii.eqb_spec c LF) as [->|_].
      - rewrite (IH (Some CR)); auto.
      - rewrite (IH None); auto. }
    destruct Hp as [->| ->]; [exact Hnormal|].
    rewrite Hc. exact Hnormal.
Qed.

Lemma long_string_plain text rest :
  plain_text text = true ->
  long_string (text +:+ String "]" (String "]" rest)) = Some (text, rest).
Proof.
  unfold plain_text. intros H.
  apply andb_prop in H as [H Hsafe]. apply andb_prop in H as [H Hlf].
  apply andb_prop in H as [H Hcr]. apply andb_prop in H as [H Hnul].
  apply andb_prop in H as [Hlen Hdf].
  destruct text as [|c t]; [discriminate|].
  cbn [deref] in Hlf. apply negb_true_iff in Hlf.
  pose proof Hcr as Hcr0.
  unfold no_char in Hcr. cbn [Escape.mem_char] in Hcr.
  apply negb_true_iff in Hcr. apply orb_false_elim in Hcr as [Hc _].
  rewrite Ascii.eqb_sym in Hc.
  rewrite app_cons. cbn [long_string]. rewrite Hlf, Hc.
  rewrite <- app_cons. apply long_body_plain; auto.
Qed.

(** *** Loading the buffer of a literal text *)

Lemma parse_cstmts_template fuel X :
  parse_cstmts (S fuel) (nl +:+ "template['" +:+ X) =
  pbind (parse_template_stmt (S fuel) X)
        (fun c r1 => pbind (parse_cstmts fuel r1) (fun cs r2 => POk (c :: cs) r2)).
Proof. reflexivity. Qed.

Lemma parse_cstmts_end fuel : parse_cstmts (S fuel) nl = POk [] EmptyString.
Proof. reflexivity. Qed.

Lemma parse_template_new fuel f Y :
  plain_name f = true ->
  parse_template_stmt fuel (f +:+ "'] = { blk = {} }" +:+ Y) = POk (CNew f) Y.
Proof.
  intros Hf. unfold parse_template_stmt.
  change (f +:+ "'] = { blk = {} }" +:+ Y)
    with (f +:+ String SQUOTE ("] = { blk = {} }" +:+ Y)).
  rewrite (quoted_plain f _ Hf). cbn [of_option pbind].
  rewrite strip_app. reflexivity.
Qed.

Lemma parse_template_main fuel f Y :
  plain_name f = true ->
  parse_template_stmt fuel (f +:+ "'].main = function(_ENV, _t)" +:+ Y) =
  pbind (parse_body fuel Y) (fun body r2 => POk (CMain f body) r2).
Proof.
  intros Hf. unfold parse_template_stmt.
  change (f +:+ "'].main = function(_ENV, _t)" +:+ Y)
    with (f +:+ String SQUOTE ("].main = function(_ENV, _t)" +:+ Y)).
  rewrite (quoted_plain f _ Hf). cbn [of_option pbind].
  change (strip "] = { blk = {} }" ("].main = function(_ENV, _t)" +:+ Y)) with (@None string).
  cbv iota. rewrite strip_app. reflexivity.
Qed.

Lemma parse_body_print fuel Z :
  parse_body (S fuel) (nl +:+ "print([[" +:+ Z) =
  pbind (parse_args (S fuel) ("[[" +:+ Z))
        (fun args rest1 =>
           pbind (parse_body fuel rest1)
                 (fun body rest2 => POk (SCall "print" args :: body) rest2)).
Proof. reflexivity. Qed.

Lemma parse_body_end fuel : parse_body (S fuel) (nl +:+ "end" +:+ nl) = POk [] nl.
Proof. reflexivity. Qed.

Lemma parse_args_long fuel Z :
  parse_args (S (S fuel)) ("[[" +:+ Z) =
  pbind (pbind (of_option (long_string Z)) (fun t rest => POk (ELong t) rest))
        (fun e rest => pbind (parse_more (S fuel) rest)
                             (fun es rest' => POk (e :: es) rest')).
Proof. reflexivity. Qed.

Lemma parse_more_close fuel Y : parse_more (S fuel) (")" +:+ Y) = POk [] Y.
Proof. reflexivity. Qed.

Lemma parse_generated f text fuel :
  plain_name f = true -> plain_text text = true ->
  parse_cstmts (S (S (S (S fuel))))
    (nl +:+ "template['" +:+ f +:+ "'] = { blk = {} }" +:+ nl
     +:+ "template['" +:+ f +:+ "'].main = function(_ENV, _t)" +:+ nl
     +:+ "print([[" +:+ text +:+ "]])" +:+ nl +:+ "end" +:+ nl) =
  POk [CNew f; CMain f [SCall "print" [ELong text]]] EmptyString.
Proof.
  intros Hf Ht.
  rewrite parse_cstmts_template, (parse_template_new _ f _ Hf). cbn [pbind].
  rewrite parse_cstmts_template, (parse_template_main _ f _ Hf).
  rewrite parse_body_print, parse_args_long.
  change (text +:+ "]])" +:+ nl +:+ "end" +:+ nl)
    with (text +:+ String "]" (String "]" (")" +:+ nl +:+ "end" +:+ nl))).
  rewrite (long_string_plain text _ Ht). cbn [of_option pbind].
  rewrite parse_more_close. cbn [pbind].
  rewrite parse_body_end. cbn [pbind].
  rewrite parse_cstmts_end. reflexivity.
Qed.

Lemma length_append (a b : string) :
  String.length (a +:+ b) = (String.length a + String.length b)%nat.
Proof.
  induction a as [|c a IH]; [reflexivity|].
  rewrite app_cons. cbn [String.length]. rewrite IH. reflexivity.
Qed.

Lemma load_generated_body f text :
  plain_name f = true -> plain_text text = true ->
  load (generated_body f text) = Loaded [CNew f; CMain f [SCall "print" [ELong text]]].
Proof.
  intros Hf Ht. unfold load, generated_body. rewrite strip_app.
  assert (Hlen : exists k,
             String.length ("_ENV = ..." +:+ nl +:+ "template['" +:+ f
               +:+ "'] = { blk = {} }" +:+ nl +:+ "template['" +:+ f
               +:+ "'].main = function(_ENV, _t)" +:+ nl +:+ "print([[" +:+ text
               +:+ "]])" +:+ nl +:+ "end" +:+ nl) = S (S (S k))).
  { rewrite length_append. cbn [String.length]. eexists. reflexivity. }
  destruct Hlen as [k ->].
  rewrite (parse_generated f text k Hf Ht). reflexivity.
Qed.

Lemma plain_text_parts text :
  plain_text text = true ->
  (String.length text =? 0)%nat = false /\ directive_free text = true /\
  no_char NUL text = true.
Proof.
  unfold plain_text. intros H.
  apply andb_prop in H as [H _]. apply andb_prop in H as [H _].
  apply andb_prop in H as [H _]. apply andb_prop in H as [H Hnul].
  apply andb_prop in H as [Hlen Hdf]. apply negb_true_iff in Hlen. auto.
Qed.

Lemma mapping_ends_size text :
  (N.of_nat (String.length text) mod PAGESIZE)%N <> 0%N -> mapping_ends text = true.
Proof.
  intros H. unfold mapping_ends. apply orb_true_iff. right.
  apply negb_true_iff, N.eqb_neq. exact H.
Qed.

Lemma process_file_literal fuel fs f m text st :
  plain_text text = true -> plain_name f = true ->
  mapping_ends text = true ->
  resolve fs f = Some (File m true text) ->
  process_file load (S fuel) fs f st =
  (PState (ps_ihead st)
     (<[f := with_main (Some [SCall "print" [ELong text]]) new_template]>
        (<[f := new_template]> (ps_template st))),
   Compiled).
Proof.
  intros Ht Hf Hends Hres.
  destruct (plain_text_parts text Ht) as (Hlen & Hdf & Hnul).
  destruct (reader_literal f text Hlen Hdf Hnul)
    as (r & Hr & Hbody & Hblocks & Hinc & Hover & _).
  cbn [process_file]. rewrite Hres. cbn [readable contents negb].
  rewrite Hlen, Hends. cbn [negb]. rewrite Hr, Hover.
  unfold run_buffers. rewrite Hbody, Hblocks.
  rewrite (load_generated_body f text Hf Ht).
  change (load ("_ENV = ..." +:+ nl)) with (Loaded []).
  cbn [exec_chunk exec_cstmt]. rewrite lookup_insert_eq.
  rewrite Hinc. cbn [walk_includes ps_ihead ps_template tail]. reflexivity.
Qed.

Lemma lookup_print data : install_helpers data !! "print" = Some VPrint.
Proof.
  unfold install_helpers.
  rewrite !lookup_insert_ne by discriminate. apply lookup_insert_eq.
Qed.

(** C8 as the specification words it fails: the engine drops a line feed
    that comes right after the opening long brackets, and a text with closing
    brackets ends the literal early, so that the buffer does not load. *)
Lemma literal_text_is_not_always_reproduced :
  directive_free (String LF "X") = true /\ directive_free "a]]b" = true /\
  (let r := render_file load 8 fs_literal template_context "newline" ∅ true in
   ro_result r = Rendered /\ output_text (ro_out r) = "X" /\
   output_text (ro_out r) <> String LF "X") /\
  (let r := render_file load 8 fs_literal template_context "brackets" ∅ true in
   ro_result r = Raised (ProcessingFailed LoadError) /\ ro_out r = []).
Proof.
  vm_compute. repeat split; try reflexivity. discriminate.
Qed.

(** C8, as the code has it.  A text without directive is written to the sink
    character for character when it is not empty, has no NUL and no carriage
    return, does not begin with a line feed, has no closing bracket followed
    by a closing bracket or by its end, and has a size that is not a multiple
    of the page size (so that its mapping ends with a zero byte); the name of
    the template has no quote, backslash or line break, no file of that name
    is under [custom/], and the context has no entry for the template yet. *)
Theorem literal_template_renders_itself :
  forall fuel fs ctx c f m text data ws,
    plain_text text = true ->
    (N.of_nat (String.length text) mod PAGESIZE)%N <> 0%N ->
    plain_name f = true ->
    fs !! ("custom/" +:+ f) = None ->
    fs !! f = Some (File m true text) ->
    uservalue ctx = Some c ->
    c_template c !! f = None ->
    (1 <= fuel)%nat ->
    let r := render_file load fuel fs ctx f data ws in
    ro_result r = Rendered /\ ro_out r = [VStr text] /\
    output_text (ro_out r) = text.
Proof.
  intros fuel fs ctx c f m text data ws Ht Hsize Hf Hcustom Hfile Hu Hnone Hfuel.
  destruct fuel as [|fuel]; [lia|].
  assert (Hres : resolve fs f = Some (File m true text))
    by (unfold resolve; rewrite Hcustom; exact Hfile).
  assert (Hr : render_file load (S fuel) fs ctx f data ws =
               RenderOutcome
                 (context_with ctx (ihead ctx)
                    (<[f := with_mtime (Some m)
                              (with_main (Some [SCall "print" [ELong text]]) new_template)]>
                       (<[f := with_main (Some [SCall "print" [ELong text]]) new_template]>
                          (<[f := new_template]> (c_template c))))
                    (if ws then host_sink else io_write))
                 (install_helpers data) [VStr text] Rendered).
  { unfold render_file, prepare. rewrite Hfile, Hu, Hnone. cbn iota beta. rewrite Hnone.
    rewrite (process_file_literal fuel fs f m text _ Ht Hf (mapping_ends_size _ Hsize)
               Hres).
    cbn [ps_template ps_ihead]. rewrite lookup_insert_eq. cbn [st_mtime].
    unfold call_render_template, render_template.
    cbn [root_walk]. rewrite lookup_insert_eq.
    cbn [with_mtime with_main new_template extends main mbind option_bind].
    rewrite lookup_insert_eq.
    cbn [with_mtime with_main new_template extends main mbind option_bind].
    cbn [invoke exec_body exec_stmt eval_args eval env out].
    unfold lookup_name.
    change (String.eqb "print" "_ENV") with false.
    change (String.eqb "print" "_t") with false. cbv iota.
    rewrite lookup_print. cbn [default].
    unfold do_print. destruct ws; reflexivity. }
  cbv zeta. rewrite Hr. cbn [ro_result ro_out output_text].
  rewrite append_nil_r. auto.
Qed.

Lemma literal_template_renders_itself_witness :
  ro_out (render_file load 8 fs_unterminated template_context "Hello" ∅ true) =
  [VStr "Hello"].
Proof.
  assert (H1 : plain_text "Hello" = true) by (vm_compute; reflexivity).
  assert (H2 : plain_name "Hello" = true) by (vm_compute; reflexivity).
  assert (H0 : (N.of_nat (String.length "Hello") mod PAGESIZE)%N <> 0%N)
    by (vm_compute; discriminate).
  assert (H3 : fs_unterminated !! ("custom/" +:+ "Hello") = None)
    by (vm_compute; reflexivity).
  assert (H4 : fs_unterminated !! "Hello" = Some (File 1 true "Hello"))
    by (vm_compute; reflexivity).
  assert (H5 : uservalue template_context = Some (Container ∅ None)) by reflexivity.
  assert (H6 : c_template (Container ∅ None) !! "Hello" = None) by reflexivity.
  assert (H7 : (1 <= 8)%nat) by lia.
  exact (proj1 (proj2 (literal_template_renders_itself 8 fs_unterminated
                         template_context _ "Hello" 1 "Hello" ∅ true
                         H1 H0 H2 H3 H4 H5 H6 H7))).
Defined.

(** ** The scanner's loop ends *)

Ltac setter_fields :=
  repeat match goal with
    | |- context [r_p (?f ?v ?s)] =>
        first [ change (r_p (f v s)) with (r_p s) | change (r_p (f v s)) with v ]
    | |- context [r_state (?f ?v ?s)] =>
        first [ change (r_state (f v s)) with (r_state s)
              | change (r_state (f v s)) with v ]
    end.

Lemma rp_buf_addstring x s : r_p (buf_addstring x s) = r_p s.
Proof. unfold buf_addstring. destruct (r_b s); reflexivity. Qed.

Lemma rs_buf_addstring x s : r_state (buf_addstring x s) = r_state s.
Proof. unfold buf_addstring. destruct (r_b s); reflexivity. Qed.

Lemma rp_buf_addchar x s : r_p (buf_addchar x s) = r_p s.
Proof. apply rp_buf_addstring. Qed.

Lemma rs_buf_addchar x s : r_state (buf_addchar x s) = r_state s.
Proof. apply rs_buf_addstring. Qed.

Lemma rp_close_braces n : forall s, r_p (close_braces n s) = r_p s.
Proof.
  induction n as [|n IH]; intros s; cbn [close_braces]; [reflexivity|].
  rewrite IH. apply rp_buf_addchar.
Qed.

Lemma rs_close_braces n : forall s, r_state (close_braces n s) = r_state s.
Proof.
  induction n as [|n IH]; intros s; cbn [close_braces]; [reflexivity|].
  rewrite IH. apply rs_buf_addchar.
Qed.

Lemma rp_open_print e s : r_p (open_print e s) = r_p s.
Proof.
  unfold open_print.
  repeat (destruct (_ =? _); [setter_fields; apply rp_buf_addstring|]).
  apply rp_buf_addstring.
Qed.

Lemma rs_open_print e s : r_state (open_print e s) = r_state s.
Proof.
  unfold open_print.
  repeat (destruct (_ =? _); [setter_fields; apply rs_buf_addstring|]).
  apply rs_buf_addstring.
Qed.

Lemma rp_record_include n s : r_p (record_include n s) = r_p s.
Proof. unfold record_include. case_bool_decide; reflexivity. Qed.

Lemma rs_record_include n s : r_state (record_include n s) = r_state s.
Proof. unfold record_include. case_bool_decide; reflexivity. Qed.

Lemma rp_parse_name k s :
  r_p (parse_name k s) = snd (fst (read_name (advance k (r_p s)))).
Proof.
  unfold parse_name. destruct (read_name (advance k (r_p s))) as [[nm rest] full].
  destruct full; reflexivity.
Qed.

Lemma rs_parse_name k s : r_state (parse_name k s) = r_state s.
Proof.
  unfold parse_name. destruct (read_name (advance k (r_p s))) as [[nm rest] full].
  destruct full; reflexivity.
Qed.

Lemma rp_copy_char s : r_p (copy_char s) = advance 1 (r_p s).
Proof.
  unfold copy_char.
  pose proof (rp_buf_addchar (deref (r_p s)) s) as H1.
  destruct (r_p s) as [|a p'] eqn:E; setter_fields; [rewrite H1|]; reflexivity.
Qed.

Lemma rs_copy_char s : r_state (copy_char s) = r_state s.
Proof.
  unfold copy_char.
  pose proof (rs_buf_addchar (deref (r_p s)) s) as H2.
  destruct (r_p s) as [|a p'] eqn:E; setter_fields; rewrite H2; reflexivity.
Qed.

Lemma rp_read_fnam s : r_p (read_fnam s) = r_p s.
Proof. unfold read_fnam. destruct (r_fnam s); reflexivity. Qed.

Lemma rs_read_fnam s : r_state (read_fnam s) = r_state s.
Proof. unfold read_fnam. destruct (r_fnam s); reflexivity. Qed.

Create Rewrite HintDb scanner.

#[local] Hint Rewrite rp_buf_addstring rs_buf_addstring rp_buf_addchar rs_buf_addchar
  rp_close_braces rs_close_braces rp_open_print rs_open_print rp_record_include
  rs_record_include rp_parse_name rs_parse_name rp_copy_char rs_copy_char
  rp_read_fnam rs_read_fnam : scanner.

Ltac scanner_fields := repeat (progress (setter_fields; autorewrite with scanner)).

Lemma advance_len n : forall p, String.length (advance n p) = (String.length p - n)%nat.
Proof.
  induction n as [|n IH]; intros [|c p]; cbn [advance String.length]; try lia.
  rewrite IH. lia.
Qed.

Lemma starts_len lit : forall p, starts lit p = true -> (String.length lit <= String.length p)%nat.
Proof.
  unfold starts. induction lit as [|a lit IH]; intros p H; cbn [String.length]; [lia|].
  destruct p as [|b p]; cbn [String.prefix] in H; [discriminate|].
  destruct (ascii_dec a b); [|discriminate].
  cbn [String.length]. specialize (IH p H). lia.
Qed.

Lemma skip_spaces_len p : (String.length (skip_spaces p) <= String.length p)%nat.
Proof.
  induction p as [|c p IH]; cbn [skip_spaces String.length]; [lia|].
  destruct (isspace c); cbn [String.length]; lia.
Qed.

Lemma find_close_len p : (String.length (find_close p) <= String.length p)%nat.
Proof.
  induction p as [|c p IH]; cbn [find_close String.length]; [lia|].
  destruct (Ascii.eqb c NUL); [cbn [String.length]; lia|].
  destruct (starts "%>" (String c p)); cbn [String.length]; lia.
Qed.

Lemma after_close_len p : (String.length (after_close p) <= String.length p)%nat.
Proof.
  unfold after_close. pose proof (find_close_len p).
  destruct (at_end (find_close p)); [lia|]. rewrite advance_len. lia.
Qed.

Lemma after_close_lt p :
  at_end p = false -> (String.length (after_close p) < String.length p)%nat.
Proof.
  unfold after_close, at_end. destruct p as [|c p]; [discriminate|].
  cbn [deref find_close]. intros Hc. rewrite Hc.
  destruct (starts "%>" (String c p)) eqn:Hs.
  - cbn [deref]. rewrite Hc. rewrite advance_len.
    apply starts_len in Hs. cbn [String.length] in *. lia.
  - pose proof (find_close_len p).
    destruct (Ascii.eqb (deref (find_close p)) NUL);
      [|rewrite advance_len]; cbn [String.length]; lia.
Qed.

Lemma take_format_len p : (String.length (snd (take_format p)) <= String.length p)%nat.
Proof.
  induction p as [|c p IH]; cbn [take_format snd String.length]; [lia|].
  destruct (Ascii.eqb c NUL || isspace c); cbn [snd String.length]; [lia|].
  destruct (take_format p); cbn [snd] in *. lia.
Qed.

Lemma scan_quoted_len p :
  forall n, (String.length (snd (fst (scan_quoted p n))) <= String.length p)%nat.
Proof.
  induction p as [|c p IH]; intros n; cbn [scan_quoted fst snd String.length]; [lia|].
  destruct (Ascii.eqb c NUL || Ascii.eqb c DQUOTE || Ascii.eqb c SQUOTE
            || negb (n <? MAXPATHLEN));
    cbn [fst snd String.length]; [lia|].
  specialize (IH (n + 1)). destruct (scan_quoted p (n + 1)) as [[? ?] ?].
  cbn [fst snd] in *. lia.
Qed.

Lemma scan_bare_len p :
  forall n, (String.length (snd (fst (scan_bare p n))) <= String.length p)%nat.
Proof.
  induction p as [|c p IH]; intros n; cbn [scan_bare fst snd String.length]; [lia|].
  destruct (Ascii.eqb c NUL || isspace c || Ascii.eqb c "%" && Ascii.eqb (deref p) ">"
            || negb (n <? MAXPATHLEN));
    cbn [fst snd String.length]; [lia|].
  specialize (IH (n + 1)). destruct (scan_bare p (n + 1)) as [[? ?] ?].
  cbn [fst snd] in *. lia.
Qed.

Lemma read_name_len p :
  (String.length (snd (fst (read_name p))) <= String.length p)%nat.
Proof.
  unfold read_name. pose proof (skip_spaces_len p).
  destruct (Ascii.eqb (deref (skip_spaces p)) DQUOTE
            || Ascii.eqb (deref (skip_spaces p)) SQUOTE).
  - pose proof (scan_quoted_len (advance 1 (skip_spaces p)) 0).
    rewrite advance_len in *. lia.
  - pose proof (scan_bare_len (skip_spaces p) 0). lia.
Qed.

Lemma at_end_length p : at_end p = false -> (0 < String.length p)%nat.
Proof. destruct p; [discriminate|]. cbn [String.length]. lia. Qed.

Lemma step_code_spec s :
  live (r_state s) = true ->
  live (r_state (step_code s)) = true /\
  (String.length (r_p (step_code s)) <= String.length (r_p s))%nat /\
  (at_end (r_p s) = false ->
   (String.length (r_p (step_code s)) < String.length (r_p s))%nat).
Proof.
  intros Hlive. unfold step_code.
  destruct (starts "%>" (r_p s)) eqn:Hs; cbn [negb]; scanner_fields.
  - apply starts_len in Hs. cbn [String.length] in Hs.
    rewrite advance_len. repeat split; try reflexivity; lia.
  - rewrite advance_len. repeat split; [assumption|lia|].
    intros He. apply at_end_length in He. lia.
Qed.

Lemma step_expression_spec s :
  live (r_state s) = true ->
  at_end (r_p s) = false ->
  live (r_state (step_expression s)) = true /\
  (String.length (r_p (step_expression s)) < String.length (r_p s))%nat.
Proof.
  intros Hlive He. apply at_end_length in He. unfold step_expression.
  destruct (starts "%>" (r_p s)) eqn:Hs; cbn [negb]; scanner_fields.
  - apply starts_len in Hs. cbn [String.length] in Hs.
    rewrite advance_len. split; [reflexivity|lia].
  - rewrite advance_len. split; [assumption|lia].
Qed.

Lemma mode_tag_len p e : (String.length (fst (mode_tag p e)) <= String.length p)%nat.
Proof.
  unfold mode_tag.
  repeat (destruct (starts _ p); [cbn [fst]; rewrite advance_len; lia|]).
  cbn [fst]. lia.
Qed.

Lemma step_output_spec s :
  at_end (r_p s) = false ->
  live (r_state s) = true ->
  live (r_state (step_output s)) = true /\
  (String.length (r_p (step_output s)) < String.length (r_p s))%nat.
Proof.
  intros He Hlive. pose proof (at_end_length _ He) as Hpos. unfold step_output.
  destruct (starts "<%" (r_p s)) eqn:Hs; cbn [negb].
  - apply starts_len in Hs. cbn [String.length] in Hs.
    set (st1 := if r_output s then _ else s).
    assert (Hp1 : r_p st1 = r_p s)
      by (subst st1; destruct (r_output s); scanner_fields; reflexivity).
    pose proof (advance_len 2 (r_p s)) as Ha2.
    destruct (Ascii.eqb (deref (advance 2 (r_p s))) "=").
    + pose proof (mode_tag_len (advance 1 (advance 2 (r_p s))) (r_escape st1)) as Hm.
      destruct (mode_tag (advance 1 (advance 2 (r_p s))) (r_escape st1)) as [p2 et].
      cbn [fst] in Hm. rewrite advance_len in Hm.
      destruct (Ascii.eqb (deref p2) "%").
      * pose proof (take_format_len p2) as Ht.
        destruct (take_format p2) as [fm rest]. cbn [snd] in Ht.
        scanner_fields. pose proof (skip_spaces_len rest).
        split; [reflexivity|lia].
      * scanner_fields. pose proof (skip_spaces_len p2).
        split; [reflexivity|lia].
    + destruct (Ascii.eqb (deref (advance 2 (r_p s))) "!").
      * scanner_fields.
        pose proof (skip_spaces_len (advance 1 (advance 2 (r_p s)))) as Hk.
        rewrite advance_len in Hk. split; [reflexivity|lia].
      * pose proof (skip_spaces_len (advance 2 (r_p s))) as Hk.
        destruct (step_code_spec
                    (set_p (skip_spaces (advance 2 (r_p s))) (set_state s_code st1))
                    eq_refl) as (Hl & Hle & _).
        split; [exact Hl|].
        change (r_p (set_p (skip_spaces (advance 2 (r_p s))) (set_state s_code st1)))
          with (skip_spaces (advance 2 (r_p s))) in Hle.
        lia.
  - scanner_fields. rewrite advance_len. split; [assumption|lia].
Qed.

Lemma step_initial_spec s :
  r_p (step_initial s) = r_p s /\ r_state (step_initial s) = s_output.
Proof.
  unfold step_initial.
  destruct (negb (starts "<%" (r_p s)) && (negb (r_extends s) || r_extends s && r_block s));
    scanner_fields; split; reflexivity.
Qed.

Lemma step_instruction_spec f s :
  at_end (r_p s) = false ->
  live (r_state (step_instruction f s)) = true /\
  (String.length (r_p (step_instruction f s)) < String.length (r_p s))%nat.
Proof.
  intros He. unfold step_instruction.
  set (st1 := if starts "include" (r_p s) then _ else _).
  fold (after_close (r_p st1)). scanner_fields. split; [reflexivity|].
  pose proof (after_close_len (r_p st1)) as Hclose.
  assert (Hcases : r_p st1 = r_p s \/ (String.length (r_p st1) < String.length (r_p s))%nat).
  { subst st1.
    destruct (starts "include" (r_p s)) eqn:H1.
    { right. apply starts_len in H1. cbn [String.length] in H1. scanner_fields.
      pose proof (read_name_len (advance 7 (r_p s))) as Hn.
      rewrite advance_len in Hn. lia. }
    destruct (starts "escape" (r_p s)) eqn:H2.
    { right. apply starts_len in H2. cbn [String.length] in H2.
      pose proof (skip_spaces_len (advance 6 (r_p s))) as Hk.
      rewrite advance_len in Hk.
      repeat (destruct (starts _ (skip_spaces (advance 6 (r_p s))));
              [scanner_fields; rewrite advance_len; lia|]).
      scanner_fields. lia. }
    destruct (starts "block" (r_p s)) eqn:H3.
    { right. apply starts_len in H3. cbn [String.length] in H3.
      pose proof (read_name_len (advance 5 (r_p s))) as Hn.
      rewrite advance_len in Hn.
      destruct (negb (r_extends (set_b b_blocks (parse_name 5 s))));
        scanner_fields; lia. }
    destruct (starts "endblock" (r_p s)) eqn:H4.
    { right. apply starts_len in H4. cbn [String.length] in H4.
      repeat match goal with
             | |- context [if ?b then _ else _] => destruct b
             end; scanner_fields; rewrite advance_len; lia. }
    destruct (starts "extends" (r_p s)) eqn:H5.
    { right. apply starts_len in H5. cbn [String.length] in H5.
      destruct (negb (r_extends s)); scanner_fields;
        match goal with
        | |- context [read_name (advance 7 ?p)] =>
            pose proof (read_name_len (advance 7 p)) as Hn;
            rewrite advance_len in Hn
        end; lia. }
    left. reflexivity. }
  destruct Hcases as [Heq|Hlt]; [|lia].
  rewrite Heq. apply after_close_lt. exact He.
Qed.

Lemma reader_step_spec f s :
  at_end (r_p s) = false ->
  live (r_state s) = true ->
  live (r_state (reader_step f s)) = true /\
  (String.length (r_p (reader_step f s)) < String.length (r_p s))%nat.
Proof.
  intros He Hlive. unfold reader_step.
  destruct (r_state s) eqn:Hs; try discriminate.
  - destruct (step_initial_spec s) as [Hp Hst].
    destruct (step_output_spec (step_initial s)) as [H1 H2].
    + rewrite Hp. exact He.
    + rewrite Hst. reflexivity.
    + rewrite Hp in H2. auto.
  - apply step_output_spec; [exact He|rewrite Hs; reflexivity].
  - destruct (step_code_spec s) as (H1 & _ & H3); [rewrite Hs; reflexivity|]. auto.
  - apply step_expression_spec; [rewrite Hs; reflexivity|exact He].
  - apply step_instruction_spec. exact He.
Qed.

(** The loop of [reader] ends before its fuel does: every pass through the
    [switch] takes at least one character. *)
Lemma reader_loop_total f :
  forall fuel s,
    live (r_state s) = true ->
    (String.length (r_p s) < fuel)%nat ->
    exists s', reader_loop fuel f s = Some s'.
Proof.
  induction fuel as [|fuel IH]; intros s Hlive Hfuel; [lia|].
  cbn [reader_loop]. destruct (at_end (r_p s)) eqn:He; [eauto|].
  destruct (reader_step_spec f s He Hlive) as [Hl Hlen].
  apply IH; [exact Hl|lia].
Qed.

Lemma reader_total p f : exists s, reader p f = Some s.
Proof.
  unfold reader.
  destruct (reader_loop_total f (S (String.length p)) (reader_init p f)) as [s' Hs'].
  - reflexivity.
  - unfold reader_init. cbn [r_p]. lia.
  - rewrite Hs'. eauto.
Qed.

(** ** The escape tables *)

Lemma lt_escape_table escape c : lt_escape escape c = scan_table (table_of escape) c.
Proof.
  unfold lt_escape, table_of. repeat (destruct (_ =? _); [reflexivity|]). reflexivity.
Qed.

Lemma scan_table_substitution esc c s :
  scan_table esc c = Some s -> s ∈ substitutions esc.
Proof.
  induction esc as [|e rest IH]; cbn [scan_table substitutions]; [discriminate|].
  destruct (ent_escape e) as [t|]; [|discriminate].
  destruct (Ascii.eqb (ent_c e) c).
  - intros H; inversion H; subst. left.
  - intros H. right. apply IH. exact H.
Qed.

Lemma scan_table_unscan esc c s :
  NoDup (substitutions esc) ->
  scan_table esc c = Some s -> unscan_table esc s = Some c.
Proof.
  induction esc as [|e rest IH]; cbn [scan_table substitutions unscan_table];
    [discriminate|].
  destruct (ent_escape e) as [t|]; [|discriminate].
  intros Hnd. apply NoDup_cons in Hnd as [Hnin Hnd].
  destruct (Ascii.eqb_spec (ent_c e) c) as [->|Hne].
  - intros H; inversion H; subst. rewrite String.eqb_refl. reflexivity.
  - intros H. destruct (String.eqb_spec t s) as [->|_].
    + exfalso. apply Hnin. eapply scan_table_substitution. exact H.
    + apply IH; assumption.
Qed.

Lemma tables_distinct escape : NoDup (substitutions (table_of escape)).
Proof.
  unfold table_of.
  repeat (destruct (_ =? _); [apply (bool_decide_unpack _); vm_compute; reflexivity|]).
  apply NoDup_nil_2.
Qed.

(** X14. [lt_escape] gives no substitution in the mode none and in any mode that
    is not one of the four with a table ([default: return NULL]); and in
    every mode it gives none for the character NUL, on which the walk runs
    into the sentinel of the table. *)
Theorem lt_escape_without_substitution :
  (forall escape c,
      escape <> e_html -> escape <> e_xml -> escape <> e_url -> escape <> e_latex ->
      lt_escape escape c = None) /\
  (forall escape, lt_escape escape NUL = None).
Proof.
  split.
  - intros escape c H1 H2 H3 H4. unfold lt_escape.
    destruct (Z.eqb_spec escape e_html); [contradiction|].
    destruct (Z.eqb_spec escape e_xml); [contradiction|].
    destruct (Z.eqb_spec escape e_url); [contradiction|].
    destruct (Z.eqb_spec escape e_latex); [contradiction|]. reflexivity.
  - intros escape. unfold lt_escape.
    repeat (destruct (_ =? _); [reflexivity|]). reflexivity.
Qed.

Lemma lt_escape_without_substitution_witness : lt_escape e_none "<"%char = None.
Proof.
  exact (proj1 lt_escape_without_substitution e_none "<"%char
           ltac:(discriminate) ltac:(discriminate) ltac:(discriminate)
           ltac:(discriminate)).
Defined.

(** X15. Within a mode no two characters have the same substitution:
    [lt_escape] is injective on the characters it substitutes. *)
Theorem lt_escape_is_injective :
  forall escape c1 c2 s,
    lt_escape escape c1 = Some s -> lt_escape escape c2 = Some s -> c1 = c2.
Proof.
  intros escape c1 c2 s H1 H2. rewrite lt_escape_table in H1, H2.
  pose proof (scan_table_unscan _ _ _ (tables_distinct escape) H1) as U1.
  pose proof (scan_table_unscan _ _ _ (tables_distinct escape) H2) as U2.
  congruence.
Qed.

Lemma lt_escape_is_injective_witness : "<"%char = ascii_of_nat 60.
Proof.
  exact (lt_escape_is_injective e_html "<"%char (ascii_of_nat 60) "&lt;" eq_refl eq_refl).
Defined.

(** X16. What the modes html and xml put in place of a character holds none of
    the characters that open or close markup or an attribute value: no
    [<], [>], double or single quote. *)
Theorem entity_substitutions_are_markup_free :
  forall escape c s,
    escape = e_html \/ escape = e_xml ->
    lt_escape escape c = Some s -> markup_free s = true.
Proof.
  intros escape c s He H. rewrite lt_escape_table in H.
  apply scan_table_substitution in H.
  assert (Hall : forallb markup_free (substitutions (table_of escape)) = true)
    by (destruct He as [->| ->]; vm_compute; reflexivity).
  rewrite forallb_forall in Hall. apply Hall. apply list_elem_of_In. exact H.
Qed.

Lemma entity_substitutions_are_markup_free_witness : markup_free "&quot;" = true.
Proof.
  exact (entity_substitutions_are_markup_free e_xml DQUOTE "&quot;"
           (or_intror eq_refl) eq_refl).
Defined.
(** ** The scanner: what every pass keeps *)

(** The branches of [case s_instruction], in the order of the code. *)
Ltac instruction_cases s :=
  destruct (starts "include" (r_p s));
  [|destruct (starts "escape" (r_p s));
    [|destruct (starts "block" (r_p s));
      [|destruct (starts "endblock" (r_p s));
        [|destruct (starts "extends" (r_p s))]]]].

Ltac frame_setters :=
  repeat match goal with
    | |- context [r_escape (?f ?v ?s)] =>
        first [ change (r_escape (f v s)) with (r_escape s)
              | change (r_escape (f v s)) with v ]
    | |- context [r_includes (?f ?v ?s)] =>
        first [ change (r_includes (f v s)) with (r_includes s)
              | change (r_includes (f v s)) with v ]
    | |- context [r_extends (?f ?v ?s)] =>
        first [ change (r_extends (f v s)) with (r_extends s)
              | change (r_extends (f v s)) with v ]
    end.

Lemma re_buf_addstring x s : r_escape (buf_addstring x s) = r_escape s.
Proof. unfold buf_addstring. destruct (r_b s); reflexivity. Qed.

Lemma ri_buf_addstring x s : r_includes (buf_addstring x s) = r_includes s.
Proof. unfold buf_addstring. destruct (r_b s); reflexivity. Qed.

Lemma re_buf_addchar x s : r_escape (buf_addchar x s) = r_escape s.
Proof. apply re_buf_addstring. Qed.

Lemma ri_buf_addchar x s : r_includes (buf_addchar x s) = r_includes s.
Proof. apply ri_buf_addstring. Qed.

Lemma re_close_braces n : forall s, r_escape (close_braces n s) = r_escape s.
Proof.
  induction n as [|n IH]; intros s; cbn [close_braces]; [reflexivity|].
  rewrite IH. apply re_buf_addchar.
Qed.

Lemma ri_close_braces n : forall s, r_includes (close_braces n s) = r_includes s.
Proof.
  induction n as [|n IH]; intros s; cbn [close_braces]; [reflexivity|].
  rewrite IH. apply ri_buf_addchar.
Qed.

Lemma re_open_print e s : r_escape (open_print e s) = r_escape s.
Proof.
  unfold open_print.
  repeat (destruct (_ =? _); [frame_setters; apply re_buf_addstring|]).
  apply re_buf_addstring.
Qed.

Lemma ri_open_print e s : r_includes (open_print e s) = r_includes s.
Proof.
  unfold open_print.
  repeat (destruct (_ =? _); [frame_setters; apply ri_buf_addstring|]).
  apply ri_buf_addstring.
Qed.

Lemma re_record_include n s : r_escape (record_include n s) = r_escape s.
Proof. unfold record_include. case_bool_decide; reflexivity. Qed.

Lemma re_parse_name k s : r_escape (parse_name k s) = r_escape s.
Proof.
  unfold parse_name. destruct (read_name (advance k (r_p s))) as [[nm rest] full].
  destruct full; reflexivity.
Qed.

Lemma ri_parse_name k s : r_includes (parse_name k s) = r_includes s.
Proof.
  unfold parse_name. destruct (read_name (advance k (r_p s))) as [[nm rest] full].
  destruct full; reflexivity.
Qed.

Lemma re_copy_char s : r_escape (copy_char s) = r_escape s.
Proof.
  unfold copy_char.
  pose proof (re_buf_addchar (deref (r_p s)) s) as H.
  destruct (r_p s); frame_setters; exact H.
Qed.

Lemma ri_copy_char s : r_includes (copy_char s) = r_includes s.
Proof.
  unfold copy_char.
  pose proof (ri_buf_addchar (deref (r_p s)) s) as H.
  destruct (r_p s); frame_setters; exact H.
Qed.

Lemma re_read_fnam s : r_escape (read_fnam s) = r_escape s.
Proof. unfold read_fnam. destruct (r_fnam s); reflexivity. Qed.

Lemma ri_read_fnam s : r_includes (read_fnam s) = r_includes s.
Proof. unfold read_fnam. destruct (r_fnam s); reflexivity. Qed.

Create Rewrite HintDb frame.

#[local] Hint Rewrite re_buf_addstring ri_buf_addstring re_buf_addchar ri_buf_addchar
  re_close_braces ri_close_braces re_open_print ri_open_print re_record_include
  re_parse_name ri_parse_name re_copy_char ri_copy_char re_read_fnam ri_read_fnam
  : frame.

Ltac frame_fields := repeat (progress (frame_setters; autorewrite with frame)).

Lemma re_step_initial s : r_escape (step_initial s) = r_escape s.
Proof. unfold step_initial. destruct (_ && _); frame_fields; reflexivity. Qed.

Lemma ri_step_initial s : r_includes (step_initial s) = r_includes s.
Proof. unfold step_initial. destruct (_ && _); frame_fields; reflexivity. Qed.

Lemma re_step_code s : r_escape (step_code s) = r_escape s.
Proof. unfold step_code. destruct (negb _); frame_fields; reflexivity. Qed.

Lemma ri_step_code s : r_includes (step_code s) = r_includes s.
Proof. unfold step_code. destruct (negb _); frame_fields; reflexivity. Qed.

Lemma re_step_expression s : r_escape (step_expression s) = r_escape s.
Proof. unfold step_expression. destruct (negb _); frame_fields; reflexivity. Qed.

Lemma ri_step_expression s : r_includes (step_expression s) = r_includes s.
Proof. unfold step_expression. destruct (negb _); frame_fields; reflexivity. Qed.

#[local] Hint Rewrite re_step_code ri_step_code : frame.

Lemma re_step_output s : r_escape (step_output s) = r_escape s.
Proof.
  unfold step_output. destruct (negb _); [frame_fields; reflexivity|].
  set (st1 := if r_output s then _ else s).
  assert (H1 : r_escape st1 = r_escape s)
    by (subst st1; destruct (r_output s); frame_fields; reflexivity).
  destruct (Ascii.eqb (deref (advance 2 (r_p s))) "=").
  - destruct (mode_tag _ _) as [p2 et].
    destruct (Ascii.eqb (deref p2) "%").
    + destruct (take_format p2) as [fm rest]. frame_fields. exact H1.
    + frame_fields. exact H1.
  - destruct (Ascii.eqb (deref (advance 2 (r_p s))) "!"); frame_fields; exact H1.
Qed.

Lemma ri_step_output s : r_includes (step_output s) = r_includes s.
Proof.
  unfold step_output. destruct (negb _); [frame_fields; reflexivity|].
  set (st1 := if r_output s then _ else s).
  assert (H1 : r_includes st1 = r_includes s)
    by (subst st1; destruct (r_output s); frame_fields; reflexivity).
  destruct (Ascii.eqb (deref (advance 2 (r_p s))) "=").
  - destruct (mode_tag _ _) as [p2 et].
    destruct (Ascii.eqb (deref p2) "%").
    + destruct (take_format p2) as [fm rest]. frame_fields. exact H1.
    + frame_fields. exact H1.
  - destruct (Ascii.eqb (deref (advance 2 (r_p s))) "!"); frame_fields; exact H1.
Qed.
Lemma re_step_instruction f s :
  r_escape (step_instruction f s) = r_escape s \/
  ambient_mode (r_escape (step_instruction f s)).
Proof.
  unfold step_instruction, ambient_mode.
  set (st1 := if starts "include" (r_p s) then _ else _).
  frame_setters.
  subst st1.
  instruction_cases s;
    repeat match goal with
           | |- context [if ?b then _ else _] => destruct b
           end; frame_fields; auto.
Qed.

Lemma record_include_nodup n s :
  NoDup (r_includes s) -> NoDup (r_includes (record_include n s)).
Proof.
  intros H. unfold record_include. case_bool_decide as Hin; [exact H|].
  frame_setters. apply NoDup_cons. split; assumption.
Qed.

Lemma ri_step_instruction f s :
  NoDup (r_includes s) -> NoDup (r_includes (step_instruction f s)).
Proof.
  intros H. unfold step_instruction.
  set (st1 := if starts "include" (r_p s) then _ else _).
  frame_setters.
  subst st1.
  instruction_cases s;
    repeat match goal with
           | |- context [if ?b then _ else _] => destruct b
           end;
    try (apply record_include_nodup); frame_fields; exact H.
Qed.

(** A property every pass of the loop keeps holds when the loop ends. *)
Lemma reader_loop_invariant f (I : reader_st -> Prop) :
  (forall s, I s -> I (reader_step f s)) ->
  forall fuel s s', I s -> reader_loop fuel f s = Some s' -> I s'.
Proof.
  intros Hstep. induction fuel as [|fuel IH]; intros s s' Hs H; [discriminate|].
  cbn [reader_loop] in H. destruct (at_end (r_p s)).
  - inversion H; subst; exact Hs.
  - eapply IH; [apply Hstep; exact Hs|exact H].
Qed.

Lemma reader_loop_at_end f :
  forall fuel s s', reader_loop fuel f s = Some s' -> at_end (r_p s') = true.
Proof.
  induction fuel as [|fuel IH]; intros s s' H; [discriminate|].
  cbn [reader_loop] in H. destruct (at_end (r_p s)) eqn:E.
  - inversion H; subst; exact E.
  - eapply IH; exact H.
Qed.

Lemma re_reader_finish s : r_escape (reader_finish s) = r_escape s.
Proof.
  unfold reader_finish.
  repeat match goal with
         | |- context [if ?b then _ else _] => destruct b
         | |- context [match ?x with _ => _ end] => destruct x
         end; frame_fields; reflexivity.
Qed.

Lemma ri_reader_finish s : r_includes (reader_finish s) = r_includes s.
Proof.
  unfold reader_finish.
  repeat match goal with
         | |- context [if ?b then _ else _] => destruct b
         | |- context [match ?x with _ => _ end] => destruct x
         end; frame_fields; reflexivity.
Qed.

Lemma reader_step_includes f s :
  NoDup (r_includes s) -> NoDup (r_includes (reader_step f s)).
Proof.
  intros H. unfold reader_step. destruct (r_state s); try exact H.
  - rewrite ri_step_output, ri_step_initial. exact H.
  - rewrite ri_step_output. exact H.
  - rewrite ri_step_code. exact H.
  - rewrite ri_step_expression. exact H.
  - apply ri_step_instruction. exact H.
Qed.

Lemma reader_step_escape f s :
  ambient_mode (r_escape s) -> ambient_mode (r_escape (reader_step f s)).
Proof.
  intros H. unfold reader_step. destruct (r_state s); try exact H.
  - rewrite re_step_output, re_step_initial. exact H.
  - rewrite re_step_output. exact H.
  - rewrite re_step_code. exact H.
  - rewrite re_step_expression. exact H.
  - destruct (re_step_instruction f s) as [E|E]; [rewrite E; exact H|exact E].
Qed.
Lemma grows_refl s : grows s s.
Proof. split; exists EmptyString; rewrite append_nil_r; reflexivity. Qed.

Lemma grows_trans s1 s2 s3 : grows s1 s2 -> grows s2 s3 -> grows s1 s3.
Proof.
  intros [[a Ha] [b Hb]] [[a' Ha'] [b' Hb']]. split.
  - exists (a +:+ a'). rewrite Ha', Ha. apply append_assoc.
  - exists (b +:+ b'). rewrite Hb', Hb. apply append_assoc.
Qed.

Lemma grows_frame s s' :
  r_body s' = r_body s -> r_blocks s' = r_blocks s -> grows s s'.
Proof.
  intros H1 H2. split; exists EmptyString; rewrite append_nil_r; assumption.
Qed.

Lemma grows_buf_addstring x s : grows s (buf_addstring x s).
Proof.
  unfold buf_addstring. destruct (r_b s); split.
  - exists x. reflexivity.
  - exists EmptyString. rewrite append_nil_r. reflexivity.
  - exists EmptyString. rewrite append_nil_r. reflexivity.
  - exists x. reflexivity.
Qed.

Lemma grows_buf_addchar c s : grows s (buf_addchar c s).
Proof. apply grows_buf_addstring. Qed.

Lemma grows_close_braces n : forall s, grows s (close_braces n s).
Proof.
  induction n as [|n IH]; intros s; cbn [close_braces]; [apply grows_refl|].
  eapply grows_trans; [apply grows_buf_addchar|apply IH].
Qed.

Lemma grows_open_print e s : grows s (open_print e s).
Proof.
  unfold open_print.
  repeat (destruct (_ =? _);
          [eapply grows_trans; [apply grows_buf_addstring|apply grows_frame; reflexivity]|]).
  apply grows_buf_addstring.
Qed.

Lemma grows_record_include n s : grows s (record_include n s).
Proof.
  unfold record_include. case_bool_decide; [apply grows_refl|].
  apply grows_frame; reflexivity.
Qed.

Lemma grows_parse_name k s : grows s (parse_name k s).
Proof.
  unfold parse_name. destruct (read_name (advance k (r_p s))) as [[nm rest] full].
  destruct full; apply grows_frame; reflexivity.
Qed.

Lemma grows_copy_char s : grows s (copy_char s).
Proof.
  unfold copy_char. destruct (r_p s);
    (eapply grows_trans; [apply grows_buf_addchar|apply grows_frame; reflexivity]).
Qed.

Lemma grows_read_fnam s : grows s (read_fnam s).
Proof.
  unfold read_fnam. destruct (r_fnam s); [apply grows_refl|apply grows_frame; reflexivity].
Qed.

(** One layer of a nested state expression. *)
Ltac grows_layer :=
  match goal with
  | |- grows ?s ?s => apply grows_refl
  | |- grows ?s (read_fnam ?X) => apply (grows_trans s X); [|apply grows_read_fnam]
  | |- grows ?s (copy_char ?X) => apply (grows_trans s X); [|apply grows_copy_char]
  | |- grows ?s (buf_addstring ?v ?X) =>
      apply (grows_trans s X); [|apply grows_buf_addstring]
  | |- grows ?s (close_braces ?v ?X) => apply (grows_trans s X); [|apply grows_close_braces]
  | |- grows ?s (open_print ?v ?X) => apply (grows_trans s X); [|apply grows_open_print]
  | |- grows ?s (record_include ?v ?X) =>
      apply (grows_trans s X); [|apply grows_record_include]
  | |- grows ?s (parse_name ?v ?X) => apply (grows_trans s X); [|apply grows_parse_name]
  | |- grows ?s (?g ?v ?X) => apply (grows_trans s X); [|apply grows_frame; reflexivity]
  end.

Ltac grows_cases :=
  repeat match goal with
         | |- context [if ?b then _ else _] => destruct b
         end;
  repeat grows_layer.

Lemma grows_step_initial s : grows s (step_initial s).
Proof. unfold step_initial. grows_cases. Qed.

Lemma grows_step_code s : grows s (step_code s).
Proof. unfold step_code. grows_cases. Qed.

Lemma grows_step_expression s : grows s (step_expression s).
Proof. unfold step_expression. cbv zeta. grows_cases. Qed.

Lemma grows_step_output s : grows s (step_output s).
Proof.
  unfold step_output. destruct (negb _); [grows_cases|].
  set (st1 := if r_output s then _ else s).
  assert (H1 : grows s st1) by (subst st1; grows_cases).
  destruct (Ascii.eqb (deref (advance 2 (r_p s))) "=").
  - destruct (mode_tag _ _) as [p2 et].
    destruct (Ascii.eqb (deref p2) "%").
    + destruct (take_format p2) as [fm rest]. repeat grows_layer. exact H1.
    + repeat grows_layer. exact H1.
  - destruct (Ascii.eqb (deref (advance 2 (r_p s))) "!").
    + repeat grows_layer. exact H1.
    + eapply grows_trans; [|apply grows_step_code]. repeat grows_layer. exact H1.
Qed.

Lemma grows_step_instruction f s : grows s (step_instruction f s).
Proof.
  unfold step_instruction.
  set (st1 := if starts "include" (r_p s) then _ else _).
  assert (H1 : grows s st1).
  { subst st1. instruction_cases s; cbv zeta; grows_cases. }
  cbv zeta. repeat grows_layer. exact H1.
Qed.

Lemma grows_reader_step f s : grows s (reader_step f s).
Proof.
  unfold reader_step. destruct (r_state s); try apply grows_refl.
  - eapply grows_trans; [apply grows_step_initial|apply grows_step_output].
  - apply grows_step_output.
  - apply grows_step_code.
  - apply grows_step_expression.
  - apply grows_step_instruction.
Qed.

Lemma grows_reader_finish s : grows s (reader_finish s).
Proof.
  unfold reader_finish. cbv zeta.
  repeat match goal with
         | |- context [if ?b then _ else _] => destruct b
         | |- context [match ?x with _ => _ end] => destruct x
         end; repeat grows_layer.
Qed.
Lemma reader_finish_state s :
  at_end (r_p s) = true ->
  r_p (reader_finish s) = r_p s /\
  (r_state (reader_finish s) = s_terminate \/ r_state (reader_finish s) = s_error).
Proof.
  intros He. unfold reader_finish. rewrite He. cbv zeta.
  repeat match goal with
         | |- context [if ?b then _ else _] => destruct b
         | |- context [match ?x with _ => _ end] => destruct x
         end; scanner_fields; auto.
Qed.

(** X1. Each pass of the scanner's loop takes at least one character, so the
    scan of every text comes to an end.  When no read or write left the
    bounds on the way (the scan did not copy the terminator of a text that
    ends right after the opening of a code directive, and neither filled nor
    read an unwritten [fnam]), the loop has ended at the terminator, and the
    local [state] is then [s_terminate] or [s_error]. *)
Theorem reader_always_returns p f :
  exists r, reader p f = Some r /\
            (r_overrun r = false ->
             at_end (r_p r) = true /\
             (r_state r = s_terminate \/ r_state r = s_error)).
Proof.
  unfold reader.
  destruct (reader_loop_total f (S (String.length p)) (reader_init p f)) as [s' Hs'].
  - reflexivity.
  - unfold reader_init. cbn [r_p]. lia.
  - rewrite Hs'. cbn [fmap option_fmap option_map].
    pose proof (reader_loop_at_end f _ _ _ Hs') as He.
    destruct (reader_finish_state s' He) as [Hp Hst].
    eexists. split; [reflexivity|]. intros _. rewrite Hp. auto.
Qed.

Lemma reader_always_returns_witness :
  exists r, reader "Hello<%!" "open" = Some r /\ at_end (r_p r) = true /\
            (r_state r = s_terminate \/ r_state r = s_error).
Proof.
  destruct (reader_always_returns "Hello<%!" "open") as (r & Hr & H).
  exists r. split; [exact Hr|]. apply H.
  vm_compute in Hr. injection Hr as <-. reflexivity.
Defined.

(** X2. The scanner only adds to its buffers: whatever the text, the main buffer
    begins with the lines that rebind [_ENV], create the entry of the template
    with an empty block table and open its main routine, and the block buffer
    begins with the line that rebinds [_ENV]. *)
Theorem reader_buffers_keep_their_head p f :
  exists r body blocks,
    reader p f = Some r /\
    r_body r = "_ENV = ..." +:+ nl +:+ "template['" +:+ f +:+ "'] = { blk = {} }" +:+ nl
               +:+ "template['" +:+ f +:+ "'].main = function(_ENV, _t)" +:+ nl
               +:+ body /\
    r_blocks r = "_ENV = ..." +:+ nl +:+ blocks.
Proof.
  destruct (reader_total p f) as [r Hr]. unfold reader in Hr.
  destruct (reader_loop _ f (reader_init p f)) as [s'|] eqn:Hloop; [|discriminate].
  cbn [fmap option_fmap option_map] in Hr. inversion Hr; subst r; clear Hr.
  assert (Hg : grows (reader_init p f) (reader_finish s')).
  { eapply grows_trans; [|apply grows_reader_finish].
    apply (reader_loop_invariant f (grows (reader_init p f))
             (fun s Hs => grows_trans _ _ _ Hs (grows_reader_step f s))
             _ _ _ (grows_refl _) Hloop). }
  destruct Hg as [[a Ha] [b Hb]].
  exists (reader_finish s'), a, b. split; [unfold reader; rewrite Hloop; reflexivity|].
  split.
  - rewrite Ha. unfold reader_init. cbn [r_body]. rewrite !append_assoc. reflexivity.
  - rewrite Hb. unfold reader_init. cbn [r_blocks]. rewrite !append_assoc. reflexivity.
Qed.

(** X3. The dependency list the scanner hands to [process_file] names no
    template twice, however often the text includes or extends it. *)
Theorem reader_includes_are_distinct p f :
  exists r, reader p f = Some r /\ NoDup (r_includes r).
Proof.
  destruct (reader_total p f) as [r Hr]. exists r. split; [exact Hr|].
  unfold reader in Hr.
  destruct (reader_loop _ f (reader_init p f)) as [s'|] eqn:Hloop; [|discriminate].
  cbn [fmap option_fmap option_map] in Hr. inversion Hr; subst r; clear Hr.
  rewrite ri_reader_finish.
  apply (reader_loop_invariant f (fun s => NoDup (r_includes s))
           (reader_step_includes f) _ (reader_init p f) s' (NoDup_nil_2) Hloop).
Qed.

(** X4. The ambient escape mode, set by the [escape] instruction, is in every
    pass of the loop one of none, html, latex and url: the instruction has no
    word for xml, which only the tag of an expression selects. *)
Theorem ambient_escape_is_never_xml p f k :
  ambient_mode (r_escape (Nat.iter k (reader_step f) (reader_init p f))).
Proof.
  induction k as [|k IH]; cbn [Nat.iter].
  - left. reflexivity.
  - apply reader_step_escape. exact IH.
Qed.
(** ** The name of an instruction *)

Lemma scan_quoted_split p :
  forall n nm rest full,
    0 <= n <= MAXPATHLEN ->
    scan_quoted p n = (nm, rest, full) ->
    nm +:+ rest = p /\
    n + Z.of_nat (String.length nm) <= MAXPATHLEN /\
    (full = true <-> n + Z.of_nat (String.length nm) = MAXPATHLEN).
Proof.
  induction p as [|c p IH]; intros n nm rest full Hn H; cbn [scan_quoted] in H.
  - inversion H; subst. cbn [String.length]. rewrite negb_true_iff, Z.ltb_ge.
    repeat split; lia.
  - destruct (Ascii.eqb c NUL || Ascii.eqb c DQUOTE || Ascii.eqb c SQUOTE
              || negb (n <? MAXPATHLEN)) eqn:Hstop.
    + inversion H; subst. cbn [String.length]. rewrite negb_true_iff, Z.ltb_ge.
      repeat split; lia.
    + apply orb_false_elim in Hstop as [_ Hlt].
      apply negb_false_iff, Z.ltb_lt in Hlt.
      destruct (scan_quoted p (n + 1)) as [[nm1 rest1] full1] eqn:E.
      inversion H; subst. 
      destruct (IH (n + 1) nm1 rest full ltac:(lia) E) as (H1 & H2 & H3).
      rewrite app_cons, H1. cbn [String.length].
      repeat split; try lia.
      * intros Hf. apply H3 in Hf. lia.
      * intros Hf. apply H3. lia.
Qed.

Lemma scan_bare_split p :
  forall n nm rest full,
    0 <= n <= MAXPATHLEN ->
    scan_bare p n = (nm, rest, full) ->
    nm +:+ rest = p /\
    n + Z.of_nat (String.length nm) <= MAXPATHLEN /\
    (full = true <-> n + Z.of_nat (String.length nm) = MAXPATHLEN).
Proof.
  induction p as [|c p IH]; intros n nm rest full Hn H; cbn [scan_bare] in H.
  - inversion H; subst. cbn [String.length]. rewrite negb_true_iff, Z.ltb_ge.
    repeat split; lia.
  - destruct (Ascii.eqb c NUL || isspace c
              || Ascii.eqb c "%" && Ascii.eqb (deref p) ">"
              || negb (n <? MAXPATHLEN)) eqn:Hstop.
    + inversion H; subst. cbn [String.length]. rewrite negb_true_iff, Z.ltb_ge.
      repeat split; lia.
    + apply orb_false_elim in Hstop as [_ Hlt].
      apply negb_false_iff, Z.ltb_lt in Hlt.
      destruct (scan_bare p (n + 1)) as [[nm1 rest1] full1] eqn:E.
      inversion H; subst.
      destruct (IH (n + 1) nm1 rest full ltac:(lia) E) as (H1 & H2 & H3).
      rewrite app_cons, H1. cbn [String.length].
      repeat split; try lia.
      * intros Hf. apply H3 in Hf. lia.
      * intros Hf. apply H3. lia.
Qed.

(** X5. The name of an [include], [block] or [extends] instruction: after the
    white space, and after one opening quote of either kind when there is
    one, the text is split into the name and what follows it, nothing lost.
    The name has at most [MAXPATHLEN] characters, and it fills the array
    [fnam] to its last byte, leaving it without terminator, exactly when it
    has [MAXPATHLEN] characters. *)
Theorem read_name_splits p nm rest full :
  read_name p = (nm, rest, full) ->
  (exists q, skip_spaces p = q +:+ nm +:+ rest /\
             (q = EmptyString \/ q = String DQUOTE EmptyString
              \/ q = String SQUOTE EmptyString)) /\
  Z.of_nat (String.length nm) <= MAXPATHLEN /\
  (full = true <-> Z.of_nat (String.length nm) = MAXPATHLEN).
Proof.
  unfold read_name. intros H.
  destruct (Ascii.eqb (deref (skip_spaces p)) DQUOTE
            || Ascii.eqb (deref (skip_spaces p)) SQUOTE) eqn:Hq.
  - destruct (scan_quoted_split _ 0 nm rest full ltac:(unfold MAXPATHLEN; lia) H)
      as (H1 & H2 & H3).
    split; [|split; [lia|rewrite H3; reflexivity]].
    destruct (skip_spaces p) as [|c p'] eqn:E; [discriminate|].
    cbn [deref] in Hq. cbn [advance] in H1.
    exists (String c EmptyString). split.
    + rewrite H1. reflexivity.
    + apply orb_prop in Hq as [Hq|Hq]; apply Ascii.eqb_eq in Hq; subst c; auto.
  - destruct (scan_bare_split _ 0 nm rest full ltac:(unfold MAXPATHLEN; lia) H)
      as (H1 & H2 & H3).
    split; [|split; [lia|rewrite H3; reflexivity]].
    exists EmptyString. split; [rewrite H1; reflexivity|auto].
Qed.

Lemma read_name_splits_witness :
  read_name " 'a b' %>" = ("a b", "' %>", false) /\
  Z.of_nat (String.length "a b") <= MAXPATHLEN.
Proof.
  split; [reflexivity|].
  exact (proj1 (proj2 (read_name_splits " 'a b' %>" "a b" "' %>" false eq_refl))).
Defined.
(** ** [render_file], step by step *)

Lemma prepare_spec ld fuel fs ctx fnam ws :
  prepare ld fuel fs ctx fnam ws =
  match fs !! fnam with
  | None => Stopped ctx (Raised (StatFailed fnam))
  | Some sb =>
      match uservalue ctx with
      | None => Stopped ctx (Raised NoContainer)
      | Some c =>
          let sk := if ws then host_sink else io_write in
          match c_template c !! fnam with
          | None => compile_entry ld fuel fs ctx fnam (st_mtime sb) sk (c_template c)
          | Some t =>
              match mtime t with
              | None =>
                  Stopped (context_with ctx (ihead ctx) (c_template c) sk)
                    (Raised MtimeNotInteger)
              | Some m =>
                  if m =? st_mtime sb
                  then Ready (context_with ctx (ihead ctx) (c_template c) sk)
                         (c_template c) sk
                  else compile_entry ld fuel fs ctx fnam (st_mtime sb) sk
                         (delete fnam (c_template c))
              end
          end
      end
  end.
Proof.
  unfold prepare, compile_entry.
  destruct (fs !! fnam) as [sb|]; [|reflexivity].
  destruct (uservalue ctx) as [c|]; [|reflexivity].
  cbv zeta.
  destruct (c_template c !! fnam) as [t|] eqn:Ht.
  - destruct (mtime t) as [m|]; [|reflexivity].
    destruct (m =? st_mtime sb).
    + rewrite Ht. reflexivity.
    + rewrite lookup_delete_eq. reflexivity.
  - rewrite Ht. reflexivity.
Qed.

Lemma render_file_prepared ld fuel fs ctx fnam data ws :
  ro_ctx (render_file ld fuel fs ctx fnam data ws) =
  prepared_ctx (prepare ld fuel fs ctx fnam ws).
Proof.
  unfold render_file, prepared_ctx.
  destruct (prepare ld fuel fs ctx fnam ws); [|reflexivity].
  unfold call_render_template. apply ro_ctx_finish.
Qed.

Lemma finish_result ctx r e :
  ro_result (finish ctx r) <> Raised (ProcessingFailed e).
Proof. destruct r as [st []]; discriminate. Qed.

Lemma compile_entry_stopped ld fuel fs ctx fnam m sk reg0 ctx' r :
  compile_entry ld fuel fs ctx fnam m sk reg0 = Stopped ctx' r -> r <> Rendered.
Proof.
  unfold compile_entry.
  destruct (process_file ld fuel fs fnam (PState (ihead ctx) reg0)) as [ps []];
    try destruct (ps_template ps !! fnam); intros H; inversion H; discriminate.
Qed.

Lemma prepare_stopped ld fuel fs ctx fnam ws ctx' r :
  prepare ld fuel fs ctx fnam ws = Stopped ctx' r -> r <> Rendered.
Proof.
  rewrite prepare_spec.
  destruct (fs !! fnam) as [sb|]; [|intros H; inversion H; discriminate].
  destruct (uservalue ctx) as [c|]; [|intros H; inversion H; discriminate].
  cbv zeta.
  destruct (c_template c !! fnam) as [t|]; [|apply compile_entry_stopped].
  destruct (mtime t) as [m|]; [|intros H; inversion H; discriminate].
  destruct (m =? st_mtime sb); [discriminate|apply compile_entry_stopped].
Qed.

Lemma render_file_rendered ld fuel fs ctx fnam data ws :
  ro_result (render_file ld fuel fs ctx fnam data ws) = Rendered ->
  exists ctx' reg sk, prepare ld fuel fs ctx fnam ws = Ready ctx' reg sk.
Proof.
  unfold render_file.
  destruct (prepare ld fuel fs ctx fnam ws) as [ctx' reg sk|ctx' r] eqn:Hp; [eauto|].
  cbn [ro_result]. intros ->. exfalso. exact (prepare_stopped _ _ _ _ _ _ _ _ Hp eq_refl).
Qed.

Lemma render_file_failed ld fuel fs ctx fnam data ws e :
  ro_result (render_file ld fuel fs ctx fnam data ws) = Raised (ProcessingFailed e) ->
  exists ctx', prepare ld fuel fs ctx fnam ws = Stopped ctx' (Raised (ProcessingFailed e)).
Proof.
  unfold render_file.
  destruct (prepare ld fuel fs ctx fnam ws) as [ctx' reg sk|ctx' r] eqn:Hp.
  - unfold call_render_template. intros H. exfalso. exact (finish_result _ _ _ H).
  - cbn [ro_result]. intros ->. eauto.
Qed.

(** ** The active stack *)

Lemma walk_includes_stack recurse :
  (forall f st st' res,
      recurse f st = (st', res) ->
      (res = Compiled -> ps_ihead st' = ps_ihead st) /\
      (exists pre, ps_ihead st' = pre ++ ps_ihead st) /\
      (forall x, res = Failed (Recursion x) -> x ∈ ps_ihead st')) ->
  forall includes st st' res,
    walk_includes recurse includes st = (st', res) ->
    (res = Compiled -> ps_ihead st' = ps_ihead st) /\
    (exists pre, ps_ihead st' = pre ++ ps_ihead st) /\
    (forall x, res = Failed (Recursion x) -> x ∈ ps_ihead st').
Proof.
  intros Hrec. induction includes as [|i rest IH]; intros st st' res H; simpl in H.
  - inversion H; subst. split; [reflexivity|]. split; [exists []; reflexivity|].
    intros x Hx; discriminate.
  - case_bool_decide as Hin.
    + inversion H; subst. split; [discriminate|]. split; [exists []; reflexivity|].
      intros x Hx. inversion Hx; subst. exact Hin.
    + destruct (ps_template st !! i); [apply IH; exact H|].
      destruct (recurse i st) as [st1 r1] eqn:E.
      destruct (Hrec _ _ _ _ E) as (H1 & [pre1 H2] & H3).
      destruct r1; try (inversion H; subst; split; [discriminate|];
                        split; [exists pre1; exact H2|exact H3]).
      destruct (IH _ _ _ H) as (H4 & [pre2 H5] & H6).
      rewrite (H1 eq_refl) in H4, H5.
      split; [exact H4|]. split; [exists pre2; exact H5|exact H6].
Qed.

Lemma process_file_stack ld fs fuel :
  forall f st st' res,
    process_file ld fuel fs f st = (st', res) ->
    (res = Compiled -> ps_ihead st' = ps_ihead st) /\
    (res <> Compiled ->
     (st' = st /\ early_failure f res) \/
     exists pre, ps_ihead st' = pre ++ f :: ps_ihead st) /\
    (forall x, res = Failed (Recursion x) -> x ∈ ps_ihead st').
Proof.
  induction fuel as [|fuel IH]; intros f st st' res H; simpl in H.
  { inversion H; subst. split; [discriminate|].
    split; [intros _; left; split; [reflexivity|left; reflexivity]|discriminate]. }
  destruct (resolve fs f) as [file|].
  2:{ inversion H; subst. split; [discriminate|].
      split; [intros _; left; split; [reflexivity|right; left; reflexivity]|discriminate]. }
  destruct (readable file); simpl in H.
  2:{ inversion H; subst. split; [discriminate|].
      split; [intros _; left; split; [reflexivity|right; right; left; reflexivity]
             |discriminate]. }
  destruct (String.length (contents file) =? 0)%nat.
  { inversion H; subst. split; [discriminate|].
    split; [intros _; left; split; [reflexivity|right; right; right; reflexivity]
           |discriminate]. }
  destruct (mapping_ends (contents file)); cbn [negb] in H.
  2:{ inversion H; subst. split; [discriminate|].
      split; [intros _; right; exists []; reflexivity|discriminate]. }
  destruct (reader (contents file) f) as [r|].
  2:{ inversion H; subst. split; [discriminate|].
      split; [intros _; right; exists []; reflexivity|discriminate]. }
  destruct (r_overrun r).
  { inversion H; subst. split; [discriminate|].
    split; [intros _; right; exists []; reflexivity|discriminate]. }
  destruct (run_buffers ld r (ps_template st)) as [reg []];
    try (inversion H; subst; split; [discriminate|];
         split; [intros _; right; exists []; reflexivity|discriminate]).
  destruct (walk_includes (process_file ld fuel fs) (r_includes r)
              (PState (f :: ps_ihead st) reg)) as [st1 r1] eqn:E.
  assert (Hrec : forall d s s' rs,
             process_file ld fuel fs d s = (s', rs) ->
             (rs = Compiled -> ps_ihead s' = ps_ihead s) /\
             (exists pre, ps_ihead s' = pre ++ ps_ihead s) /\
             (forall x, rs = Failed (Recursion x) -> x ∈ ps_ihead s')).
  { intros d s s' rs Hd. destruct (IH _ _ _ _ Hd) as (H1 & H2 & H3).
    split; [exact H1|]. split; [|exact H3].
    destruct rs; try (destruct H2 as [[-> _]|[pre Hpre]];
                      [discriminate|exists []; reflexivity
                      |exists (pre ++ [d]); rewrite Hpre, <- app_assoc; reflexivity]).
    exists []. rewrite (H1 eq_refl). reflexivity. }
  destruct (walk_includes_stack _ Hrec _ _ _ _ E) as (H1 & [pre H2] & H3).
  cbn [ps_ihead] in H1, H2.
  destruct r1; inversion H; subst; clear H.
  - split; [|split; [congruence|discriminate]].
    intros _. cbn [ps_ihead]. rewrite (H1 eq_refl). reflexivity.
  - split; [discriminate|]. split; [intros _; right; exists pre; exact H2|exact H3].
  - split; [discriminate|]. split; [intros _; right; exists pre; exact H2|discriminate].
  - split; [discriminate|]. split; [intros _; right; exists pre; exact H2|discriminate].
Qed.


Lemma compile_entry_stack ld fuel fs ctx fnam m sk reg0 :
  (exists pre,
      ihead (prepared_ctx (compile_entry ld fuel fs ctx fnam m sk reg0))
      = pre ++ ihead ctx) /\
  (forall ctx' reg sk',
      compile_entry ld fuel fs ctx fnam m sk reg0 = Ready ctx' reg sk' ->
      ihead ctx' = ihead ctx) /\
  (forall ctx' e,
      compile_entry ld fuel fs ctx fnam m sk reg0
      = Stopped ctx' (Raised (ProcessingFailed e)) ->
      (e = LoadError \/ exists x, e = Recursion x) -> fnam ∈ ihead ctx') /\
  (forall ctx' x,
      compile_entry ld fuel fs ctx fnam m sk reg0
      = Stopped ctx' (Raised (ProcessingFailed (Recursion x))) ->
      x ∈ ihead ctx').
Proof.
  unfold compile_entry.
  destruct (process_file ld fuel fs fnam (PState (ihead ctx) reg0)) as [ps res] eqn:Hp.
  destruct (process_file_stack ld fs fuel _ _ _ _ Hp) as (H1 & H2 & H3).
  cbn [ps_ihead] in H1, H2.
  assert (Hpre : exists pre, ps_ihead ps = pre ++ ihead ctx).
  { destruct res; try (destruct H2 as [[-> _]|[pre Hpre]];
                       [discriminate|exists []; reflexivity
                       |exists (pre ++ [fnam]); rewrite Hpre, <- app_assoc; reflexivity]).
    exists []. rewrite (H1 eq_refl). reflexivity. }
  destruct res.
  - destruct (ps_template ps !! fnam); cbn [prepared_ctx context_with ihead];
      (split; [exact Hpre|]); (split; [|split; intros; discriminate]);
      intros ctx' reg sk' Hr; inversion Hr; subst; cbn [ihead]; auto.
  - cbn [prepared_ctx context_with ihead]. split; [exact Hpre|].
    split; [intros; discriminate|]. split.
    + intros ctx' e' Hr He. inversion Hr; subst. cbn [ihead].
      destruct H2 as [[_ Hearly]|[pre Hp2]]; [discriminate| |].
      * exfalso. unfold early_failure in Hearly.
        destruct He as [->|[x ->]];
          destruct Hearly as [?|[?|[?|?]]]; discriminate.
      * rewrite Hp2. apply elem_of_app. right. left.
    + intros ctx' x Hr. inversion Hr; subst. cbn [ihead]. apply H3. reflexivity.
  - cbn [prepared_ctx context_with ihead]. split; [exact Hpre|].
    repeat split; intros; discriminate.
  - cbn [prepared_ctx context_with ihead]. split; [exact Hpre|].
    repeat split; intros; discriminate.
Qed.

(** X7. The stack is a field of the context and outlives the call: [renderFile]
    never takes a name off it, leaves it as it was when it renders, and when
    the compile fails on loading or with a recursion error the requested name
    stays on it (the name the recursion error gives too).  Nothing empties
    the stack, so a later [renderFile] of a template that includes such a
    name reports a recursion: after the render of a file that does not load,
    the render of a template including it fails with the recursion error,
    though that file includes nothing. *)
Theorem stack_outlives_failed_compile :
  (forall ld fuel fs ctx fnam data ws,
      let r := render_file ld fuel fs ctx fnam data ws in
      (exists pre, ihead (ro_ctx r) = pre ++ ihead ctx) /\
      (ro_result r = Rendered -> ihead (ro_ctx r) = ihead ctx) /\
      (ro_result r = Raised (ProcessingFailed LoadError) -> fnam ∈ ihead (ro_ctx r)) /\
      (forall x, ro_result r = Raised (ProcessingFailed (Recursion x)) ->
                 fnam ∈ ihead (ro_ctx r) /\ x ∈ ihead (ro_ctx r))) /\
  (let r1 := render_file load 8 fs_broken template_context "bad" ∅ true in
   let r2 := render_file load 8 fs_broken (ro_ctx r1) "top" ∅ true in
   ro_result r1 = Raised (ProcessingFailed LoadError) /\
   deps fs_broken "bad" = [] /\
   ro_result r2 = Raised (ProcessingFailed (Recursion "bad"))).
Proof.
  split; [|vm_compute; repeat split; reflexivity].
  intros ld fuel fs ctx fnam data ws r.
  assert (Hctx : ro_ctx r = prepared_ctx (prepare ld fuel fs ctx fnam ws))
    by apply render_file_prepared.
  assert (Hok : ro_result r = Rendered ->
                exists ctx' reg sk, prepare ld fuel fs ctx fnam ws = Ready ctx' reg sk)
    by apply render_file_rendered.
  assert (Hfail : forall e, ro_result r = Raised (ProcessingFailed e) ->
                  exists ctx', prepare ld fuel fs ctx fnam ws
                               = Stopped ctx' (Raised (ProcessingFailed e)))
    by (intros e; apply render_file_failed).
  rewrite Hctx. clearbody r. clear Hctx.
  rewrite prepare_spec in *.
  destruct (fs !! fnam) as [sb|].
  2:{ cbn [prepared_ctx]. split; [exists []; reflexivity|].
      split; [reflexivity|].
      split; [intros H; destruct (Hfail _ H) as [? ?]; discriminate|].
      intros x H; destruct (Hfail _ H) as [? ?]; discriminate. }
  destruct (uservalue ctx) as [c|].
  2:{ cbn [prepared_ctx]. split; [exists []; reflexivity|].
      split; [reflexivity|].
      split; [intros H; destruct (Hfail _ H) as [? ?]; discriminate|].
      intros x H; destruct (Hfail _ H) as [? ?]; discriminate. }
  cbv zeta in *.
  set (sk := if ws then host_sink else io_write) in *.
  assert (Hcompile : forall reg0,
             (ro_result r = Rendered ->
              exists ctx' reg sk',
                compile_entry ld fuel fs ctx fnam (st_mtime sb) sk reg0 = Ready ctx' reg sk') ->
             (forall e, ro_result r = Raised (ProcessingFailed e) ->
                exists ctx', compile_entry ld fuel fs ctx fnam (st_mtime sb) sk reg0
                             = Stopped ctx' (Raised (ProcessingFailed e))) ->
             let p := compile_entry ld fuel fs ctx fnam (st_mtime sb) sk reg0 in
             (exists pre, ihead (prepared_ctx p) = pre ++ ihead ctx) /\
             (ro_result r = Rendered -> ihead (prepared_ctx p) = ihead ctx) /\
             (ro_result r = Raised (ProcessingFailed LoadError) ->
              fnam ∈ ihead (prepared_ctx p)) /\
             (forall x, ro_result r = Raised (ProcessingFailed (Recursion x)) ->
                        fnam ∈ ihead (prepared_ctx p) /\ x ∈ ihead (prepared_ctx p))).
  { intros reg0 Hok' Hfail' p.
    destruct (compile_entry_stack ld fuel fs ctx fnam (st_mtime sb) sk reg0)
      as (C1 & C2 & C3 & C4).
    split; [exact C1|]. split; [|split].
    - intros H. destruct (Hok' H) as (ctx' & reg & sk' & E).
      subst p. rewrite E. cbn [prepared_ctx]. eapply C2; exact E.
    - intros H. destruct (Hfail' _ H) as (ctx' & E).
      subst p. rewrite E. cbn [prepared_ctx]. eapply C3; [exact E|auto].
    - intros x H. destruct (Hfail' _ H) as (ctx' & E).
      subst p. rewrite E. cbn [prepared_ctx]. split.
      + eapply C3; [exact E|eauto].
      + eapply C4; exact E. }
  destruct (c_template c !! fnam) as [t|]; [|apply Hcompile; assumption].
  destruct (mtime t) as [m|].
  2:{ cbn [prepared_ctx context_with ihead]. split; [exists []; reflexivity|].
      split; [reflexivity|].
      split; [intros H; destruct (Hfail _ H) as [? ?]; discriminate|].
      intros x H; destruct (Hfail _ H) as [? ?]; discriminate. }
  destruct (m =? st_mtime sb); [|apply Hcompile; assumption].
  cbn [prepared_ctx context_with ihead]. split; [exists []; reflexivity|].
  split; [reflexivity|].
  split; [intros H; destruct (Hfail _ H) as [? ?]; discriminate|].
  intros x H; destruct (Hfail _ H) as [? ?]; discriminate.
Qed.

Lemma stack_outlives_failed_compile_witness :
  "bad" ∈ ihead (ro_ctx (render_file load 8 fs_broken template_context "bad" ∅ true)).
Proof.
  assert (H : ro_result (render_file load 8 fs_broken template_context "bad" ∅ true)
              = Raised (ProcessingFailed LoadError)) by (vm_compute; reflexivity).
  exact (proj1 (proj2 (proj2 (proj1 stack_outlives_failed_compile
                                load 8%nat fs_broken template_context "bad" ∅ true))) H).
Defined.
(** ** The registry only gains entries *)

Lemma exec_cstmt_dom c reg : dom reg ⊆ dom (fst (exec_cstmt c reg)).
Proof.
  destruct c; simpl;
    repeat match goal with
           | |- context [match ?x with _ => _ end] => destruct x eqn:?
           end; simpl; try reflexivity; rewrite dom_insert_L; set_solver.
Qed.

Lemma exec_chunk_dom cs : forall reg, dom reg ⊆ dom (fst (exec_chunk cs reg)).
Proof.
  induction cs as [|c cs IH]; intros reg; simpl; [reflexivity|].
  pose proof (exec_cstmt_dom c reg) as Hc.
  destruct (exec_cstmt c reg) as [reg' []]; simpl in *; [|assumption].
  etransitivity; [exact Hc|apply IH].
Qed.

Lemma run_buffers_dom ld r reg : dom reg ⊆ dom (fst (run_buffers ld r reg)).
Proof.
  unfold run_buffers.
  destruct (ld (r_body r)); simpl; try reflexivity.
  pose proof (exec_chunk_dom c reg) as H1.
  destruct (exec_chunk c reg) as [reg1 []]; simpl in *; [|assumption].
  destruct (ld (r_blocks r)); simpl; try assumption.
  pose proof (exec_chunk_dom c0 reg1) as H2.
  destruct (exec_chunk c0 reg1) as [reg2 []]; simpl in *; etransitivity; eauto.
Qed.

Lemma walk_includes_dom recurse :
  (forall f st, dom (ps_template st) ⊆ dom (ps_template (fst (recurse f st)))) ->
  forall includes st,
    dom (ps_template st) ⊆ dom (ps_template (fst (walk_includes recurse includes st))).
Proof.
  intros Hrec. induction includes as [|i rest IH]; intros st; simpl; [reflexivity|].
  case_bool_decide; simpl; [reflexivity|].
  destruct (ps_template st !! i); [apply IH|].
  pose proof (Hrec i st) as Hi.
  destruct (recurse i st) as [st' []]; simpl in *; try assumption.
  etransitivity; [exact Hi|apply IH].
Qed.

Lemma process_file_dom ld fs fuel :
  forall f st,
    dom (ps_template st) ⊆ dom (ps_template (fst (process_file ld fuel fs f st))).
Proof.
  induction fuel as [|fuel IH]; intros f st; simpl; [reflexivity|].
  destruct (resolve fs f) as [file|]; simpl; [|reflexivity].
  destruct (readable file); simpl; [|reflexivity].
  destruct (String.length (contents file) =? 0)%nat; simpl; [reflexivity|].
  destruct (mapping_ends (contents file)); simpl; [|reflexivity].
  destruct (reader (contents file) f) as [r|]; simpl; [|reflexivity].
  destruct (r_overrun r); simpl; [reflexivity|].
  pose proof (run_buffers_dom ld r (ps_template st)) as Hb.
  destruct (run_buffers ld r (ps_template st)) as [reg []]; simpl in *; try assumption.
  pose proof (walk_includes_dom (process_file ld fuel fs) IH (r_includes r)
                (PState (f :: ps_ihead st) reg)) as Hw.
  destruct (walk_includes (process_file ld fuel fs) (r_includes r)
              (PState (f :: ps_ihead st) reg)) as [st' []]; simpl in *;
    etransitivity; eauto.
Qed.

Lemma compile_entry_dom ld fuel fs ctx fnam m sk reg0 :
  dom reg0 ⊆ dom (registry_of (prepared_ctx (compile_entry ld fuel fs ctx fnam m sk reg0))).
Proof.
  unfold compile_entry.
  pose proof (process_file_dom ld fs fuel fnam (PState (ihead ctx) reg0)) as H.
  destruct (process_file ld fuel fs fnam (PState (ihead ctx) reg0)) as [ps res].
  cbn [fst ps_template] in H.
  destruct res; try destruct (ps_template ps !! fnam);
    cbn [prepared_ctx context_with registry_of uservalue c_template];
    try exact H.
  rewrite dom_insert_L. set_solver.
Qed.

(** X8. A compile in which every chunk that is loaded is made of the
    statements the scanner generates for the registry (the entry of a
    template, its main routine, its parent, its blocks) takes no template
    out of the registry, however it ends; and [renderFile] then takes out at
    most the entry of the path it is given (when the file has changed): every
    other entry of the context stays.  Code or text at chunk level, which an
    extending template can hold outside its blocks, runs on the container
    and is not covered: such a run is [NotModelled]. *)
Theorem registry_entries_stay :
  (forall ld fuel fs f st st' res k,
      process_file ld fuel fs f st = (st', res) ->
      res <> NotModelled ->
      is_Some (ps_template st !! k) ->
      is_Some (ps_template st' !! k)) /\
  (forall ld fuel fs ctx fnam data ws k,
      k <> fnam ->
      ro_result (render_file ld fuel fs ctx fnam data ws) <> RenderNotModelled ->
      is_Some (registry_of ctx !! k) ->
      is_Some (registry_of (ro_ctx (render_file ld fuel fs ctx fnam data ws)) !! k)).
Proof.
  split.
  - intros ld fuel fs f st st' res k Hp _ Hk. apply elem_of_dom.
    pose proof (process_file_dom ld fs fuel f st) as Hd. rewrite Hp in Hd.
    apply Hd. apply elem_of_dom. exact Hk.
  - intros ld fuel fs ctx fnam data ws k Hne _ Hk.
    rewrite render_file_prepared, prepare_spec.
    destruct (fs !! fnam) as [sb|]; [|exact Hk].
    unfold registry_of in Hk.
    destruct (uservalue ctx) as [c|] eqn:Hu;
      [|rewrite lookup_empty in Hk; destruct Hk; discriminate].
    cbv zeta.
    assert (Hcompile : forall reg0,
               is_Some (reg0 !! k) ->
               is_Some (registry_of
                          (prepared_ctx
                             (compile_entry ld fuel fs ctx fnam (st_mtime sb)
                                (if ws then host_sink else io_write) reg0)) !! k)).
    { intros reg0 H0. apply elem_of_dom. apply compile_entry_dom.
      apply elem_of_dom. exact H0. }
    destruct (c_template c !! fnam) as [t|]; [|apply Hcompile; exact Hk].
    destruct (mtime t) as [m|]; [|exact Hk].
    destruct (m =? st_mtime sb); [exact Hk|].
    apply Hcompile. rewrite lookup_delete_ne by congruence. exact Hk.
Qed.

Lemma registry_entries_stay_witness :
  is_Some (registry_of
             (ro_ctx (render_file load 8 fs_new ctx_cached "top" ∅ true)) !! "dep").
Proof.
  assert (H1 : "dep" <> "top") by discriminate.
  assert (H2 : is_Some (registry_of ctx_cached !! "dep"))
    by (vm_compute; eexists; reflexivity).
  assert (H3 : ro_result (render_file load 8 fs_new ctx_cached "top" ∅ true)
               <> RenderNotModelled) by (vm_compute; discriminate).
  exact (proj2 registry_entries_stay load 8%nat fs_new ctx_cached "top" ∅ true "dep" H1
           H3 H2).
Defined.

(** ** The cache *)

Lemma prepare_cached :
  forall ld fuel fs ctx fnam data ws ctx1 reg sk,
    prepare ld fuel fs ctx fnam ws = Ready ctx1 reg sk ->
    forall ld' fs',
      (st_mtime <$> fs' !! fnam) = (st_mtime <$> fs !! fnam) ->
      (forall fuel' ws',
          prepare ld' fuel' fs' ctx1 fnam ws' =
          Ready (context_with ctx1 (ihead ctx1) reg (if ws' then host_sink else io_write))
            reg (if ws' then host_sink else io_write)) /\
      render_file ld' fuel fs' ctx1 fnam data ws = render_file ld fuel fs ctx fnam data ws.
Proof.
  intros ld fuel fs ctx fnam data ws ctx1 reg sk Hp ld' fs' Hm.
  assert (Hshape : exists ih t sb,
             ctx1 = context_with ctx ih reg sk /\ sk = (if ws then host_sink else io_write) /\
             fs !! fnam = Some sb /\
             reg !! fnam = Some t /\ mtime t = Some (st_mtime sb)).
  { rewrite prepare_spec in Hp.
    destruct (fs !! fnam) as [sb|]; [|discriminate].
    destruct (uservalue ctx) as [c|]; [|discriminate].
    cbv zeta in Hp.
    assert (Hcompile : forall reg0,
               compile_entry ld fuel fs ctx fnam (st_mtime sb)
                 (if ws then host_sink else io_write) reg0 = Ready ctx1 reg sk ->
               exists ih t sb0,
                 ctx1 = context_with ctx ih reg sk /\
                 sk = (if ws then host_sink else io_write) /\
                 Some sb = Some sb0 /\
                 reg !! fnam = Some t /\ mtime t = Some (st_mtime sb0)).
    { intros reg0. unfold compile_entry.
      destruct (process_file ld fuel fs fnam (PState (ihead ctx) reg0)) as [ps []];
        try discriminate.
      destruct (ps_template ps !! fnam) as [t0|]; [|discriminate].
      cbv zeta. intros H. inversion H; subst.
      exists (ps_ihead ps), (with_mtime (Some (st_mtime sb)) t0), sb.
      rewrite lookup_insert_eq. auto. }
    destruct (c_template c !! fnam) as [t|] eqn:Ht; [|apply (Hcompile _ Hp)].
    destruct (mtime t) as [m|] eqn:Hmt; [|discriminate].
    destruct (Z.eqb_spec m (st_mtime sb)) as [->|_]; [|apply (Hcompile _ Hp)].
    inversion Hp; subst. exists (ihead ctx), t, sb. auto. }
  destruct Hshape as (ih & t & sb & -> & Hsk & Hsb & Ht & Hmt).
  rewrite Hsb in Hm. destruct (fs' !! fnam) as [sb'|] eqn:Hsb'; [|discriminate].
  cbn [fmap option_fmap option_map] in Hm. inversion Hm as [Hm'].
  assert (Hprep : forall fuel' ws',
             prepare ld' fuel' fs' (context_with ctx ih reg sk) fnam ws' =
             Ready (context_with (context_with ctx ih reg sk)
                      (ihead (context_with ctx ih reg sk)) reg
                      (if ws' then host_sink else io_write))
               reg (if ws' then host_sink else io_write)).
  { intros fuel' ws'. rewrite prepare_spec, Hsb'.
    cbn [context_with uservalue c_template]. cbv zeta. rewrite Ht, Hmt, Hm'.
    rewrite Z.eqb_refl. reflexivity. }
  split; [exact Hprep|].
  unfold render_file. rewrite Hprep, Hp, <- Hsk. reflexivity.
Qed.

(** X9. After a [renderFile] that rendered, a later [renderFile] of the same
    path on the context it left does not compile: as long as the modification
    time of the file is the same, the loader and the contents of the files
    play no part, the registry stays as it is, and the same data and sink
    give the same outcome. *)
Theorem unchanged_template_is_not_compiled_again :
  forall ld fuel fs ctx fnam data ws,
    let r1 := render_file ld fuel fs ctx fnam data ws in
    ro_result r1 = Rendered ->
    forall ld' fs',
      (st_mtime <$> fs' !! fnam) = (st_mtime <$> fs !! fnam) ->
      render_file ld' fuel fs' (ro_ctx r1) fnam data ws = r1 /\
      forall fuel' data' ws',
        registry_of (ro_ctx (render_file ld' fuel' fs' (ro_ctx r1) fnam data' ws'))
        = registry_of (ro_ctx r1).
Proof.
  intros ld fuel fs ctx fnam data ws r1 Hr ld' fs' Hm.
  destruct (render_file_rendered _ _ _ _ _ _ _ Hr) as (ctx1 & reg & sk & Hp).
  assert (Hctx : ro_ctx r1 = ctx1).
  { subst r1. rewrite render_file_prepared, Hp. reflexivity. }
  destruct (prepare_cached ld fuel fs ctx fnam data ws ctx1 reg sk Hp ld' fs' Hm)
    as [Hprep Hsame].
  rewrite Hctx. split; [exact Hsame|].
  intros fuel' data' ws'. rewrite render_file_prepared, Hprep.
  cbn [prepared_ctx context_with registry_of uservalue c_template].
  clear - Hp. rewrite prepare_spec in Hp.
  destruct (fs !! fnam) as [sb|]; [|discriminate].
  destruct (uservalue ctx) as [c|]; [|discriminate].
  cbv zeta in Hp.
  assert (Hcompile : forall reg0,
             compile_entry ld fuel fs ctx fnam (st_mtime sb)
               (if ws then host_sink else io_write) reg0 = Ready ctx1 reg sk ->
             reg = registry_of ctx1).
  { intros reg0. unfold compile_entry.
    destruct (process_file ld fuel fs fnam (PState (ihead ctx) reg0)) as [ps []];
      try discriminate.
    destruct (ps_template ps !! fnam) as [t0|]; [|discriminate].
    cbv zeta. intros H. inversion H; subst. reflexivity. }
  destruct (c_template c !! fnam) as [t|]; [|apply (Hcompile _ Hp)].
  destruct (mtime t) as [m|]; [|discriminate].
  destruct (m =? st_mtime sb); [|apply (Hcompile _ Hp)].
  inversion Hp; subst. reflexivity.
Qed.

Lemma unchanged_template_is_not_compiled_again_witness :
  render_file (fun _ => LoadSyntaxError) 8 fs_old ctx_cached "dep" ∅ true =
  render_file load 8 fs_old template_context "dep" ∅ true.
Proof.
  assert (Hr : ro_result (render_file load 8 fs_old template_context "dep" ∅ true)
               = Rendered) by (vm_compute; reflexivity).
  exact (proj1 (unchanged_template_is_not_compiled_again load 8 fs_old template_context
                  "dep" ∅ true Hr (fun _ => LoadSyntaxError) fs_old eq_refl)).
Defined.
(** ** Where the text of a template comes from *)





(** X11. When [renderFile] has to compile the path it is given (the registry
    has no entry for it, or an entry whose [mtime] is not that of the file),
    a file that cannot be opened, and a file of length zero, which [mmap]
    refuses, stop it with the error of [process_file]: nothing is written,
    the stack of the context does not change, and the registry is the one
    before the call without the entry of that path, which was evicted
    before the compile if it was there. *)
Theorem unusable_file_stops_render :
  forall ld fuel fs ctx c fnam data ws sb file,
    fs !! fnam = Some sb ->
    uservalue ctx = Some c ->
    match c_template c !! fnam with
    | None => True
    | Some t => exists m, mtime t = Some m /\ m <> st_mtime sb
    end ->
    resolve fs fnam = Some file ->
    readable file = false \/ contents file = EmptyString ->
    let r := render_file ld (S fuel) fs ctx fnam data ws in
    ro_result r = Raised (ProcessingFailed
                            (if readable file then CantMmap fnam else CantOpen fnam)) /\
    ro_out r = [] /\
    registry_of (ro_ctx r) = delete fnam (c_template c) /\
    ihead (ro_ctx r) = ihead ctx.
Proof.
  intros ld fuel fs ctx c fnam data ws sb file Hsb Hu Hentry Hres Hbad r.
  assert (Hp : forall reg,
             process_file ld (S fuel) fs fnam (PState (ihead ctx) reg) =
             (PState (ihead ctx) reg,
              Failed (if readable file then CantMmap fnam else CantOpen fnam))).
  { intros reg. cbn [process_file]. rewrite Hres.
    destruct (readable file); cbn [negb]; [|reflexivity].
    destruct Hbad as [? | ->]; [discriminate|]. reflexivity. }
  subst r. unfold render_file. rewrite prepare_spec, Hsb, Hu. cbv zeta.
  destruct (c_template c !! fnam) as [t|] eqn:Ht.
  - destruct Hentry as (m & -> & Hne).
    destruct (Z.eqb_spec m (st_mtime sb)) as [?|_]; [contradiction|].
    unfold compile_entry. rewrite Hp.
    cbn [ro_result ro_out ro_ctx context_with registry_of uservalue c_template ihead
         ps_ihead ps_template].
    auto.
  - unfold compile_entry. rewrite Hp.
    cbn [ro_result ro_out ro_ctx context_with registry_of uservalue c_template ihead
         ps_ihead ps_template].
    rewrite (delete_id _ _ Ht). auto.
Qed.

Lemma unusable_file_stops_render_witness :
  let r := render_file load 1 fs_truncated ctx_cached "dep" ∅ true in
  is_Some (registry_of ctx_cached !! "dep") /\
  ro_result r = Raised (ProcessingFailed (CantMmap "dep")) /\
  registry_of (ro_ctx r) !! "dep" = None.
Proof.
  destruct (uservalue ctx_cached) as [c|] eqn:Hu; [|vm_compute in Hu; discriminate].
  assert (Hentry : match c_template c !! "dep" with
                   | None => True
                   | Some t => exists m, mtime t = Some m /\
                                         m <> st_mtime (File 2 true EmptyString)
                   end).
  { vm_compute in Hu. injection Hu as <-. vm_compute.
    exists 1. split; [reflexivity|discriminate]. }
  destruct (unusable_file_stops_render load 0 fs_truncated ctx_cached c "dep" ∅ true
              (File 2 true EmptyString) (File 2 true EmptyString) eq_refl Hu Hentry
              eq_refl (or_intror eq_refl)) as (H1 & _ & H3 & _).
  split; [vm_compute; eexists; reflexivity|].
  split; [exact H1|]. rewrite H3. apply lookup_delete_eq.
Defined.
(** ** Templates without cycle *)





(** ** The data table after a render *)

Lemma install_helpers_idem e : install_helpers (install_helpers e) = install_helpers e.
Proof.
  apply map_eq. intros k. unfold install_helpers.
  destruct (decide (k = "render_template")) as [->|H1];
    [rewrite !lookup_insert_eq; reflexivity|].
  destruct (decide (k = "render_block")) as [->|H2];
    [repeat first [rewrite lookup_insert_eq | rewrite lookup_insert_ne by discriminate];
     reflexivity|].
  destruct (decide (k = "string")) as [->|H3];
    [repeat first [rewrite lookup_insert_eq | rewrite lookup_insert_ne by discriminate];
     reflexivity|].
  destruct (decide (k = "print")) as [->|H4];
    [repeat first [rewrite lookup_insert_eq | rewrite lookup_insert_ne by discriminate];
     reflexivity|].
  rewrite !lookup_insert_ne by congruence. reflexivity.
Qed.

Lemma root_walk_found reg : forall k n, root_walk reg k n <> WNone.
Proof.
  induction k as [|k IH]; intros n; cbn [root_walk];
    destruct (reg !! n) as [tpl|]; try discriminate;
    destruct (extends tpl); try discriminate. apply IH.
Qed.

Section Helpers.
Variable e0 : gmap string value.
Variable call : list stmt -> option value -> rstate -> rstate * outcome.
Variable fuel : nat.
Variable reg : gmap string template.
Variable sk : sink.
Hypothesis call_keeps :
  forall body t st, env st = install_helpers e0 ->
                    env (fst (call body t st)) = install_helpers e0.

Lemma exec_stmt_env t s st :
  env st = install_helpers e0 ->
  env (fst (exec_stmt call fuel reg sk t s st)) = install_helpers e0.
Proof.
  intros H. unfold exec_stmt. destruct s as [f args|code]; [|exact H].
  destruct (eval_args t (env st) args) as [vs|o]; [|exact H].
  destruct (lookup_name t (env st) f); try exact H.
  - unfold do_print. destruct sk.
    + destruct (forallb is_str vs); exact H.
    + destruct vs as [|v [|? ?]]; exact H.
  - unfold render_block. destruct (nth 1 vs VNil); try exact H.
    destruct (block_walk fuel reg s (nth 2 vs VNil)); try exact H.
    destruct (nth 0 vs VNil); try exact H. apply call_keeps. exact H.
  - unfold render_template. destruct (nth 1 vs VNil); try exact H.
    destruct (root_walk reg fuel s); try exact H.
    destruct (nth 0 vs VNil); try exact H.
    assert (H1 : env (RState (install_helpers (env st)) (out st)) = install_helpers e0)
      by (cbn [env]; rewrite H; apply install_helpers_idem).
    destruct (reg !! a ≫= main); [apply call_keeps; exact H1|exact H1].
Qed.

Lemma exec_body_env t body :
  forall st, env st = install_helpers e0 ->
             env (fst (exec_body call fuel reg sk t body st)) = install_helpers e0.
Proof.
  induction body as [|s body IH]; intros st H; cbn [exec_body]; [exact H|].
  pose proof (exec_stmt_env t s st H) as Hs.
  destruct (exec_stmt call fuel reg sk t s st) as [st' []]; cbn [fst] in *;
    try exact Hs.
  apply IH. exact Hs.
Qed.
End Helpers.

Lemma invoke_env e0 reg sk :
  forall fuel body t st,
    env st = install_helpers e0 ->
    env (fst (invoke fuel reg sk body t st)) = install_helpers e0.
Proof.
  induction fuel as [|fuel IH]; intros body t st H; cbn [invoke]; [exact H|].
  apply exec_body_env; [|exact H]. intros b t' s' Hs. apply IH. exact Hs.
Qed.

(** X13. [render_template] stores [print], [string], [render_block] and
    [render_template] in the table it is given, which is the data table of
    the host (lines 128-131).  In a render whose routines only print and
    call [render_block] and [render_template] (a code directive can assign
    to the table, and such a render is [RenderNotModelled]), the table
    [renderFile] leaves is the data as passed or the data with these four
    fields overwritten, and after a render that succeeded it is the latter:
    a field of the data with one of these names is lost. *)
Theorem render_leaves_helpers_in_data :
  forall ld fuel fs ctx fnam data ws,
    let r := render_file ld fuel fs ctx fnam data ws in
    (ro_result r <> RenderNotModelled ->
     ro_env r = data \/ ro_env r = install_helpers data) /\
    (ro_result r = Rendered -> ro_env r = install_helpers data).
Proof.
  intros ld fuel fs ctx fnam data ws r.
  cut ((ro_env r = data \/ ro_env r = install_helpers data) /\
       (ro_result r = Rendered -> ro_env r = install_helpers data)).
  { intros [H1 H2]. split; [intros _; exact H1|exact H2]. }
  subst r. unfold render_file.
  destruct (prepare ld fuel fs ctx fnam ws) as [ctx' reg sk|ctx' res] eqn:Hp.
  2:{ cbn [ro_env ro_result]. split; [left; reflexivity|].
      intros ->. exfalso. exact (prepare_stopped _ _ _ _ _ _ _ _ Hp eq_refl). }
  unfold call_render_template, render_template. cbn [env out].
  pose proof (root_walk_found reg fuel fnam) as Hroot.
  destruct (root_walk reg fuel fnam) as [root| | |]; try contradiction;
    try (cbn [finish ro_env ro_result env]; split; [left; reflexivity|discriminate]).
  assert (Hcall : forall body,
             env (fst (invoke fuel reg sk body (Some (VStr fnam))
                         (RState (install_helpers data) []))) = install_helpers data)
    by (intros body; apply invoke_env; reflexivity).
  destruct (reg !! root ≫= main) as [body|].
  - specialize (Hcall body).
    destruct (invoke fuel reg sk body (Some (VStr fnam))
                (RState (install_helpers data) [])) as [st []];
      cbn [finish ro_env ro_result fst] in *;
      (split; [right; exact Hcall|first [intros _; exact Hcall|discriminate]]).
  - cbn [finish ro_env ro_result env]. split; [right; reflexivity|discriminate].
Qed.

Lemma render_leaves_helpers_in_data_witness :
  ro_env (render_file load 8 fs_greeting template_context "base"
            (<["print" := VStr "mine"]> ∅) true) !! "print" = Some VPrint.
Proof.
  assert (H : ro_result (render_file load 8 fs_greeting template_context "base"
                           (<["print" := VStr "mine"]> ∅) true) = Rendered)
    by (vm_compute; reflexivity).
  rewrite (proj2 (render_leaves_helpers_in_data load 8 fs_greeting template_context
                    "base" (<["print" := VStr "mine"]> ∅) true) H).
  apply lookup_print.
Defined.

(** ** Runs of the scanner *)

Lemma reader_loop_mono f :
  forall fuel fuel' st r,
    reader_loop fuel f st = Some r -> (fuel <= fuel')%nat ->
    reader_loop fuel' f st = Some r.
Proof.
  induction fuel as [|fuel IH]; intros fuel' st r H Hle; [discriminate|].
  destruct fuel' as [|fuel']; [lia|]. cbn [reader_loop] in *.
  destruct (at_end (r_p st)); [exact H|]. apply (IH fuel'); [exact H|lia].
Qed.

Lemma scans_here f st : at_end (r_p st) = true -> scans f st st.
Proof. intros H. exists 1%nat. cbn [reader_loop]. rewrite H. reflexivity. Qed.

Lemma scans_step f st r :
  at_end (r_p st) = false -> scans f (reader_step f st) r -> scans f st r.
Proof.
  intros H [fuel Hf]. exists (S fuel). cbn [reader_loop]. rewrite H. exact Hf.
Qed.

Lemma scans_reader p f r :
  scans f (reader_init p f) r -> reader p f = Some (reader_finish r).
Proof.
  intros [fuel Hf]. unfold reader.
  destruct (reader_loop_total f (S (String.length p)) (reader_init p f)) as [s' Hs'];
    [reflexivity|unfold reader_init; cbn [r_p]; lia|].
  rewrite Hs'. cbn [fmap option_fmap option_map]. f_equal. f_equal.
  pose proof (reader_loop_mono f _ (max fuel (S (String.length p))) _ _ Hf
                (Nat.le_max_l _ _)) as H1.
  pose proof (reader_loop_mono f _ (max fuel (S (String.length p))) _ _ Hs'
                (Nat.le_max_r _ _)) as H2.
  congruence.
Qed.

(** In [s_initial] the pass goes on as in [s_output], after the literal has
    been opened. *)
Lemma scans_initial f st r :
  r_state st = s_initial -> at_end (r_p st) = false ->
  scans f (step_initial st) r -> scans f st r.
Proof.
  intros Hs He [fuel Hf]. exists fuel.
  destruct fuel as [|fuel]; [discriminate|]. cbn [reader_loop] in *.
  destruct (step_initial_spec st) as [Hp Hst]. rewrite Hp in Hf. rewrite He in *.
  unfold reader_step in *. rewrite Hs. rewrite Hst in Hf. exact Hf.
Qed.

Lemma buf_addstring_nil st : buf_addstring EmptyString st = st.
Proof.
  destruct st as [p s e x bl o cb bd bk b inc fn ov].
  destruct b; unfold buf_addstring, set_body, set_blocks;
    cbn [r_b r_body r_blocks r_p r_state r_escape r_extends r_block r_output r_cb
         r_includes r_fnam r_overrun]; rewrite append_nil_r; reflexivity.
Qed.

Lemma buf_addstring_twice a b st :
  buf_addstring b (buf_addstring a st) = buf_addstring (a +:+ b) st.
Proof.
  destruct st as [p s e x bl o cb bd bk bf inc fn ov].
  destruct bf; unfold buf_addstring, set_body, set_blocks;
    cbn [r_b r_body r_blocks r_p r_state r_escape r_extends r_block r_output r_cb
         r_includes r_fnam r_overrun]; rewrite append_assoc; reflexivity.
Qed.

Lemma set_p_twice q q' st : set_p q (set_p q' st) = set_p q st.
Proof. reflexivity. Qed.

Lemma buf_addstring_set_p a q st :
  buf_addstring a (set_p q st) = set_p q (buf_addstring a st).
Proof.
  destruct st as [p s e x bl o cb bd bk bf inc fn ov]. destruct bf; reflexivity.
Qed.

Lemma copy_char_cons c q st :
  r_p st = String c q -> copy_char st = set_p q (buf_addstring (String c EmptyString) st).
Proof.
  intros H. unfold copy_char. rewrite H. reflexivity.
Qed.

Lemma at_end_cons c q : Ascii.eqb c NUL = false -> at_end (String c q) = false.
Proof. intros H. unfold at_end. cbn [deref]. exact H. Qed.

Lemma no_nul_cons c t :
  no_char NUL (String c t) = true -> Ascii.eqb c NUL = false /\ no_char NUL t = true.
Proof.
  unfold no_char. cbn [mem_char]. rewrite negb_true_iff. intros H.
  apply orb_false_elim in H as [H1 H2]. rewrite Ascii.eqb_sym in H1.
  split; [exact H1|]. rewrite H2. reflexivity.
Qed.

Lemma starts_open_app c t rest :
  starts "<%" (String c t) = false ->
  rest = EmptyString \/ deref rest = "<"%char ->
  starts "<%" (String c (t +:+ rest)) = false.
Proof.
  unfold starts. cbn [String.prefix]. destruct (ascii_dec "<" c); [|reflexivity].
  destruct t as [|d t].
  - intros _ Hrest. rewrite app_nil. destruct rest as [|d rest]; [reflexivity|].
    destruct Hrest as [?|Hd]; [discriminate|]. cbn [deref] in Hd. subst d. reflexivity.
  - intros H _. rewrite app_cons. cbn [String.prefix] in *.
    destruct (ascii_dec "%" d); [destruct t; discriminate|reflexivity].
Qed.

Lemma starts_close_app c t rest :
  negb (Ascii.eqb c "%" && Ascii.eqb (deref t) ">") = true ->
  starts "%>" (String c (t +:+ "%>" +:+ rest)) = false.
Proof.
  unfold starts. intros H. apply negb_true_iff in H.
  destruct (Ascii.eqb_spec c "%") as [->|Hc].
  - cbn [andb] in H. destruct t as [|d t]; [reflexivity|].
    rewrite app_cons. cbn [deref] in H. cbn [String.prefix].
    destruct (ascii_dec "%" "%"); [|contradiction].
    destruct (ascii_dec ">" d) as [<-|]; [|reflexivity].
    rewrite Ascii.eqb_refl in H. discriminate.
  - cbn [String.prefix]. destruct (ascii_dec "%" c) as [<-|]; [contradiction|reflexivity].
Qed.

Lemma starts_app lit : forall rest, starts lit (lit +:+ rest) = true.
Proof.
  unfold starts. induction lit as [|a lit IH]; intros rest.
  - rewrite app_nil. destruct rest; reflexivity.
  - rewrite app_cons. cbn [String.prefix].
    destruct (ascii_dec a a); [apply IH|contradiction].
Qed.

Lemma scans_literal f :
  forall text st r rest,
    r_state st = s_output -> r_p st = text +:+ rest ->
    no_char NUL text = true -> directive_free text = true ->
    rest = EmptyString \/ deref rest = "<"%char ->
    scans f (set_p rest (buf_addstring text st)) r -> scans f st r.
Proof.
  induction text as [|c t IH]; intros st r rest Hs Hp Hnul Hdf Hrest H.
  - rewrite buf_addstring_nil in H. rewrite app_nil in Hp.
    replace (set_p rest st) with st in H; [exact H|].
    destruct st; cbn [r_p] in Hp; subst; reflexivity.
  - rewrite app_cons in Hp.
    destruct (no_nul_cons c t Hnul) as [Hc Hnul'].
    cbn [directive_free] in Hdf. apply andb_prop in Hdf as [Hopen Hdf].
    apply negb_true_iff in Hopen.
    apply scans_step; [rewrite Hp; apply at_end_cons; exact Hc|].
    unfold reader_step. rewrite Hs. unfold step_output. rewrite Hp.
    rewrite (starts_open_app c t rest Hopen Hrest). cbn [negb].
    rewrite (copy_char_cons c (t +:+ rest) st Hp).
    apply (IH _ r rest); try assumption.
    + scanner_fields. exact Hs.
    + reflexivity.
    + rewrite buf_addstring_set_p, set_p_twice, buf_addstring_twice. exact H.
Qed.

Lemma scans_code f :
  forall code st r rest,
    r_state st = s_code -> r_p st = code +:+ "%>" +:+ rest ->
    no_char NUL code = true -> close_free code = true ->
    scans f (set_p rest (set_state s_initial (buf_addstring (code +:+ nl) st))) r ->
    scans f st r.
Proof.
  induction code as [|c t IH]; intros st r rest Hs Hp Hnul Hcf H.
  - rewrite app_nil in Hp.
    apply scans_step; [rewrite Hp; reflexivity|].
    unfold reader_step. rewrite Hs. unfold step_code. rewrite Hp.
    rewrite (starts_app "%>" rest). exact H.
  - rewrite app_cons in Hp.
    destruct (no_nul_cons c t Hnul) as [Hc Hnul'].
    cbn [close_free] in Hcf. apply andb_prop in Hcf as [Hclose Hcf].
    apply scans_step; [rewrite Hp; apply at_end_cons; exact Hc|].
    unfold reader_step. rewrite Hs. unfold step_code. rewrite Hp.
    rewrite (starts_close_app c t rest Hclose). cbn [negb].
    rewrite (copy_char_cons c _ st Hp).
    apply (IH _ r rest); try assumption.
    + scanner_fields. exact Hs.
    + reflexivity.
    + rewrite buf_addstring_set_p, buf_addstring_twice. exact H.
Qed.

Lemma close_braces_spec n : forall st, close_braces n st = buf_addstring (parens n) st.
Proof.
  induction n as [|n IH]; intros st; cbn [close_braces parens].
  - rewrite buf_addstring_nil. reflexivity.
  - rewrite IH. unfold buf_addchar. rewrite buf_addstring_twice. reflexivity.
Qed.

Lemma rcb_buf_addstring x s : r_cb (buf_addstring x s) = r_cb s.
Proof. unfold buf_addstring. destruct (r_b s); reflexivity. Qed.

Lemma buf_addstring_set_state a v st :
  buf_addstring a (set_state v st) = set_state v (buf_addstring a st).
Proof.
  destruct st as [p s e x bl o cb bd bk bf inc fn ov]. destruct bf; reflexivity.
Qed.

Lemma buf_addstring_set_cb a v st :
  buf_addstring a (set_cb v st) = set_cb v (buf_addstring a st).
Proof.
  destruct st as [p s e x bl o cb bd bk bf inc fn ov]. destruct bf; reflexivity.
Qed.

Lemma step_expression_close st rest :
  r_p st = "%>" +:+ rest ->
  step_expression st =
  set_p rest (set_cb 0 (set_state s_initial
                          (buf_addstring (parens (r_cb st) +:+ ")" +:+ nl) st))).
Proof.
  intros Hp. unfold step_expression. rewrite Hp, (starts_app "%>" rest). cbn [negb].
  cbv zeta. rewrite close_braces_spec.
  change (r_cb (set_state s_initial st)) with (r_cb st).
  rewrite buf_addstring_set_cb, buf_addstring_twice, buf_addstring_set_state.
  reflexivity.
Qed.

Lemma scans_expression f :
  forall e st r rest,
    r_state st = s_expression -> r_p st = e +:+ "%>" +:+ rest ->
    no_char NUL e = true -> close_free e = true ->
    scans f (set_p rest
               (set_cb 0 (set_state s_initial
                            (buf_addstring (e +:+ parens (r_cb st) +:+ ")" +:+ nl) st))))
          r ->
    scans f st r.
Proof.
  induction e as [|c t IH]; intros st r rest Hs Hp Hnul Hcf H.
  - rewrite app_nil in Hp.
    apply scans_step; [rewrite Hp; reflexivity|].
    unfold reader_step. rewrite Hs. rewrite (step_expression_close st rest Hp). exact H.
  - rewrite app_cons in Hp.
    destruct (no_nul_cons c t Hnul) as [Hc Hnul'].
    cbn [close_free] in Hcf. apply andb_prop in Hcf as [Hclose Hcf].
    apply scans_step; [rewrite Hp; apply at_end_cons; exact Hc|].
    unfold reader_step. rewrite Hs. unfold step_expression. rewrite Hp.
    rewrite (starts_close_app c t rest Hclose). cbn [negb].
    rewrite (copy_char_cons c _ st Hp).
    apply (IH _ r rest); try assumption.
    + scanner_fields. exact Hs.
    + reflexivity.
    + change (r_cb (set_p (t +:+ "%>" +:+ rest) (buf_addstring (String c EmptyString) st)))
        with (r_cb (buf_addstring (String c EmptyString) st)).
      rewrite rcb_buf_addstring, buf_addstring_set_p, buf_addstring_twice. exact H.
Qed.

(** *** A directive opens *)

Lemma open_instruction f st q :
  r_state st = s_output -> r_p st = "<%!" +:+ q ->
  reader_step f st = set_p (skip_spaces q) (set_state s_instruction (close_literal st)).
Proof.
  intros Hs Hp. unfold reader_step. rewrite Hs. unfold step_output. rewrite Hp.
  change ("<%!" +:+ q) with ("<%" +:+ "!" +:+ q).
  rewrite (starts_app "<%" ("!" +:+ q)). reflexivity.
Qed.

Lemma open_expression f st q :
  r_state st = s_output -> r_p st = "<%=" +:+ q ->
  reader_step f st =
  let '(p2, escape_temp) := mode_tag q (r_escape (close_literal st)) in
  let st2 := open_print escape_temp (set_state s_expression (close_literal st)) in
  let '(st3, p3) :=
    if Ascii.eqb (deref p2) "%" then
      let '(fm, rest) := take_format p2 in
      let s := buf_addstring ("string.format([[" +:+ fm +:+ "]], ") st2 in
      (set_cb (r_cb s + 1) s, rest)
    else (st2, p2) in
  set_p (skip_spaces p3) st3.
Proof.
  intros Hs Hp. unfold reader_step. rewrite Hs. unfold step_output. rewrite Hp.
  change ("<%=" +:+ q) with ("<%" +:+ "=" +:+ q).
  rewrite (starts_app "<%" ("=" +:+ q)). reflexivity.
Qed.

Lemma open_code f st q :
  r_state st = s_output -> r_p st = "<%" +:+ q ->
  Ascii.eqb (deref q) "=" = false -> Ascii.eqb (deref q) "!" = false ->
  reader_step f st = step_code (set_p (skip_spaces q) (set_state s_code (close_literal st))).
Proof.
  intros Hs Hp H1 H2. unfold reader_step. rewrite Hs. unfold step_output. rewrite Hp.
  rewrite (starts_app "<%" q). cbn [negb].
  change (advance 2 ("<%" +:+ q)) with q. rewrite H1, H2. reflexivity.
Qed.

Lemma scans_unstep f st r :
  at_end (r_p st) = false -> scans f st r -> scans f (reader_step f st) r.
Proof.
  intros He [fuel Hf]. destruct fuel as [|fuel]; [discriminate|].
  cbn [reader_loop] in Hf. rewrite He in Hf. exists fuel. exact Hf.
Qed.

Lemma skip_spaces_app code : forall rest,
  isspace (deref rest) = false -> skip_spaces (code +:+ rest) = skip_spaces code +:+ rest.
Proof.
  induction code as [|c t IH]; intros rest Hr.
  - rewrite app_nil. destruct rest as [|d rest]; [reflexivity|].
    cbn [skip_spaces deref] in *. rewrite Hr. reflexivity.
  - rewrite app_cons. cbn [skip_spaces]. destruct (isspace c); [apply IH; exact Hr|].
    rewrite app_cons. reflexivity.
Qed.

Lemma skip_spaces_no_nul s : no_char NUL s = true -> no_char NUL (skip_spaces s) = true.
Proof.
  induction s as [|c t IH]; intros H; [exact H|].
  cbn [skip_spaces]. destruct (isspace c); [|exact H].
  apply IH. apply (no_nul_cons c t H).
Qed.

Lemma skip_spaces_close_free s : close_free s = true -> close_free (skip_spaces s) = true.
Proof.
  induction s as [|c t IH]; intros H; [exact H|].
  cbn [skip_spaces]. destruct (isspace c); [|exact H].
  apply IH. cbn [close_free] in H. apply andb_prop in H as [_ H]. exact H.
Qed.

Lemma at_end_app s rest :
  no_char NUL s = true -> at_end rest = false -> at_end (s +:+ rest) = false.
Proof.
  destruct s as [|c t]; intros Hs Hr; [rewrite app_nil; exact Hr|].
  rewrite app_cons. apply at_end_cons. apply (no_nul_cons c t Hs).
Qed.

Lemma mode_tag_word m rest esc :
  m = e_html \/ m = e_xml \/ m = e_latex \/ m = e_url \/ m = e_none ->
  mode_tag (tag_word m +:+ rest) esc = (rest, m).
Proof.
  intros [->|[->|[->|[->| ->]]]]; unfold mode_tag.
  - change (tag_word e_html) with "html". rewrite (starts_app "html" rest). reflexivity.
  - change (tag_word e_xml) with "xml".
    change (starts "html" ("xml" +:+ rest)) with false.
    rewrite (starts_app "xml" rest). reflexivity.
  - change (tag_word e_latex) with "latex".
    change (starts "html" ("latex" +:+ rest)) with false.
    change (starts "xml" ("latex" +:+ rest)) with false.
    rewrite (starts_app "latex" rest). reflexivity.
  - change (tag_word e_url) with "url".
    change (starts "html" ("url" +:+ rest)) with false.
    change (starts "xml" ("url" +:+ rest)) with false.
    change (starts "latex" ("url" +:+ rest)) with false.
    rewrite (starts_app "url" rest). reflexivity.
  - change (tag_word e_none) with "none".
    change (starts "html" ("none" +:+ rest)) with false.
    change (starts "xml" ("none" +:+ rest)) with false.
    change (starts "latex" ("none" +:+ rest)) with false.
    change (starts "url" ("none" +:+ rest)) with false.
    rewrite (starts_app "none" rest). reflexivity.
Qed.

Lemma mode_tag_space c rest esc :
  isspace c = true -> mode_tag (String c rest) esc = (String c rest, esc).
Proof.
  intros H. unfold mode_tag, starts. cbn [String.prefix].
  repeat match goal with
         | |- context [ascii_dec ?a c] => destruct (ascii_dec a c) as [<-|]; [discriminate|]
         end.
  reflexivity.
Qed.

Lemma deref_app_cons c t rest : deref (String c t +:+ rest) = c.
Proof. reflexivity. Qed.

Lemma open_print_spec m st :
  m = e_html \/ m = e_xml \/ m = e_latex \/ m = e_url \/ m = e_none ->
  open_print m st =
  set_cb (r_cb st + (if m =? e_none then 0 else 1)) (buf_addstring (open_text m) st).
Proof.
  intros [->|[->|[->|[->| ->]]]]; unfold open_print; cbn [Z.eqb e_html e_xml e_latex e_url e_none Pos.eqb];
    try reflexivity.
  destruct st as [p s e x bl o cb bd bk b inc fn ov]. destruct b; cbn; rewrite Nat.add_0_r; reflexivity.
Qed.

(** *** Instructions with a simple name *)

Lemma scan_bare_name x : forall n rest,
  name_chars x = true -> n + Z.of_nat (String.length x) < MAXPATHLEN ->
  0 <= n ->
  scan_bare (x +:+ String " " rest) n = (x, String " " rest, false).
Proof.
  induction x as [|c x IH]; intros n rest Hx Hn H0.
  - rewrite app_nil. cbn [scan_bare]. cbn [String.length] in Hn.
    change (isspace " ") with true. rewrite orb_true_r. cbn [orb].
    assert (Hlt : (n <? MAXPATHLEN) = true) by (apply Z.ltb_lt; lia).
    rewrite Hlt. reflexivity.
  - rewrite app_cons. cbn [scan_bare]. cbn [name_chars] in Hx.
    apply andb_prop in Hx as [Hc Hx]. unfold name_char in Hc.
    repeat (apply andb_prop in Hc as [Hc ?]).
    repeat match goal with
           | H : negb _ = true |- _ => apply negb_true_iff in H
           end.
    cbn [String.length] in Hn. rewrite Nat2Z.inj_succ in Hn.
    assert (Hlt : (n <? MAXPATHLEN) = true) by (apply Z.ltb_lt; lia).
    rewrite Hlt. 
    match goal with
    | H : Ascii.eqb c NUL = false |- _ => rewrite H
    end.
    match goal with
    | H : isspace c = false |- _ => rewrite H
    end.
    match goal with
    | H : Ascii.eqb c "%" = false |- _ => rewrite H
    end.
    cbn [orb andb negb].
    rewrite (IH (n + 1) rest Hx) by lia. reflexivity.
Qed.

Lemma simple_name_parts x :
  simple_name x = true ->
  exists c t, x = String c t /\ name_char c = true /\ name_chars x = true /\
              Z.of_nat (String.length x) < MAXPATHLEN.
Proof.
  unfold simple_name. intros H. apply andb_prop in H as [H Hlen].
  apply andb_prop in H as [Hne Hx]. apply Z.ltb_lt in Hlen.
  destruct x as [|c t]; [discriminate|]. exists c, t.
  pose proof Hx as Hx'. cbn [name_chars] in Hx'. apply andb_prop in Hx' as [Hc _].
  auto.
Qed.

Lemma read_name_simple x rest :
  simple_name x = true ->
  read_name (String " " (x +:+ String " " rest)) = (x, String " " rest, false).
Proof.
  intros H. destruct (simple_name_parts x H) as (c & t & -> & Hc & Hx & Hlen).
  unfold read_name. change (isspace " ") with true. cbn [skip_spaces].
  change (isspace " ") with true. cbv iota.
  unfold name_char in Hc.
  repeat (apply andb_prop in Hc as [Hc ?]).
  repeat match goal with
         | H : negb _ = true |- _ => apply negb_true_iff in H
         end.
  rewrite app_cons. cbn [skip_spaces].
  match goal with
  | H : isspace c = false |- _ => rewrite H
  end.
  cbn [deref].
  match goal with
  | H : Ascii.eqb c DQUOTE = false |- _ => rewrite H
  end.
  match goal with
  | H : Ascii.eqb c SQUOTE = false |- _ => rewrite H
  end.
  cbn [orb]. rewrite <- app_cons. apply scan_bare_name; [exact Hx|lia|lia].
Qed.

Lemma after_close_space rest : after_close (" %>" +:+ rest) = rest.
Proof.
  unfold after_close.
  change (find_close (" %>" +:+ rest))
    with (if starts "%>" ("%>" +:+ rest) then "%>" +:+ rest
          else find_close (String ">" rest)).
  rewrite (starts_app "%>" rest). reflexivity.
Qed.

Lemma step_include f st x rest :
  r_state st = s_instruction ->
  r_p st = "include " +:+ x +:+ " %>" +:+ rest ->
  simple_name x = true ->
  reader_step f st =
  set_state s_initial
    (set_p rest
       (record_include x
          (buf_addstring ("render_template(_ENV, '" +:+ x +:+ "')" +:+ nl)
             (set_p (" %>" +:+ rest) (set_fnam x st))))).
Proof.
  intros Hs Hp Hx. unfold reader_step. rewrite Hs. unfold step_instruction.
  rewrite Hp. change ("include " +:+ x +:+ " %>" +:+ rest)
    with ("include" +:+ String " " (x +:+ String " " ("%>" +:+ rest))).
  rewrite (starts_app "include"). unfold parse_name. rewrite Hp.
  change (advance 7 ("include " +:+ x +:+ " %>" +:+ rest))
    with (String " " (x +:+ String " " ("%>" +:+ rest))).
  rewrite (read_name_simple x _ Hx). cbv zeta.
  change (fnam_of (set_p (String " " ("%>" +:+ rest)) (set_fnam x st))) with x.
  fold (after_close
          (r_p (record_include x
                  (buf_addstring ("render_template(_ENV, '" +:+ x +:+ "')" +:+ nl)
                     (set_p (String " " ("%>" +:+ rest)) (set_fnam x st)))))).
  rewrite rp_record_include, rp_buf_addstring.
  change (r_p (set_p (String " " ("%>" +:+ rest)) (set_fnam x st)))
    with (" %>" +:+ rest).
  rewrite after_close_space. reflexivity.
Qed.

(** ** Templates without blocks *)

Lemma step_escape f st m rest :
  r_state st = s_instruction ->
  r_p st = "escape " +:+ escape_word m +:+ " %>" +:+ rest ->
  ambient_mode m ->
  reader_step f st = set_state s_initial (set_p rest (set_escape m st)).
Proof.
  intros Hs Hp Hm. unfold reader_step. rewrite Hs. unfold step_instruction. rewrite Hp.
  change (starts "include" ("escape " +:+ escape_word m +:+ " %>" +:+ rest)) with false.
  change ("escape " +:+ escape_word m +:+ " %>" +:+ rest)
    with ("escape" +:+ String " " (escape_word m +:+ " %>" +:+ rest)).
  rewrite (starts_app "escape"). cbv iota.
  change (skip_spaces (advance 6 ("escape" +:+ String " " (escape_word m +:+ " %>" +:+ rest))))
    with (skip_spaces (String " " (escape_word m +:+ " %>" +:+ rest))).
  destruct Hm as [->|[->|[->| ->]]].
  - change (skip_spaces (String " " (escape_word e_none +:+ " %>" +:+ rest)))
      with ("none" +:+ " %>" +:+ rest).
    rewrite (starts_app "none"). cbv iota zeta.
    change (advance 4 ("none" +:+ " %>" +:+ rest)) with (" %>" +:+ rest).
    fold (after_close (r_p (set_p (" %>" +:+ rest) (set_escape e_none st)))).
    change (r_p (set_p (" %>" +:+ rest) (set_escape e_none st))) with (" %>" +:+ rest).
    rewrite after_close_space. reflexivity.
  - change (skip_spaces (String " " (escape_word e_html +:+ " %>" +:+ rest)))
      with ("html" +:+ " %>" +:+ rest).
    change (starts "none" ("html" +:+ " %>" +:+ rest)) with false.
    rewrite (starts_app "html"). cbv iota zeta.
    change (advance 4 ("html" +:+ " %>" +:+ rest)) with (" %>" +:+ rest).
    fold (after_close (r_p (set_p (" %>" +:+ rest) (set_escape e_html st)))).
    change (r_p (set_p (" %>" +:+ rest) (set_escape e_html st))) with (" %>" +:+ rest).
    rewrite after_close_space. reflexivity.
  - change (skip_spaces (String " " (escape_word e_latex +:+ " %>" +:+ rest)))
      with ("latex" +:+ " %>" +:+ rest).
    change (starts "none" ("latex" +:+ " %>" +:+ rest)) with false.
    change (starts "html" ("latex" +:+ " %>" +:+ rest)) with false.
    rewrite (starts_app "latex"). cbv iota zeta.
    change (advance 5 ("latex" +:+ " %>" +:+ rest)) with (" %>" +:+ rest).
    fold (after_close (r_p (set_p (" %>" +:+ rest) (set_escape e_latex st)))).
    change (r_p (set_p (" %>" +:+ rest) (set_escape e_latex st))) with (" %>" +:+ rest).
    rewrite after_close_space. reflexivity.
  - change (skip_spaces (String " " (escape_word e_url +:+ " %>" +:+ rest)))
      with ("url" +:+ " %>" +:+ rest).
    change (starts "none" ("url" +:+ " %>" +:+ rest)) with false.
    change (starts "html" ("url" +:+ " %>" +:+ rest)) with false.
    change (starts "latex" ("url" +:+ " %>" +:+ rest)) with false.
    rewrite (starts_app "url"). cbv iota zeta.
    change (advance 3 ("url" +:+ " %>" +:+ rest)) with (" %>" +:+ rest).
    fold (after_close (r_p (set_p (" %>" +:+ rest) (set_escape e_url st)))).
    change (r_p (set_p (" %>" +:+ rest) (set_escape e_url st))) with (" %>" +:+ rest).
    rewrite after_close_space. reflexivity.
Qed.

Lemma item_literal f t R e x bl b bd bk inc fn ov r :
  prints x bl = true ->
  t <> EmptyString -> directive_free t = true -> no_char NUL t = true ->
  R = EmptyString \/ deref R = "<"%char ->
  scans f (at_item R s_output e x bl true b ((bd +:+ "print([[") +:+ t) bk inc fn ov) r ->
  scans f (at_item (t +:+ R) s_initial e x bl false b bd bk inc fn ov) r.
Proof.
  intros Hpr Hne Hdf Hnul HR H.
  destruct t as [|c t]; [contradiction|].
  unfold prints in Hpr.
  destruct b.
  all: pose proof Hdf as Hdf'; cbn [directive_free] in Hdf'.
  all: apply andb_prop in Hdf' as [Hopen _]; apply negb_true_iff in Hopen.
  all: (apply scans_initial;
        [reflexivity
        |unfold at_item; cbn [r_p]; rewrite app_cons; apply at_end_cons;
         apply (no_nul_cons c t Hnul)
        |]).
  all: unfold step_initial, at_item; cbn [r_p r_extends r_block].
  all: rewrite app_cons, (starts_open_app c t R Hopen HR); cbn [negb andb].
  all: rewrite Hpr, <- app_cons.
  all: apply (scans_literal f (String c t) _ r R); try assumption; try reflexivity.
Qed.

Lemma item_enter f P s e x bl o b bd bk inc fn ov r :
  starts "<%" P = true -> at_end P = false ->
  (s = s_initial /\ o = false) \/ s = s_output ->
  scans f (at_item P s_output e x bl o b bd bk inc fn ov) r ->
  scans f (at_item P s e x bl o b bd bk inc fn ov) r.
Proof.
  intros Hopen Hend [[-> ->]| ->] H; [|exact H].
  apply scans_initial; [reflexivity|exact Hend|].
  unfold step_initial, at_item. cbn [r_p]. rewrite Hopen. exact H.
Qed.

Lemma item_code_step f c R e x bl o b bd bk inc fn ov r :
  no_char NUL c = true -> close_free c = true ->
  Ascii.eqb (deref c) "=" = false -> Ascii.eqb (deref c) "!" = false ->
  scans f (at_item R s_initial e x bl false b (closed bd o +:+ skip_spaces c +:+ nl)
             bk inc fn ov) r ->
  scans f (at_item ("<%" +:+ c +:+ "%>" +:+ R) s_output e x bl o b bd bk inc fn ov) r.
Proof.
  intros Hnul Hcf H1 H2 H.
  assert (Hd1 : Ascii.eqb (deref (c +:+ "%>" +:+ R)) "=" = false)
    by (destruct c; [reflexivity|exact H1]).
  assert (Hd2 : Ascii.eqb (deref (c +:+ "%>" +:+ R)) "!" = false)
    by (destruct c; [reflexivity|exact H2]).
  apply scans_step; [reflexivity|].
  rewrite (open_code f _ (c +:+ "%>" +:+ R));
    [|reflexivity|reflexivity|exact Hd1|exact Hd2].
  rewrite (skip_spaces_app c ("%>" +:+ R) eq_refl).
  match goal with
  | |- scans f (step_code ?X) r => change (step_code X) with (reader_step f X)
  end.
  apply scans_unstep.
  { apply at_end_app; [apply skip_spaces_no_nul; exact Hnul|reflexivity]. }
  apply (scans_code f (skip_spaces c) _ r R); try reflexivity.
  - apply skip_spaces_no_nul; exact Hnul.
  - apply skip_spaces_close_free; exact Hcf.
  - destruct o, b; exact H.
Qed.

Lemma close_text_parens m :
  is_mode m -> parens (if m =? e_none then 0 else 1) +:+ ")" +:+ nl = close_text m.
Proof. intros [->|[->|[->|[->| ->]]]]; reflexivity. Qed.

Lemma item_expr_scan f e0 m R P e x bl o b bd bk inc fn ov r :
  is_mode m -> no_char NUL e0 = true -> close_free e0 = true ->
  scans f (at_item R s_initial e x bl false b
             ((closed bd o +:+ open_text m) +:+ e0 +:+ close_text m) bk inc fn ov) r ->
  scans f (set_p (e0 +:+ "%>" +:+ R)
             (open_print m
                (set_state s_expression
                   (close_literal (at_item P s_output e x bl o b bd bk inc fn ov))))) r.
Proof.
  intros Hm Hnul Hcf H. rewrite (open_print_spec m _ Hm).
  rewrite <- (close_text_parens m Hm) in H.
  apply (scans_expression f e0 _ r R); try assumption.
  - destruct o, b; reflexivity.
  - reflexivity.
  - destruct o, b; exact H.
Qed.

Lemma item_expr_tagged f m e0 R e x bl o b bd bk inc fn ov r :
  is_mode m -> no_char NUL e0 = true -> close_free e0 = true ->
  e0 <> EmptyString -> Ascii.eqb (deref e0) "%" = false ->
  scans f (at_item R s_initial e x bl false b
             ((closed bd o +:+ open_text m) +:+ skip_spaces e0 +:+ close_text m)
             bk inc fn ov) r ->
  scans f (at_item ("<%=" +:+ tag_word m +:+ e0 +:+ "%>" +:+ R) s_output e x bl o b bd bk
             inc fn ov) r.
Proof.
  intros Hm Hnul Hcf Hne Hfmt H.
  destruct e0 as [|c t]; [contradiction|]. cbn [deref] in Hfmt.
  apply scans_step; [reflexivity|].
  rewrite (open_expression f _ (tag_word m +:+ String c t +:+ "%>" +:+ R));
    [|reflexivity|reflexivity].
  rewrite (mode_tag_word m _ _ Hm). cbv zeta.
  rewrite deref_app_cons, Hfmt.
  rewrite (skip_spaces_app (String c t) ("%>" +:+ R) eq_refl).
  apply item_expr_scan; try assumption.
  - apply skip_spaces_no_nul; exact Hnul.
  - apply skip_spaces_close_free; exact Hcf.
Qed.

Lemma ambient_is_mode e : ambient_mode e -> is_mode e.
Proof. unfold ambient_mode, is_mode. intuition. Qed.

Lemma item_expr_untagged f e0 R e x bl o b bd bk inc fn ov r :
  ambient_mode e -> no_char NUL e0 = true -> close_free e0 = true ->
  isspace (deref e0) = true ->
  scans f (at_item R s_initial e x bl false b
             ((closed bd o +:+ open_text e) +:+ skip_spaces e0 +:+ close_text e)
             bk inc fn ov) r ->
  scans f (at_item ("<%=" +:+ e0 +:+ "%>" +:+ R) s_output e x bl o b bd bk inc fn ov) r.
Proof.
  intros Hm Hnul Hcf Hsp H.
  destruct e0 as [|c t]; [discriminate|]. cbn [deref] in Hsp.
  assert (Hfmt : Ascii.eqb c "%" = false)
    by (destruct (Ascii.eqb_spec c "%") as [->|]; [discriminate|reflexivity]).
  apply scans_step; [reflexivity|].
  rewrite (open_expression f _ (String c t +:+ "%>" +:+ R)); [|reflexivity|reflexivity].
  rewrite app_cons, (mode_tag_space c _ _ Hsp). cbv zeta. rewrite <- app_cons.
  rewrite deref_app_cons, Hfmt.
  rewrite (skip_spaces_app (String c t) ("%>" +:+ R) eq_refl).
  replace (r_escape (close_literal
                       (at_item ("<%=" +:+ String c t +:+ "%>" +:+ R) s_output e x bl o
                          b bd bk inc fn ov))) with e by (destruct o, b; reflexivity).
  apply item_expr_scan; try assumption.
  - apply ambient_is_mode; exact Hm.
  - apply skip_spaces_no_nul; exact Hnul.
  - apply skip_spaces_close_free; exact Hcf.
Qed.

Lemma take_format_app fmt : forall rest,
  format_chars fmt = true -> isspace (deref rest) = true ->
  take_format (fmt +:+ rest) = (fmt, rest).
Proof.
  induction fmt as [|c t IH]; intros rest Hf Hr.
  - rewrite app_nil. destruct rest as [|d rest]; [discriminate|].
    cbn [take_format deref] in *. rewrite Hr, orb_true_r. reflexivity.
  - rewrite app_cons. cbn [format_chars] in Hf. apply andb_prop in Hf as [Hc Hf].
    apply negb_true_iff in Hc. cbn [take_format]. rewrite Hc, (IH rest Hf Hr).
    reflexivity.
Qed.

Lemma mode_tag_percent t esc : mode_tag (String "%" t) esc = (String "%" t, esc).
Proof. reflexivity. Qed.

Lemma parens_close m :
  is_mode m ->
  parens ((if (m =? e_none)%Z then 0 else 1) + 1) +:+ ")" +:+ nl = ")" +:+ close_text m.
Proof. intros [->|[->|[->|[->| ->]]]]; reflexivity. Qed.

(** From the state in which [p] is at the format. *)
Lemma item_format_scan f fmt e0 m R P e x bl o b bd bk inc fn ov r :
  is_mode m -> deref fmt = "%"%char -> format_chars fmt = true ->
  no_char NUL e0 = true -> close_free e0 = true -> isspace (deref e0) = true ->
  scans f (at_item R s_initial e x bl false b
             (((closed bd o +:+ open_text m) +:+ "string.format([[" +:+ fmt +:+ "]], ")
              +:+ skip_spaces e0 +:+ ")" +:+ close_text m) bk inc fn ov) r ->
  scans f (let st2 := open_print m
                        (set_state s_expression
                           (close_literal (at_item P s_output e x bl o b bd bk inc fn ov))) in
           let '(st3, p3) :=
             if Ascii.eqb (deref (fmt +:+ e0 +:+ "%>" +:+ R)) "%" then
               let '(fm, rest) := take_format (fmt +:+ e0 +:+ "%>" +:+ R) in
               let s := buf_addstring ("string.format([[" +:+ fm +:+ "]], ") st2 in
               (set_cb (r_cb s + 1) s, rest)
             else (st2, fmt +:+ e0 +:+ "%>" +:+ R) in
           set_p (skip_spaces p3) st3) r.
Proof.
  intros Hm Hd Hf Hnul Hcf Hsp H. cbv zeta.
  destruct fmt as [|c fmt]; [discriminate|]. cbn [deref] in Hd. subst c.
  rewrite deref_app_cons. change (Ascii.eqb "%" "%") with true. cbv iota.
  rewrite (take_format_app (String "%" fmt) (e0 +:+ "%>" +:+ R) Hf)
    by (destruct e0; [discriminate|exact Hsp]).
  rewrite (skip_spaces_app e0 ("%>" +:+ R) eq_refl).
  rewrite (open_print_spec m _ Hm).
  rewrite <- (parens_close m Hm) in H.
  apply (scans_expression f (skip_spaces e0) _ r R).
  - destruct o, b; reflexivity.
  - reflexivity.
  - apply skip_spaces_no_nul; exact Hnul.
  - apply skip_spaces_close_free; exact Hcf.
  - destruct o, b; exact H.
Qed.

Lemma item_format_tagged f m fmt e0 R e x bl o b bd bk inc fn ov r :
  is_mode m -> deref fmt = "%"%char -> format_chars fmt = true ->
  no_char NUL e0 = true -> close_free e0 = true -> isspace (deref e0) = true ->
  scans f (at_item R s_initial e x bl false b
             (((closed bd o +:+ open_text m) +:+ "string.format([[" +:+ fmt +:+ "]], ")
              +:+ skip_spaces e0 +:+ ")" +:+ close_text m) bk inc fn ov) r ->
  scans f (at_item ("<%=" +:+ tag_word m +:+ fmt +:+ e0 +:+ "%>" +:+ R) s_output e x bl o
             b bd bk inc fn ov) r.
Proof.
  intros Hm Hd Hf Hnul Hcf Hsp H.
  apply scans_step; [reflexivity|].
  rewrite (open_expression f _ (tag_word m +:+ fmt +:+ e0 +:+ "%>" +:+ R));
    [|reflexivity|reflexivity].
  rewrite (mode_tag_word m _ _ Hm).
  apply item_format_scan; assumption.
Qed.

Lemma item_format_untagged f fmt e0 R e x bl o b bd bk inc fn ov r :
  ambient_mode e -> deref fmt = "%"%char -> format_chars fmt = true ->
  no_char NUL e0 = true -> close_free e0 = true -> isspace (deref e0) = true ->
  scans f (at_item R s_initial e x bl false b
             (((closed bd o +:+ open_text e) +:+ "string.format([[" +:+ fmt +:+ "]], ")
              +:+ skip_spaces e0 +:+ ")" +:+ close_text e) bk inc fn ov) r ->
  scans f (at_item ("<%=" +:+ fmt +:+ e0 +:+ "%>" +:+ R) s_output e x bl o b bd bk inc fn
             ov) r.
Proof.
  intros He Hd Hf Hnul Hcf Hsp H.
  apply scans_step; [reflexivity|].
  rewrite (open_expression f _ (fmt +:+ e0 +:+ "%>" +:+ R)); [|reflexivity|reflexivity].
  destruct fmt as [|c fmt]; [discriminate|]. cbn [deref] in Hd. subst c.
  rewrite app_cons, mode_tag_percent, <- app_cons.
  replace (r_escape
             (close_literal
                (at_item ("<%=" +:+ String "%" fmt +:+ e0 +:+ "%>" +:+ R) s_output e x bl
                   o b bd bk inc fn ov))) with e by (destruct o, b; reflexivity).
  apply item_format_scan; try assumption; [apply ambient_is_mode; exact He|reflexivity].
Qed.

Lemma item_include_step f y R e x bl o b bd bk inc fn ov r :
  simple_name y = true ->
  scans f (at_item R s_initial e x bl false b
             (closed bd o +:+ "render_template(_ENV, '" +:+ y +:+ "')" +:+ nl) bk
             (if bool_decide (y ∈ inc) then inc else y :: inc) (Some y) ov) r ->
  scans f (at_item ("<%! include " +:+ y +:+ " %>" +:+ R) s_output e x bl o b bd bk inc
             fn ov) r.
Proof.
  intros Hy H.
  apply scans_step; [reflexivity|].
  rewrite (open_instruction f _ (" include " +:+ y +:+ " %>" +:+ R));
    [|reflexivity|reflexivity].
  change (skip_spaces (" include " +:+ y +:+ " %>" +:+ R))
    with ("include " +:+ y +:+ " %>" +:+ R).
  apply scans_step; [reflexivity|].
  rewrite (step_include f _ y R); [|reflexivity|reflexivity|exact Hy].
  unfold record_include.
  replace (r_includes
             (buf_addstring ("render_template(_ENV, '" +:+ y +:+ "')" +:+ nl)
                (set_p (" %>" +:+ R)
                   (set_fnam y
                      (set_p ("include " +:+ y +:+ " %>" +:+ R)
                         (set_state s_instruction
                            (close_literal
                               (at_item ("<%! include " +:+ y +:+ " %>" +:+ R) s_output e x
                                  bl o b bd bk inc fn ov))))))))
    with inc by (destruct o, b; reflexivity).
  destruct (bool_decide (y ∈ inc)); destruct o, b; exact H.
Qed.

Lemma item_escape_step f m R e x bl o b bd bk inc fn ov r :
  ambient_mode m ->
  scans f (at_item R s_initial m x bl false b (closed bd o) bk inc fn ov) r ->
  scans f (at_item ("<%! escape " +:+ escape_word m +:+ " %>" +:+ R) s_output e x bl o b
             bd bk inc fn ov) r.
Proof.
  intros Hm H.
  apply scans_step; [reflexivity|].
  rewrite (open_instruction f _ (" escape " +:+ escape_word m +:+ " %>" +:+ R));
    [|reflexivity|reflexivity].
  change (skip_spaces (" escape " +:+ escape_word m +:+ " %>" +:+ R))
    with ("escape " +:+ escape_word m +:+ " %>" +:+ R).
  apply scans_step; [reflexivity|].
  rewrite (step_escape f _ m R); [|reflexivity|reflexivity|exact Hm].
  destruct o, b; exact H.
Qed.

Lemma item_text_opens i R :
  is_lit i = false ->
  starts "<%" (item_text i +:+ R) = true /\ at_end (item_text i +:+ R) = false /\
  deref (item_text i +:+ R) = "<"%char.
Proof.
  destruct i as [t|c|[m|] e|[m|] fm e|x|m]; intros Hl; try discriminate; cbn [item_text];
    rewrite !append_assoc; (split; [|split; reflexivity]).
  - apply (starts_app "<%" (c +:+ "%>" +:+ R)).
  - apply (starts_app "<%" ("=" +:+ tag_word m +:+ e +:+ "%>" +:+ R)).
  - apply (starts_app "<%" ("=" +:+ e +:+ "%>" +:+ R)).
  - apply (starts_app "<%" ("=" +:+ tag_word m +:+ fm +:+ e +:+ "%>" +:+ R)).
  - apply (starts_app "<%" ("=" +:+ fm +:+ e +:+ "%>" +:+ R)).
  - apply (starts_app "<%" ("! include " +:+ x +:+ " %>" +:+ R)).
  - apply (starts_app "<%" ("! escape " +:+ escape_word m +:+ " %>" +:+ R)).
Qed.

Lemma template_text_head rest R :
  match rest with j :: _ => is_lit j = false | [] => True end ->
  R = EmptyString \/ deref R = "<"%char ->
  template_text rest +:+ R = EmptyString \/
  deref (template_text rest +:+ R) = "<"%char.
Proof.
  destruct rest as [|j rest]; intros H HR; [exact HR|right].
  cbn [template_text]. rewrite append_assoc. apply item_text_opens. exact H.
Qed.

Lemma item_amb_ambient items : forall e,
  items_ok items -> ambient_mode e -> ambient_mode (item_amb e items).
Proof.
  induction items as [|i rest IH]; intros e Hok He; [exact He|].
  destruct Hok as (Hi & Hrest & _).
  destruct i; cbn [item_amb]; apply IH; assumption.
Qed.

(** The scan of a run of pieces followed by [R]: whatever the scanner does
    from [R] on, it does after the pieces with their statements in the
    buffer in use. *)
Lemma items_scan f R :
  R = EmptyString \/ deref R = "<"%char ->
  forall items s e x bl o b bd bk inc fn ov,
    prints x bl = true ->
    items_ok items -> ambient_mode e ->
    ((s = s_initial /\ o = false) \/
     (s = s_output /\ o = true /\
      match items with j :: _ => is_lit j = false | [] => True end)) ->
    exists s' o' bd',
      ((s' = s_initial /\ o' = false) \/ (s' = s_output /\ o' = true)) /\
      closed bd' o' = closed bd o +:+ item_code e items /\
      forall r,
        scans f (at_item R s' (item_amb e items) x bl o' b bd' bk
                   (item_includes items inc) (item_name items fn) ov) r ->
        scans f (at_item (template_text items +:+ R) s e x bl o b bd bk inc fn ov) r.
Proof.
  intros HR.
  induction items as [|i rest IH]; intros s e x bl o b bd bk inc fn ov Hpr Hok He Hst.
  - exists s, o, bd. split; [destruct Hst as [?|(? & ? & _)]; auto|]. split.
    + cbn [item_code]. rewrite append_nil_r. reflexivity.
    + intros r H. exact H.
  - destruct Hok as (Hi & Hrest & Hadj). cbn [template_text]. rewrite append_assoc.
    assert (Henter : is_lit i = false ->
              forall r,
                scans f (at_item (item_text i +:+ template_text rest +:+ R) s_output e x
                           bl o b bd bk inc fn ov) r ->
                scans f (at_item (item_text i +:+ template_text rest +:+ R) s e x bl o b
                           bd bk inc fn ov) r).
    { intros Hl r.
      destruct (item_text_opens i (template_text rest +:+ R) Hl) as (H1 & H2 & _).
      apply item_enter; [exact H1|exact H2|].
      destruct Hst as [?|(? & _)]; auto. }
    assert (Hnext : forall e1 bd1 inc1 fn1,
              ambient_mode e1 ->
              exists s' o' bd',
                ((s' = s_initial /\ o' = false) \/ (s' = s_output /\ o' = true)) /\
                closed bd' o' = bd1 +:+ item_code e1 rest /\
                forall r,
                  scans f (at_item R s' (item_amb e1 rest) x bl o' b bd' bk
                             (item_includes rest inc1) (item_name rest fn1) ov) r ->
                  scans f (at_item (template_text rest +:+ R) s_initial e1 x bl false b
                             bd1 bk inc1 fn1 ov) r).
    { intros e1 bd1 inc1 fn1 He1.
      apply (IH s_initial e1 x bl false b bd1 bk inc1 fn1 ov Hpr Hrest He1). left. auto. }
    destruct i as [t|c|[m|] e0|[m|] fm e0|y|m]; cbn [item_ok] in Hi.
    + destruct Hi as (Hne & Hdf & Hnul).
      destruct Hst as [[-> ->]|(_ & _ & Hbad)]; [|discriminate].
      destruct (IH s_output e x bl true b ((bd +:+ "print([[") +:+ t) bk inc fn ov Hpr
                  Hrest He)
        as (s' & o' & bd' & Hst' & Heq & Hscan).
      { right. split; [reflexivity|]. split; [reflexivity|]. apply Hadj. reflexivity. }
      exists s', o', bd'. split; [exact Hst'|]. split.
      * rewrite Heq. cbn [closed item_code]. rewrite !append_assoc. reflexivity.
      * intros r H. cbn [item_text item_includes item_amb item_name] in *.
        apply item_literal; try assumption.
        -- apply template_text_head; [apply Hadj; reflexivity|exact HR].
        -- apply Hscan. exact H.
    + destruct Hi as (Hnul & Hcf & H1 & H2).
      destruct (Hnext e (closed bd o +:+ skip_spaces c +:+ nl) inc fn He)
        as (s' & o' & bd' & Hst' & Heq & Hscan).
      exists s', o', bd'. split; [exact Hst'|]. split.
      * rewrite Heq. cbn [item_code]. rewrite !append_assoc. reflexivity.
      * intros r H. apply (Henter eq_refl).
        cbn [item_text item_includes item_amb item_name] in *. rewrite !append_assoc.
        apply item_code_step; try assumption. apply Hscan. exact H.
    + destruct Hi as (Hm & Hnul & Hcf & Hne & Hfmt).
      destruct (Hnext e ((closed bd o +:+ open_text m) +:+ skip_spaces e0 +:+ close_text m)
                  inc fn He)
        as (s' & o' & bd' & Hst' & Heq & Hscan).
      exists s', o', bd'. split; [exact Hst'|]. split.
      * rewrite Heq. cbn [item_code]. rewrite !append_assoc. reflexivity.
      * intros r H. apply (Henter eq_refl).
        cbn [item_text item_includes item_amb item_name] in *. rewrite !append_assoc.
        apply item_expr_tagged; try assumption. apply Hscan. exact H.
    + destruct Hi as (Hnul & Hcf & Hsp).
      destruct (Hnext e ((closed bd o +:+ open_text e) +:+ skip_spaces e0 +:+ close_text e)
                  inc fn He)
        as (s' & o' & bd' & Hst' & Heq & Hscan).
      exists s', o', bd'. split; [exact Hst'|]. split.
      * rewrite Heq. cbn [item_code]. rewrite !append_assoc. reflexivity.
      * intros r H. apply (Henter eq_refl).
        cbn [item_text item_includes item_amb item_name] in *. rewrite !append_assoc.
        apply item_expr_untagged; try assumption. apply Hscan. exact H.
    + destruct Hi as (Hm & Hd & Hf & Hnul & Hcf & Hsp).
      destruct (Hnext e (((closed bd o +:+ open_text m)
                          +:+ "string.format([[" +:+ fm +:+ "]], ")
                         +:+ skip_spaces e0 +:+ ")" +:+ close_text m) inc fn He)
        as (s' & o' & bd' & Hst' & Heq & Hscan).
      exists s', o', bd'. split; [exact Hst'|]. split.
      * rewrite Heq. cbn [item_code]. rewrite !append_assoc. reflexivity.
      * intros r H. apply (Henter eq_refl).
        cbn [item_text item_includes item_amb item_name] in *. rewrite !append_assoc.
        apply item_format_tagged; try assumption. apply Hscan. exact H.
    + destruct Hi as (_ & Hd & Hf & Hnul & Hcf & Hsp).
      destruct (Hnext e (((closed bd o +:+ open_text e)
                          +:+ "string.format([[" +:+ fm +:+ "]], ")
                         +:+ skip_spaces e0 +:+ ")" +:+ close_text e) inc fn He)
        as (s' & o' & bd' & Hst' & Heq & Hscan).
      exists s', o', bd'. split; [exact Hst'|]. split.
      * rewrite Heq. cbn [item_code]. rewrite !append_assoc. reflexivity.
      * intros r H. apply (Henter eq_refl).
        cbn [item_text item_includes item_amb item_name] in *. rewrite !append_assoc.
        apply item_format_untagged; try assumption. apply Hscan. exact H.
    + destruct (Hnext e (closed bd o +:+ "render_template(_ENV, '" +:+ y +:+ "')" +:+ nl)
                  (if bool_decide (y ∈ inc) then inc else y :: inc) (Some y) He)
        as (s' & o' & bd' & Hst' & Heq & Hscan).
      exists s', o', bd'. split; [exact Hst'|]. split.
      * rewrite Heq. cbn [item_code]. rewrite !append_assoc. reflexivity.
      * intros r H. apply (Henter eq_refl).
        cbn [item_text item_includes item_amb item_name] in *. rewrite !append_assoc.
        apply item_include_step; try assumption. apply Hscan. exact H.
    + destruct (Hnext m (closed bd o) inc fn Hi)
        as (s' & o' & bd' & Hst' & Heq & Hscan).
      exists s', o', bd'. split; [exact Hst'|]. split.
      * rewrite Heq. cbn [item_code]. reflexivity.
      * intros r H. apply (Henter eq_refl).
        cbn [item_text item_includes item_amb item_name] in *. rewrite !append_assoc.
        apply item_escape_step; try assumption. apply Hscan. exact H.
Qed.

(** X17. A template made of literal texts, code directives, expressions with or
    without tag and format, [include] and [escape] instructions compiles
    piece by piece: the main buffer is the prologue, the statement of each
    piece in the order of the template and the [end] of the routine; the
    block buffer keeps its first line alone; the dependency list holds the
    included names, each once, the latest new one first; no name overruns
    and the scan ends in [s_terminate]. *)
Theorem template_without_blocks_compiles :
  forall f items,
    items_ok items ->
    exists r,
      reader (template_text items) f = Some r /\
      r_body r = prologue f +:+ item_code e_none items +:+ "end" +:+ nl /\
      r_blocks r = "_ENV = ..." +:+ nl /\
      r_includes r = item_includes items [] /\
      r_overrun r = false /\ r_state r = s_terminate.
Proof.
  intros f items Hok.
  destruct (items_scan f EmptyString (or_introl eq_refl) items s_initial e_none false
              false false b_body (prologue f) ("_ENV = ..." +:+ nl) [] None false
              eq_refl Hok)
    as (s' & o' & bd' & Hst & Hbd & Hscan).
  { left. reflexivity. }
  { left. auto. }
  rewrite append_nil_r in Hscan.
  eexists. split; [apply scans_reader, Hscan, scans_here; reflexivity|].
  cbn [closed] in Hbd.
  destruct Hst as [[-> ->]|[-> ->]]; cbn [closed] in Hbd.
  - unfold reader_finish, at_item. cbn. rewrite Hbd, !append_assoc. repeat split.
  - unfold reader_finish, at_item. cbn.
    change ((bd' +:+ "]])" +:+ nl) +:+ "end" +:+ nl =
            prologue f +:+ item_code e_none items +:+ "end" +:+ nl /\
            "_ENV = ..." +:+ nl = "_ENV = ..." +:+ nl /\
            item_includes items [] = item_includes items [] /\ false = false /\
            s_terminate = s_terminate).
    rewrite Hbd, !append_assoc. repeat split.
Qed.

Lemma template_without_blocks_compiles_witness :
  exists r,
    reader (template_text [ILit "Dear "; IExpr None " name "; IInclude "foot";
                           ICode " n = n + 1 "; IEscape e_html;
                           IExpr None " n "; IExpr (Some e_url) " q ";
                           IFormat None "%5.2f" " price "]) "t" = Some r /\
    r_body r =
      prologue "t" +:+
      item_code e_none [ILit "Dear "; IExpr None " name "; IInclude "foot";
                        ICode " n = n + 1 "; IEscape e_html;
                        IExpr None " n "; IExpr (Some e_url) " q ";
                        IFormat None "%5.2f" " price "] +:+ "end" +:+ nl /\
    r_blocks r = "_ENV = ..." +:+ nl /\
    r_includes r =
      item_includes [ILit "Dear "; IExpr None " name "; IInclude "foot";
                     ICode " n = n + 1 "; IEscape e_html;
                     IExpr None " n "; IExpr (Some e_url) " q ";
                     IFormat None "%5.2f" " price "] [] /\
    r_overrun r = false /\ r_state r = s_terminate.
Proof.
  apply (template_without_blocks_compiles "t").
  cbn [items_ok item_ok is_lit]. unfold is_mode, ambient_mode.
  repeat split; try reflexivity; try discriminate; auto.
Defined.

(** ** Blocks *)

Lemma step_block f st name rest :
  r_state st = s_instruction ->
  r_p st = "block " +:+ name +:+ " %>" +:+ rest ->
  simple_name name = true ->
  reader_step f st =
  set_state s_initial
    (set_p rest
       (set_block true
          (buf_addstring
             ("template['" +:+ f +:+ "'].blk['" +:+ name +:+ "'] = function (_ENV)" +:+ nl)
             (if negb (r_extends st)
              then buf_addstring
                     ("if template['" +:+ f +:+ "'].blk['" +:+ name
                      +:+ "'] == nil then" +:+ nl)
                     (set_b b_blocks (set_p (" %>" +:+ rest) (set_fnam name st)))
              else set_b b_blocks (set_p (" %>" +:+ rest) (set_fnam name st)))))).
Proof.
  intros Hs Hp Hx. unfold reader_step. rewrite Hs. unfold step_instruction.
  rewrite Hp.
  change (starts "include" ("block " +:+ name +:+ " %>" +:+ rest)) with false.
  change (starts "escape" ("block " +:+ name +:+ " %>" +:+ rest)) with false.
  change ("block " +:+ name +:+ " %>" +:+ rest)
    with ("block" +:+ String " " (name +:+ String " " ("%>" +:+ rest))).
  rewrite (starts_app "block"). cbv iota. unfold parse_name. rewrite Hp.
  change (advance 5 ("block " +:+ name +:+ " %>" +:+ rest))
    with (String " " (name +:+ String " " ("%>" +:+ rest))).
  rewrite (read_name_simple name _ Hx). cbv zeta iota beta.
  change (r_extends (set_b b_blocks (set_p (String " " ("%>" +:+ rest)) (set_fnam name st))))
    with (r_extends st).
  change (String " " ("%>" +:+ rest)) with (" %>" +:+ rest).
  destruct (r_extends st); cbn [negb].
  - change (fnam_of (set_b b_blocks (set_p (" %>" +:+ rest) (set_fnam name st)))) with name.
    match goal with
    | |- set_state _ (set_p (if at_end (find_close (r_p ?s)) then _ else _) _) = _ =>
        fold (after_close (r_p s));
        replace (r_p s) with (" %>" +:+ rest) by (destruct st; reflexivity)
    end.
    rewrite after_close_space. reflexivity.
  - change (fnam_of (set_b b_blocks (set_p (" %>" +:+ rest) (set_fnam name st)))) with name.
    change (fnam_of
              (buf_addstring
                 ("if template['" +:+ f +:+ "'].blk['" +:+ name +:+ "'] == nil then" +:+ nl)
                 (set_b b_blocks (set_p (" %>" +:+ rest) (set_fnam name st))))) with name.
    match goal with
    | |- set_state _ (set_p (if at_end (find_close (r_p ?s)) then _ else _) _) = _ =>
        fold (after_close (r_p s));
        replace (r_p s) with (" %>" +:+ rest) by (destruct st; reflexivity)
    end.
    rewrite after_close_space. reflexivity.
Qed.

Lemma block_open_step f name R e x o bd bk inc fn ov r :
  simple_name name = true ->
  scans f (at_item R s_initial e x true false b_blocks (bk +:+ block_head f x name)
             (closed bd o) inc (Some name) ov) r ->
  scans f (at_item ("<%! block " +:+ name +:+ " %>" +:+ R) s_output e x false o b_body bd
             bk inc fn ov) r.
Proof.
  intros Hn H.
  apply scans_step; [reflexivity|].
  rewrite (open_instruction f _ (" block " +:+ name +:+ " %>" +:+ R));
    [|reflexivity|reflexivity].
  change (skip_spaces (" block " +:+ name +:+ " %>" +:+ R))
    with ("block " +:+ name +:+ " %>" +:+ R).
  apply scans_step; [reflexivity|].
  rewrite (step_block f _ name R); [|reflexivity|reflexivity|exact Hn].
  unfold block_head in H.
  destruct x.
  - rewrite app_nil in H. destruct o; exact H.
  - rewrite <- (append_assoc bk) in H. destruct o; exact H.
Qed.

Lemma step_endblock f st rest :
  r_state st = s_instruction ->
  r_p st = "endblock %>" +:+ rest ->
  reader_step f st =
  set_state s_initial
    (set_p rest
       (set_block false
          (if r_extends st
           then set_b b_body (buf_addstring ("end" +:+ nl) (set_p (" %>" +:+ rest) st))
           else buf_addstring ("render_block(_ENV, _t, '" +:+ fnam_of st +:+ "')" +:+ nl)
                  (read_fnam
                     (set_b b_body
                        (buf_addstring ("end" +:+ nl)
                           (buf_addstring ("end" +:+ nl) (set_p (" %>" +:+ rest) st)))))))).
Proof.
  intros Hs Hp. unfold reader_step. rewrite Hs. unfold step_instruction.
  rewrite Hp.
  change (starts "include" ("endblock %>" +:+ rest)) with false.
  change (starts "escape" ("endblock %>" +:+ rest)) with false.
  change (starts "block" ("endblock %>" +:+ rest)) with false.
  change ("endblock %>" +:+ rest) with ("endblock" +:+ " %>" +:+ rest).
  rewrite (starts_app "endblock"). cbv iota zeta.
  change (advance 8 ("endblock" +:+ " %>" +:+ rest)) with (" %>" +:+ rest).
  change (r_extends (set_p (" %>" +:+ rest) st)) with (r_extends st).
  destruct (r_extends st) eqn:Hx; cbn [negb].
  - replace (r_extends
               (set_b b_body (buf_addstring ("end" +:+ nl) (set_p (" %>" +:+ rest) st))))
      with (r_extends st) by (destruct st as [? ? ? ? ? ? ? ? ? []]; reflexivity).
    rewrite Hx. cbn [negb].
    match goal with
    | |- set_state _ (set_p (if at_end (find_close (r_p ?s)) then _ else _) _) = _ =>
        fold (after_close (r_p s));
        replace (r_p s) with (" %>" +:+ rest) by (destruct st as [? ? ? ? ? ? ? ? ? []];
                                                  reflexivity)
    end.
    rewrite after_close_space. reflexivity.
  - replace (r_extends
               (set_b b_body
                  (buf_addstring ("end" +:+ nl)
                     (buf_addstring ("end" +:+ nl) (set_p (" %>" +:+ rest) st)))))
      with (r_extends st) by (destruct st as [? ? ? ? ? ? ? ? ? []]; reflexivity).
    rewrite Hx. cbn [negb].
    replace (fnam_of
               (set_b b_body
                  (buf_addstring ("end" +:+ nl)
                     (buf_addstring ("end" +:+ nl) (set_p (" %>" +:+ rest) st)))))
      with (fnam_of st) by (destruct st as [? ? ? ? ? ? ? ? ? []]; reflexivity).
    match goal with
    | |- set_state _ (set_p (if at_end (find_close (r_p ?s)) then _ else _) _) = _ =>
        fold (after_close (r_p s));
        replace (r_p s) with (" %>" +:+ rest)
          by (destruct st as [? ? ? ? ? ? ? ? ? [] ? []]; reflexivity)
    end.
    rewrite after_close_space. reflexivity.
Qed.

Lemma block_close_step f R e x o bd bk inc fn ov r :
  scans f (at_item R s_initial e x false false b_body (bd +:+ block_call x fn)
             (closed bk o +:+ block_tail x) inc (Some fn) ov) r ->
  scans f (at_item ("<%! endblock %>" +:+ R) s_output e x true o b_blocks bk bd inc
             (Some fn) ov) r.
Proof.
  intros H.
  apply scans_step; [reflexivity|].
  rewrite (open_instruction f _ (" endblock %>" +:+ R)); [|reflexivity|reflexivity].
  change (skip_spaces (" endblock %>" +:+ R)) with ("endblock %>" +:+ R).
  apply scans_step; [reflexivity|].
  rewrite (step_endblock f _ R); [|reflexivity|reflexivity].
  unfold block_call, block_tail in H.
  destruct x.
  - rewrite append_nil_r in H. destruct o; exact H.
  - assert (E : closed bk o +:+ "end" +:+ nl +:+ "end" +:+ nl =
               (closed bk o +:+ "end" +:+ nl) +:+ "end" +:+ nl)
      by (rewrite !append_assoc; reflexivity).
    rewrite E in H. destruct o; exact H.
Qed.

Lemma step_extends f st name rest :
  r_state st = s_instruction ->
  r_p st = "extends " +:+ name +:+ " %>" +:+ rest ->
  r_extends st = false ->
  simple_name name = true ->
  reader_step f st =
  set_state s_initial
    (set_p rest
       (record_include name
          (set_extends true
             (buf_addstring ("template['" +:+ f +:+ "'].extends = '" +:+ name +:+ "'" +:+ nl)
                (buf_addstring ("template['" +:+ f +:+ "'].main = nil" +:+ nl)
                   (set_p (" %>" +:+ rest)
                      (set_fnam name (buf_addstring ("end" +:+ nl) st)))))))).
Proof.
  intros Hs Hp Hx Hn. unfold reader_step. rewrite Hs. unfold step_instruction.
  rewrite Hp.
  change (starts "include" ("extends " +:+ name +:+ " %>" +:+ rest)) with false.
  change (starts "escape" ("extends " +:+ name +:+ " %>" +:+ rest)) with false.
  change (starts "block" ("extends " +:+ name +:+ " %>" +:+ rest)) with false.
  change (starts "endblock" ("extends " +:+ name +:+ " %>" +:+ rest)) with false.
  change ("extends " +:+ name +:+ " %>" +:+ rest)
    with ("extends" +:+ String " " (name +:+ String " " ("%>" +:+ rest))).
  rewrite (starts_app "extends"). cbv iota zeta. rewrite Hx. cbn [negb].
  unfold parse_name. rewrite rp_buf_addstring, Hp.
  change (advance 7 ("extends " +:+ name +:+ " %>" +:+ rest))
    with (String " " (name +:+ String " " ("%>" +:+ rest))).
  rewrite (read_name_simple name _ Hn). cbv zeta iota beta.
  change (String " " ("%>" +:+ rest)) with (" %>" +:+ rest).
  replace (fnam_of
             (buf_addstring ("template['" +:+ f +:+ "'].main = nil" +:+ nl)
                (set_p (" %>" +:+ rest) (set_fnam name (buf_addstring ("end" +:+ nl) st)))))
    with name by (destruct st as [? ? ? ? ? ? ? ? ? []]; reflexivity).
  match goal with
  | |- context [record_include (fnam_of ?s) _] =>
      replace (fnam_of s) with name by (destruct st as [? ? ? ? ? ? ? ? ? []]; reflexivity)
  end.
  match goal with
  | |- set_state _ (set_p (if at_end (find_close (r_p ?s)) then _ else _) _) = _ =>
      fold (after_close (r_p s))
  end.
  rewrite rp_record_include.
  match goal with
  | |- context [after_close (r_p ?s)] =>
      replace (r_p s) with (" %>" +:+ rest) by (destruct st as [? ? ? ? ? ? ? ? ? []];
                                                reflexivity)
  end.
  rewrite after_close_space. reflexivity.
Qed.

Lemma extends_step f name R e o bd bk inc fn ov r :
  simple_name name = true ->
  scans f (at_item R s_initial e true false false b_body
             (closed bd o +:+ "end" +:+ nl +:+ "template['" +:+ f +:+ "'].main = nil" +:+ nl
              +:+ "template['" +:+ f +:+ "'].extends = '" +:+ name +:+ "'" +:+ nl)
             bk (if bool_decide (name ∈ inc) then inc else name :: inc) (Some name)
             ov) r ->
  scans f (at_item ("<%! extends " +:+ name +:+ " %>" +:+ R) s_output e false false o
             b_body bd bk inc fn ov) r.
Proof.
  intros Hn H.
  apply scans_step; [reflexivity|].
  rewrite (open_instruction f _ (" extends " +:+ name +:+ " %>" +:+ R));
    [|reflexivity|reflexivity].
  change (skip_spaces (" extends " +:+ name +:+ " %>" +:+ R))
    with ("extends " +:+ name +:+ " %>" +:+ R).
  apply scans_step; [reflexivity|].
  rewrite (step_extends f _ name R); [|reflexivity|reflexivity| |exact Hn].
  2: destruct o; reflexivity.
  unfold record_include.
  match goal with
  | |- context [bool_decide (name ∈ r_includes ?s)] =>
      replace (r_includes s) with inc by (destruct o; reflexivity)
  end.
  assert (E : closed bd o +:+ "end" +:+ nl +:+ "template['" +:+ f +:+ "'].main = nil" +:+ nl
               +:+ "template['" +:+ f +:+ "'].extends = '" +:+ name +:+ "'" +:+ nl =
              ((closed bd o +:+ "end" +:+ nl)
               +:+ "template['" +:+ f +:+ "'].main = nil" +:+ nl)
              +:+ "template['" +:+ f +:+ "'].extends = '" +:+ name +:+ "'" +:+ nl)
    by (rewrite !append_assoc; reflexivity).
  rewrite E in H.
  destruct (bool_decide (name ∈ inc)); destruct o; exact H.
Qed.


Lemma prints_in_block x : prints x true = true.
Proof. destruct x; reflexivity. Qed.

Lemma item_name_some items : forall fn,
  item_name items (Some fn) = Some (item_fnam items fn).
Proof.
  induction items as [|i rest IH]; intros fn; [reflexivity|].
  destruct i; cbn [item_name item_fnam]; apply IH.
Qed.

Lemma block_scan f x name inner R s e o bd bk inc fn ov r :
  simple_name name = true -> items_ok inner -> ambient_mode e ->
  (s = s_initial /\ o = false) \/ s = s_output ->
  scans f (at_item R s_initial (item_amb e inner) x false false b_body
             (closed bd o +:+ block_call x (item_fnam inner name))
             (bk +:+ block_head f x name +:+ item_code e inner +:+ block_tail x)
             (item_includes inner inc) (Some (item_fnam inner name)) ov) r ->
  scans f (at_item (block_text name inner +:+ R) s e x false o b_body bd bk inc fn ov) r.
Proof.
  intros Hn Hok He Hs H. unfold block_text. rewrite !append_assoc.
  apply item_enter;
    [apply (starts_app "<%" ("! block " +:+ name +:+ " %>" +:+ template_text inner
                             +:+ "<%! endblock %>" +:+ R))
    |reflexivity|exact Hs|].
  apply block_open_step; [exact Hn|].
  destruct (items_scan f ("<%! endblock %>" +:+ R) (or_intror eq_refl) inner s_initial e x
              true false b_blocks (bk +:+ block_head f x name) (closed bd o) inc
              (Some name) ov (prints_in_block x) Hok He)
    as (s' & o' & bd' & Hst & Hbd & Hscan).
  { left. auto. }
  apply Hscan.
  apply item_enter;
    [apply (starts_app "<%" ("! endblock %>" +:+ R))|reflexivity
    |destruct Hst as [?|[? _]]; auto|].
  rewrite item_name_some. apply block_close_step.
  rewrite Hbd. cbn [closed]. rewrite !append_assoc in *. exact H.
Qed.

Lemma parts_text_head rest :
  match rest with q :: _ => is_flat q = false | [] => True end ->
  parts_text rest = EmptyString \/ deref (parts_text rest) = "<"%char.
Proof.
  destruct rest as [|[items|name inner] rest]; intros H;
    [left; reflexivity|discriminate|right; reflexivity].
Qed.

Lemma parts_scan f :
  forall ps s e o bd bk inc fn ov,
    parts_ok ps -> ambient_mode e ->
    ((s = s_initial /\ o = false) \/
     (s = s_output /\ o = true /\
      match ps with q :: _ => is_flat q = false | [] => True end)) ->
    exists s' e' o' bd' fn',
      ((s' = s_initial /\ o' = false) \/ (s' = s_output /\ o' = true)) /\
      closed bd' o' = closed bd o +:+ parts_main e ps /\
      scans f (at_item (parts_text ps) s e false false o b_body bd bk inc fn ov)
        (at_item EmptyString s' e' false false o' b_body bd'
           (bk +:+ parts_blocks f false e ps) (parts_includes ps inc) fn' ov).
Proof.
  induction ps as [|p rest IH]; intros s e o bd bk inc fn ov Hok He Hst.
  - exists s, e, o, bd, fn. split; [destruct Hst as [?|(? & ? & _)]; auto|]. split.
    + cbn [parts_main]. rewrite append_nil_r. reflexivity.
    + cbn [parts_text parts_blocks parts_includes]. rewrite append_nil_r.
      apply scans_here. reflexivity.
  - destruct p as [items|name inner].
    + destruct Hok as (Hitems & Hrest & Hadj).
      destruct Hst as [[-> ->]|(_ & _ & Hbad)]; [|discriminate].
      destruct (items_scan f (parts_text rest) (parts_text_head rest Hadj) items s_initial
                  e false false false b_body bd bk inc fn ov eq_refl Hitems He)
        as (s1 & o1 & bd1 & Hst1 & Hbd1 & Hscan1).
      { left. auto. }
      destruct (IH s1 (item_amb e items) o1 bd1 bk (item_includes items inc)
                  (item_name items fn) ov Hrest (item_amb_ambient items e Hitems He))
        as (s' & e' & o' & bd' & fn' & Hst' & Hbd' & Hscan').
      { destruct Hst1 as [[-> ->]|[-> ->]]; [left; auto|right; auto]. }
      exists s', e', o', bd', fn'. split; [exact Hst'|]. split.
      * rewrite Hbd', Hbd1. cbn [closed parts_main]. rewrite !append_assoc. reflexivity.
      * cbn [parts_text parts_blocks parts_includes]. apply Hscan1. exact Hscan'.
    + destruct Hok as (Hn & Hinner & Hrest).
      destruct (IH s_initial (item_amb e inner) false
                  (closed bd o +:+ block_call false (item_fnam inner name))
                  (bk +:+ block_head f false name +:+ item_code e inner +:+ block_tail false)
                  (item_includes inner inc) (Some (item_fnam inner name)) ov Hrest
                  (item_amb_ambient inner e Hinner He))
        as (s' & e' & o' & bd' & fn' & Hst' & Hbd' & Hscan').
      { left. auto. }
      exists s', e', o', bd', fn'. split; [exact Hst'|]. split.
      * rewrite Hbd'. cbn [closed parts_main]. rewrite !append_assoc. reflexivity.
      * cbn [parts_text parts_blocks parts_includes].
        apply block_scan; [exact Hn|exact Hinner|exact He
                          |destruct Hst as [?|(? & _)]; auto|].
        rewrite !append_assoc in *. exact Hscan'.
Qed.

Lemma finish_at_item s o bd bk inc fn e ov :
  (s = s_initial /\ o = false) \/ (s = s_output /\ o = true) ->
  reader_finish (at_item EmptyString s e false false o b_body bd bk inc fn ov) =
  at_item EmptyString s_terminate e false false o b_body (closed bd o +:+ "end" +:+ nl)
    bk inc fn ov.
Proof.
  intros [[-> ->]|[-> ->]]; reflexivity.
Qed.

(** X18. A template with blocks that extends nothing compiles part by part: the
    main routine holds the statements of the pieces outside the blocks and,
    in place of each block, a call of [render_block]; the block buffer
    holds, after its first line, one guarded definition for each block with
    the statements of its body.  The call names the block by the last name
    the scanner read, which is the name of the last [include] inside the
    block when there is one. *)
Theorem template_with_blocks_compiles :
  forall f ps,
    parts_ok ps ->
    exists r,
      reader (parts_text ps) f = Some r /\
      r_body r = prologue f +:+ parts_main e_none ps +:+ "end" +:+ nl /\
      r_blocks r = "_ENV = ..." +:+ nl +:+ parts_blocks f false e_none ps /\
      r_includes r = parts_includes ps [] /\
      r_overrun r = false /\ r_state r = s_terminate.
Proof.
  intros f ps Hok.
  destruct (parts_scan f ps s_initial e_none false (prologue f) ("_ENV = ..." +:+ nl) []
              None false Hok)
    as (s' & e' & o' & bd' & fn' & Hst & Hbd & Hscan).
  { left. reflexivity. }
  { left. auto. }
  eexists. split; [apply scans_reader; exact Hscan|].
  rewrite (finish_at_item s' o' _ _ _ _ _ _ Hst). unfold at_item. cbn [r_body r_blocks
    r_includes r_overrun r_state].
  rewrite Hbd. cbn [closed]. rewrite !append_assoc. repeat split.
Qed.

Lemma template_with_blocks_compiles_witness :
  exists r,
    reader (parts_text [Flat [ILit "<h1>"]; Blk "title" [ILit "Untitled"];
                        Flat [ILit "</h1>"; IExpr None " body "];
                        Blk "foot" [IInclude "legal"; ILit "."]]) "base" = Some r /\
    r_body r =
      prologue "base" +:+
      parts_main e_none [Flat [ILit "<h1>"]; Blk "title" [ILit "Untitled"];
                         Flat [ILit "</h1>"; IExpr None " body "];
                         Blk "foot" [IInclude "legal"; ILit "."]] +:+ "end" +:+ nl /\
    r_blocks r =
      "_ENV = ..." +:+ nl +:+
      parts_blocks "base" false e_none
        [Flat [ILit "<h1>"]; Blk "title" [ILit "Untitled"];
         Flat [ILit "</h1>"; IExpr None " body "];
         Blk "foot" [IInclude "legal"; ILit "."]] /\
    r_includes r =
      parts_includes [Flat [ILit "<h1>"]; Blk "title" [ILit "Untitled"];
                      Flat [ILit "</h1>"; IExpr None " body "];
                      Blk "foot" [IInclude "legal"; ILit "."]] [] /\
    r_overrun r = false /\ r_state r = s_terminate.
Proof.
  apply (template_with_blocks_compiles "base").
  cbn [parts_ok items_ok item_ok is_lit is_flat].
  repeat split; try reflexivity; try discriminate; auto.
Defined.


(** ** Templates that extend another one *)

Lemma raw_scan f t R s e bd bk inc fn ov r :
  item_ok (ILit t) ->
  R = EmptyString \/ deref R = "<"%char ->
  s = s_initial \/ s = s_output ->
  scans f (at_item R s_output e true false false b_body (bd +:+ t) bk inc fn ov) r ->
  scans f (at_item (t +:+ R) s e true false false b_body bd bk inc fn ov) r.
Proof.
  intros (Hne & Hdf & Hnul) HR Hs H.
  assert (Hout : scans f (at_item (t +:+ R) s_output e true false false b_body bd bk inc
                            fn ov) r).
  { apply (scans_literal f t _ r R); try assumption; reflexivity. }
  destruct Hs as [-> | ->]; [|exact Hout].
  destruct t as [|c t]; [contradiction|].
  pose proof Hdf as Hdf'. cbn [directive_free] in Hdf'.
  apply andb_prop in Hdf' as [Hopen _]. apply negb_true_iff in Hopen.
  apply scans_initial; [reflexivity| |].
  { unfold at_item. cbn [r_p]. rewrite app_cons. apply at_end_cons.
    apply (no_nul_cons c t Hnul). }
  unfold step_initial, at_item. cbn [r_p r_extends r_block].
  rewrite app_cons, (starts_open_app c t R Hopen HR). cbn [negb andb orb].
  rewrite <- app_cons. exact Hout.
Qed.

Lemma child_scan f :
  forall ps s e bd bk inc fn ov,
    parts_ok ps -> Forall raw_part ps -> ambient_mode e ->
    s = s_initial \/ s = s_output ->
    exists s' e' fn',
      (s' = s_initial \/ s' = s_output) /\
      scans f (at_item (parts_text ps) s e true false false b_body bd bk inc fn ov)
        (at_item EmptyString s' e' true false false b_body (bd +:+ parts_raw ps)
           (bk +:+ parts_blocks f true e ps) (parts_includes ps inc) fn' ov).
Proof.
  induction ps as [|p rest IH]; intros s e bd bk inc fn ov Hok Hraw He Hs.
  - exists s, e, fn. split; [exact Hs|].
    cbn [parts_text parts_raw parts_blocks parts_includes]. rewrite !append_nil_r.
    apply scans_here. reflexivity.
  - apply Forall_cons in Hraw as [Hp Hraw].
    destruct p as [items|name inner].
    + destruct Hp as [t ->]. destruct Hok as (Hitems & Hrest & Hadj).
      destruct Hitems as (Ht & _ & _).
      destruct (IH s_output e (bd +:+ t) bk inc fn ov Hrest Hraw He)
        as (s' & e' & fn' & Hs' & Hscan'); [right; reflexivity|].
      exists s', e', fn'. split; [exact Hs'|].
      cbn [parts_text parts_raw parts_blocks parts_includes template_text item_text
             item_amb item_includes].
      rewrite !append_nil_r. apply raw_scan; [exact Ht|apply parts_text_head, Hadj
                                             |exact Hs|].
      rewrite <- append_assoc. exact Hscan'.
    + destruct Hok as (Hn & Hinner & Hrest).
      destruct (IH s_initial (item_amb e inner) bd
                  (bk +:+ block_head f true name +:+ item_code e inner +:+ block_tail true)
                  (item_includes inner inc) (Some (item_fnam inner name)) ov Hrest Hraw
                  (item_amb_ambient inner e Hinner He))
        as (s' & e' & fn' & Hs' & Hscan'); [left; reflexivity|].
      exists s', e', fn'. split; [exact Hs'|].
      cbn [parts_text parts_raw parts_blocks parts_includes].
      apply (block_scan f true name inner (parts_text rest) s e false bd bk inc fn ov);
        [exact Hn|exact Hinner|exact He|destruct Hs as [-> | ->]; auto|].
      cbn [closed block_call]. rewrite append_nil_r.
      rewrite !append_assoc in *. exact Hscan'.
Qed.

(** X19. A template that begins with [extends] and goes on with blocks and text
    outside them: the main buffer closes the main routine at once, clears
    [main], records the parent and then holds the text outside the blocks as
    it stands, not inside a [print]; the block buffer holds one definition,
    without guard, for each block; the parent is the first dependency
    recorded. *)
Theorem extending_template_compiles :
  forall f parent ps,
    simple_name parent = true -> parts_ok ps -> Forall raw_part ps ->
    exists r,
      reader ("<%! extends " +:+ parent +:+ " %>" +:+ parts_text ps) f = Some r /\
      r_body r =
        prologue f +:+ "end" +:+ nl +:+
        "template['" +:+ f +:+ "'].main = nil" +:+ nl +:+
        "template['" +:+ f +:+ "'].extends = '" +:+ parent +:+ "'" +:+ nl +:+
        parts_raw ps /\
      r_blocks r = "_ENV = ..." +:+ nl +:+ parts_blocks f true e_none ps /\
      r_includes r = parts_includes ps [parent] /\
      r_extends r = true /\ r_overrun r = false /\ r_state r = s_terminate.
Proof.
  intros f parent ps Hn Hok Hraw.
  destruct (child_scan f ps s_initial e_none
              (prologue f +:+ "end" +:+ nl +:+
               "template['" +:+ f +:+ "'].main = nil" +:+ nl +:+
               "template['" +:+ f +:+ "'].extends = '" +:+ parent +:+ "'" +:+ nl)
              ("_ENV = ..." +:+ nl) [parent] (Some parent) false Hok Hraw)
    as (s' & e' & fn' & Hs' & Hscan).
  { left. reflexivity. }
  { left. reflexivity. }
  eexists. split.
  - apply scans_reader.
    change (reader_init ("<%! extends " +:+ parent +:+ " %>" +:+ parts_text ps) f)
      with (at_item ("<%! extends " +:+ parent +:+ " %>" +:+ parts_text ps) s_initial
              e_none false false false b_body (prologue f) ("_ENV = ..." +:+ nl) []
              None false).
    apply item_enter;
      [apply (starts_app "<%" ("! extends " +:+ parent +:+ " %>" +:+ parts_text ps))
      |reflexivity|left; auto|].
    apply extends_step; [exact Hn|].
    cbn [closed]. change (bool_decide (parent ∈ [])) with false. cbv iota.
    unfold prologue in *. rewrite ?append_assoc in *. exact Hscan.
  - destruct Hs' as [-> | ->]; unfold reader_finish, at_item; cbn;
      unfold prologue; rewrite ?append_assoc; repeat split.
Qed.

Lemma extending_template_compiles_witness :
  exists r,
    reader ("<%! extends " +:+ "base" +:+ " %>" +:+
            parts_text [Flat [ILit nl]; Blk "title" [ILit "News"]; Flat [ILit nl]])
      "child" = Some r /\
    r_body r =
      prologue "child" +:+ "end" +:+ nl +:+
      "template['" +:+ "child" +:+ "'].main = nil" +:+ nl +:+
      "template['" +:+ "child" +:+ "'].extends = '" +:+ "base" +:+ "'" +:+ nl +:+
      parts_raw [Flat [ILit nl]; Blk "title" [ILit "News"]; Flat [ILit nl]] /\
    r_blocks r =
      "_ENV = ..." +:+ nl +:+
      parts_blocks "child" true e_none
        [Flat [ILit nl]; Blk "title" [ILit "News"]; Flat [ILit nl]] /\
    r_includes r =
      parts_includes [Flat [ILit nl]; Blk "title" [ILit "News"]; Flat [ILit nl]]
        ["base"] /\
    r_extends r = true /\ r_overrun r = false /\ r_state r = s_terminate.
Proof.
  apply (extending_template_compiles "child" "base").
  - reflexivity.
  - cbn [parts_ok items_ok item_ok is_lit is_flat].
    repeat split; try reflexivity; try discriminate; auto.
  - repeat constructor; eexists; reflexivity.
Defined.


(** ** Dependencies, in the order of the walk *)

Lemma remove_dups_nodup (l : list string) : NoDup l -> remove_dups l = l.
Proof.
  induction 1 as [|x l Hx Hl IH]; [reflexivity|].
  cbn [remove_dups]. rewrite IH.
  destruct (decide_rel elem_of x l); [contradiction|reflexivity].
Qed.

Lemma remove_dups_known (l inc : list string) x :
  x ∈ inc -> remove_dups (l ++ x :: inc) = remove_dups (l ++ inc).
Proof.
  intros Hx. induction l as [|y l IH].
  - cbn [app remove_dups].
    destruct (decide_rel elem_of x inc); [reflexivity|contradiction].
  - cbn [app remove_dups]. rewrite IH.
    destruct (decide_rel elem_of y (l ++ x :: inc)) as [H1|H1];
      destruct (decide_rel elem_of y (l ++ inc)) as [H2|H2]; try reflexivity;
      exfalso; set_solver.
Qed.

Lemma item_includes_order items : forall inc,
  NoDup inc ->
  item_includes items inc = remove_dups (rev (include_names items) ++ inc).
Proof.
  induction items as [|i rest IH]; intros inc Hinc.
  - cbn [item_includes include_names rev app]. symmetry. apply remove_dups_nodup, Hinc.
  - destruct i; cbn [item_includes include_names]; try (apply IH; exact Hinc).
    cbn [rev]. rewrite <- app_assoc. cbn [app].
    case_bool_decide as Hx.
    + rewrite (remove_dups_known _ _ _ Hx). apply IH. exact Hinc.
    + apply IH. apply NoDup_cons. split; assumption.
Qed.

Lemma finish_includes s o e bd bk inc fn ov :
  (s = s_initial /\ o = false) \/ (s = s_output /\ o = true) ->
  r_includes (reader_finish (at_item EmptyString s e false false o b_body bd bk inc fn ov))
  = inc /\
  r_overrun (reader_finish (at_item EmptyString s e false false o b_body bd bk inc fn ov))
  = ov.
Proof. intros [[-> ->]|[-> ->]]; split; reflexivity. Qed.

Lemma walk_includes_cons recurse include rest st :
  walk_includes recurse (include :: rest) st =
  if bool_decide (include ∈ ps_ihead st) then (st, Failed (Recursion include))
  else match ps_template st !! include with
       | Some _ => walk_includes recurse rest st
       | None =>
           match recurse include st with
           | (st', Compiled) => walk_includes recurse rest st'
           | stopped => stopped
           end
       end.
Proof. reflexivity. Qed.

(** C6, as the code has it.  The scanner puts a new dependency name at the
    head of its list, so the list of a template with [include] instructions
    holds each name once, in the reverse of the order in which the names
    first occur.  [process_file] walks that list from its head, after the two
    buffers have run: the dependency discovered last is taken first.  For
    each name it fails with a recursion error when the name is on the active
    stack; otherwise it skips the name when the registry has an entry for
    it, whatever the state of the file, and compiles it when the registry has
    none, stopping at the first compile that fails.  Only for the path given
    to [renderFile] is an entry whose [mtime] differs from that of the file
    evicted and compiled again. *)
Theorem dependencies_walked_newest_first :
  (forall f items,
      items_ok items ->
      exists r, reader (template_text items) f = Some r /\ r_overrun r = false /\
                r_includes r = remove_dups (rev (include_names items))) /\
  (forall ld fuel fs f file r st reg,
      resolve fs f = Some file ->
      readable file = true ->
      contents file <> EmptyString ->
      mapping_ends (contents file) = true ->
      reader (contents file) f = Some r ->
      r_overrun r = false ->
      run_buffers ld r (ps_template st) = (reg, BuffersRun) ->
      process_file ld (S fuel) fs f st =
      match walk_includes (process_file ld fuel fs) (r_includes r)
              (PState (f :: ps_ihead st) reg) with
      | (st', Compiled) => (PState (tail (ps_ihead st')) (ps_template st'), Compiled)
      | stopped => stopped
      end) /\
  (forall recurse include rest st,
      (include ∈ ps_ihead st ->
       walk_includes recurse (include :: rest) st = (st, Failed (Recursion include))) /\
      (include ∉ ps_ihead st ->
       is_Some (ps_template st !! include) ->
       walk_includes recurse (include :: rest) st = walk_includes recurse rest st) /\
      (include ∉ ps_ihead st ->
       ps_template st !! include = None ->
       walk_includes recurse (include :: rest) st =
       match recurse include st with
       | (st', Compiled) => walk_includes recurse rest st'
       | stopped => stopped
       end)) /\
  (forall ld fuel fs ctx fnam data ws sb t m,
      fs !! fnam = Some sb ->
      registry_of ctx !! fnam = Some t ->
      mtime t = Some m ->
      m <> st_mtime sb ->
      render_file ld fuel fs ctx fnam data ws =
      render_file ld fuel fs (evict fnam ctx) fnam data ws).
Proof.
  split; [|split; [|split]].
  - intros f items Hok.
    destruct (items_scan f EmptyString (or_introl eq_refl) items s_initial e_none false
                false false b_body (prologue f) ("_ENV = ..." +:+ nl) [] None false
                eq_refl Hok)
      as (s' & o' & bd' & Hst & _ & Hscan).
    { left. reflexivity. }
    { left. auto. }
    rewrite append_nil_r in Hscan.
    eexists. split; [apply scans_reader, Hscan, scans_here; reflexivity|].
    destruct (finish_includes s' o' (item_amb e_none items) bd' ("_ENV = ..." +:+ nl)
                (item_includes items []) (item_name items None) false Hst) as [Hi Ho].
    split; [exact Ho|]. rewrite Hi.
    rewrite (item_includes_order items [] (NoDup_nil_2)), app_nil_r. reflexivity.
  - intros ld fuel fs f file r st reg Hres Hread Hne Hends Hr Hover Hrun.
    cbn [process_file]. rewrite Hres, Hread. cbn [negb].
    destruct (contents file) as [|c t] eqn:Hc; [contradiction|].
    cbn [String.length Nat.eqb]. rewrite Hends. cbn [negb].
    rewrite Hr, Hover, Hrun. reflexivity.
  - intros recurse include rest st. rewrite walk_includes_cons. repeat split.
    + intros Hin. rewrite bool_decide_eq_true_2 by assumption. reflexivity.
    + intros Hnin [t Ht]. rewrite bool_decide_eq_false_2 by assumption.
      rewrite Ht. reflexivity.
    + intros Hnin Hnone. rewrite bool_decide_eq_false_2 by assumption.
      rewrite Hnone. reflexivity.
  - intros ld fuel fs ctx fnam data ws sb t m Hsb Hreg Hm Hne.
    unfold render_file, prepare, evict, registry_of in *.
    rewrite Hsb.
    destruct (uservalue ctx) as [c|]; [|rewrite lookup_empty in Hreg; discriminate].
    cbn [uservalue c_template ihead debug].
    rewrite Hreg, Hm.
    destruct (Z.eqb_spec m (st_mtime sb)) as [?|_]; [contradiction|].
    rewrite !lookup_delete_eq. reflexivity.
Qed.

Lemma dependencies_walked_newest_first_witness :
  (r_includes <$> reader "<%! include a %><%! include b %>" "first") = Some ["b"; "a"] /\
  snd (process_file load 8 fs_order "first" (PState [] ∅)) = Failed (CantStat "b") /\
  ps_template (fst (process_file load 8 fs_order "first" (PState [] ∅))) !! "a" = None /\
  snd (process_file load 8 fs_order "second" (PState [] ∅)) = Failed (CantStat "b") /\
  is_Some (ps_template (fst (process_file load 8 fs_order "second" (PState [] ∅))) !! "a").
Proof.
  assert (Hok : items_ok [IInclude "a"; IInclude "b"])
    by (cbn [items_ok item_ok is_lit]; repeat split; reflexivity || discriminate).
  destruct (proj1 dependencies_walked_newest_first "first"
              [IInclude "a"; IInclude "b"] Hok) as (r & Hr & Hov & Hinc).
  change (template_text [IInclude "a"; IInclude "b"])
    with "<%! include a %><%! include b %>" in Hr.
  split; [rewrite Hr; cbn [fmap option_fmap option_map]; rewrite Hinc; reflexivity|].
  destruct (run_buffers load r ∅) as [reg b] eqn:Hrun.
  assert (Hb : b = BuffersRun).
  { vm_compute in Hr. injection Hr as <-. vm_compute in Hrun. congruence. }
  subst b.
  pose proof (proj1 (proj2 dependencies_walked_newest_first) load 7%nat fs_order
                "first" (File 1 true "<%! include a %><%! include b %>") r (PState [] ∅)
                reg eq_refl eq_refl ltac:(discriminate) eq_refl Hr Hov Hrun) as H.
  rewrite H, Hinc.
  vm_compute in Hr. injection Hr as <-. vm_compute in Hrun. injection Hrun as <-.
  vm_compute. repeat split; try reflexivity. eexists; reflexivity.
Defined.

End Theorems.
